(** * klogstream: the streaming engine, embedded and verified

    A shallow embedding of the Go packages

    - [internal/matcher]  (java_stack_matcher.go, json_matcher.go),
    - [internal/errors]   (error_util.go),
    - [internal/stream]   (the line scanner, the single-line and multi-line
                           processors, the container follower, Start and Stop),

    followed by the properties of the specification that concern them.

    Conventions.  A Go [string] is a [string] (a sequence of bytes, one
    [ascii] per byte); a [[]byte] is a [list byte]; [string(b)] is
    [string_of_list_byte].  A Go [int] or [time.Duration] is a [Z] kept in
    the 64-bit signed range by [int_wrap].  A [nil] pointer or interface is
    [None].  Methods with a pointer receiver return the receiver after the
    call next to their result. *)

From Stdlib Require Import List Bool Arith ZArith Lia.
From Stdlib.Strings Require Import Ascii String Byte.
From Equations Require Import Equations.
From Equations.Prop Require Import Logic.
Import ListNotations.
Open Scope string_scope.
Open Scope list_scope.

(* ===================================================================== *)
(** * Go built-ins and the pieces of the standard library that are used  *)
(* ===================================================================== *)

Module Go.

(** Two's-complement wrap-around of the 64-bit [int]. *)
Definition int_wrap (z : Z) : Z :=
  ((z + 2 ^ 63) mod 2 ^ 64 - 2 ^ 63)%Z.

Definition byte_of (n : nat) : ascii := ascii_of_nat n.

Definition bytes_of (l : list nat) : string :=
  string_of_list_ascii (map byte_of l).

Fixpoint rev_string (acc s : string) : string :=
  match s with
  | EmptyString => acc
  | String c s' => rev_string (String c acc) s'
  end.

Definition reverse (s : string) : string := rev_string "" s.

(** [strings.HasPrefix]; [CutPrefix] also returns what follows the prefix. *)
Fixpoint CutPrefix (s prefix : string) {struct prefix} : option string :=
  match prefix with
  | EmptyString => Some s
  | String p prefix' =>
      match s with
      | EmptyString => None
      | String c s' => if Ascii.eqb c p then CutPrefix s' prefix' else None
      end
  end.

Definition HasPrefix (s prefix : string) : bool :=
  match CutPrefix s prefix with Some _ => true | None => false end.

(** [strings.HasSuffix] and [CutSuffix], through the reversed strings. *)
Definition CutSuffix (s suffix : string) : option string :=
  match CutPrefix (reverse s) (reverse suffix) with
  | Some r => Some (reverse r)
  | None => None
  end.

Definition HasSuffix (s suffix : string) : bool :=
  match CutSuffix s suffix with Some _ => true | None => false end.

(** [strings.Contains]: [substr] occurs at some position of [s]. *)
Fixpoint Contains (s substr : string) : bool :=
  HasPrefix s substr
  || match s with
     | EmptyString => false
     | String _ s' => Contains s' substr
     end.

(** The UTF-8 encodings of the code points for which [unicode.IsSpace]
    holds: the six ASCII ones, U+0085, U+00A0, U+1680, U+2000..U+200A,
    U+2028, U+2029, U+202F, U+205F and U+3000.  No encoding is a prefix or
    a suffix of another, and UTF-8 decoding from either end of a string
    yields one of these code points exactly when the string starts (ends)
    with its encoding. *)
Definition spaceRunes : list string :=
  map bytes_of
    ([ [9]; [10]; [11]; [12]; [13]; [32];
       [194; 133]; [194; 160];
       [225; 154; 128] ]
     ++ map (fun k => [226; 128; 128 + k]) (seq 0 11)
     ++ [ [226; 128; 168]; [226; 128; 169]; [226; 128; 175];
          [226; 129; 159];
          [227; 128; 128] ])%nat.

Fixpoint first_cut (cut : string -> option string) (ps : list string)
  : option string :=
  match ps with
  | [] => None
  | p :: ps' =>
      match cut p with
      | Some r => Some r
      | None => first_cut cut ps'
      end
  end.

(** One white-space rune removed from the front (the back) of [s]. *)
Definition cutLeadingSpace (s : string) : option string :=
  first_cut (CutPrefix s) spaceRunes.

Definition cutTrailingSpace (s : string) : option string :=
  first_cut (CutSuffix s) spaceRunes.

Fixpoint trim_loop (cut : string -> option string) (n : nat) (s : string)
  : string :=
  match n with
  | O => s
  | S n' =>
      match cut s with
      | Some r => trim_loop cut n' r
      | None => s
      end
  end.

(** [strings.TrimSpace]: all leading, then all trailing white space (as
    defined by Unicode) removed.  A string of [n] bytes holds at most [n]
    runes, so [n] rounds always suffice. *)
Definition TrimSpace (s : string) : string :=
  let s1 := trim_loop cutLeadingSpace (String.length s) s in
  trim_loop cutTrailingSpace (String.length s1) s1.

End Go.

(* ===================================================================== *)
(** * Package regexp, for the expressions the library compiles           *)
(* ===================================================================== *)

Module regexp.

(** A compiled expression, seen through the one method that is called. *)
Record Regexp := { MatchString : string -> bool }.

(** The syntax that the six literals of package matcher need: a sequence
    of single-character atoms, each taken once, [*] or [+] times, with
    optional [^] and [$] anchors. *)
Inductive atom :=
| Lit (c : ascii)
| Class (negated : bool) (members : list ascii).

Inductive quantifier := Once | ZeroOrMore | OneOrMore.

Record pattern := {
  anchorStart : bool;
  items : list (atom * quantifier);
  anchorEnd : bool
}.

Definition atomMatches (a : atom) (c : ascii) : bool :=
  match a with
  | Lit d => Ascii.eqb c d
  | Class negated members =>
      xorb negated (existsb (Ascii.eqb c) members)
  end.

(** [a*] followed by the continuation [k]. *)
Fixpoint matchStar (a : atom) (k : string -> bool) (s : string) : bool :=
  k s
  || match s with
     | EmptyString => false
     | String c s' => atomMatches a c && matchStar a k s'
     end.

Fixpoint matchHere (atEnd : bool) (its : list (atom * quantifier))
  : string -> bool :=
  match its with
  | [] => fun s => if atEnd then String.eqb s "" else true
  | (a, Once) :: r => fun s =>
      match s with
      | EmptyString => false
      | String c s' => atomMatches a c && matchHere atEnd r s'
      end
  | (a, ZeroOrMore) :: r => matchStar a (matchHere atEnd r)
  | (a, OneOrMore) :: r => fun s =>
      match s with
      | EmptyString => false
      | String c s' => atomMatches a c && matchStar a (matchHere atEnd r) s'
      end
  end.

Fixpoint matchAnywhere (k : string -> bool) (s : string) : bool :=
  k s
  || match s with
     | EmptyString => false
     | String _ s' => matchAnywhere k s'
     end.

Definition matchPattern (p : pattern) (s : string) : bool :=
  if anchorStart p
  then matchHere (anchorEnd p) (items p) s
  else matchAnywhere (matchHere (anchorEnd p) (items p)) s.

Definition MustCompile (p : pattern) : Regexp :=
  {| MatchString := matchPattern p |}.

Definition lits (s : string) : list (atom * quantifier) :=
  map (fun c => (Lit c, Once)) (list_ascii_of_string s).

(** [\s] is [[\t\n\f\r ]] in Go's syntax. *)
Definition perl_space : list ascii :=
  map Go.byte_of [9; 10; 12; 13; 32]%nat.

End regexp.

(* ===================================================================== *)
(** * Package matcher                                                    *)
(* ===================================================================== *)

Module matcher.
Import regexp.

Record JavaStackMatcher := {
  ExceptionRegex : Regexp;
  TabIndentationRegex : Regexp;
  CausedByRegex : Regexp;
  AtRegex : Regexp
}.

(** [^[^\s]+Exception:], [^\t], [^Caused by:] and [^\s+at ]. *)
Definition NewJavaStackMatcher : JavaStackMatcher :=
  {| ExceptionRegex :=
       MustCompile {| anchorStart := true;
                      items := (Class true perl_space, OneOrMore)
                               :: lits "Exception:";
                      anchorEnd := false |};
     TabIndentationRegex :=
       MustCompile {| anchorStart := true;
                      items := [(Lit (Go.byte_of 9), Once)];
                      anchorEnd := false |};
     CausedByRegex :=
       MustCompile {| anchorStart := true;
                      items := lits "Caused by:";
                      anchorEnd := false |};
     AtRegex :=
       MustCompile {| anchorStart := true;
                      items := (Class false perl_space, OneOrMore)
                               :: lits "at ";
                      anchorEnd := false |} |}.

Definition JavaStackMatcher_ShouldMerge
  (m : JavaStackMatcher) (previous next : string) : bool * JavaStackMatcher :=
  if String.eqb (Go.TrimSpace next) "" then (false, m)
  else if MatchString (TabIndentationRegex m) next then (true, m)
  else if MatchString (AtRegex m) next then (true, m)
  else if MatchString (CausedByRegex m) next then (true, m)
  else if Go.HasSuffix (Go.TrimSpace previous) "\" then (true, m)
  else (false, m).

Record JSONMatcher := {
  StartObjectRegex : Regexp;
  EndObjectRegex : Regexp;
  BracketMode : bool;
  BracketCount : Z
}.

(** [^[^{]*{] and [}[^}]*$]. *)
Definition NewJSONMatcher : JSONMatcher :=
  {| StartObjectRegex :=
       MustCompile {| anchorStart := true;
                      items := [(Class true ["{"%char], ZeroOrMore);
                                (Lit "{"%char, Once)];
                      anchorEnd := false |};
     EndObjectRegex :=
       MustCompile {| anchorStart := false;
                      items := [(Lit "}"%char, Once);
                                (Class true ["}"%char], ZeroOrMore)];
                      anchorEnd := true |};
     BracketMode := true;
     BracketCount := 0 |}.

Definition setBracketCount (m : JSONMatcher) (n : Z) : JSONMatcher :=
  {| StartObjectRegex := StartObjectRegex m;
     EndObjectRegex := EndObjectRegex m;
     BracketMode := BracketMode m;
     BracketCount := n |}.

(** [for _, c := range previous { if c == '{' {count++} else if c == '}'
    {count--} }].  Both characters are ASCII, so the runes that [range]
    decodes equal them exactly at the bytes that do. *)
Fixpoint countBrackets (previous : string) (count : Z) : Z :=
  match previous with
  | EmptyString => count
  | String c rest =>
      countBrackets rest
        (if Ascii.eqb c "{" then Go.int_wrap (count + 1)
         else if Ascii.eqb c "}" then Go.int_wrap (count - 1)
         else count)
  end.

Definition JSONMatcher_ShouldMerge
  (m : JSONMatcher) (previous next : string) : bool * JSONMatcher :=
  if Go.HasSuffix (Go.TrimSpace previous) "\" then (true, m)
  else if negb (BracketMode m) then (false, m)
  else
    let m1 :=
      if MatchString (StartObjectRegex m) previous && (BracketCount m =? 0)%Z
      then
        let m' := setBracketCount m 1 in
        let m' := setBracketCount m' (countBrackets previous (BracketCount m')) in
        setBracketCount m' (Go.int_wrap (BracketCount m' - 1))
      else setBracketCount m (countBrackets previous (BracketCount m)) in
    if (BracketCount m1 <=? 0)%Z
    then (false, setBracketCount m1 0)
    else (true, m1).

End matcher.

(* ===================================================================== *)
(** * Errors: the [error] values that occur, and package errors          *)
(* ===================================================================== *)

Module errors.

(** An [error] is the sentinel [io.EOF], a [*LogStreamError] of package
    stream, or any other error, known by the text its [Error] method
    returns ([fmt.Errorf], errors of the cluster client).  Comparing with
    [io.EOF] is comparing with the first constructor: an error that merely
    prints as EOF is an [errorString]. *)
Inductive error :=
| io_EOF
| errorString (text : string)
| LogStreamError (Err : error) (Permanent : bool) (Reason : string).

Fixpoint Error (e : error) : string :=
  match e with
  | io_EOF => "EOF"
  | errorString text => text
  | LogStreamError Err _ Reason =>
      if String.eqb Reason "" then Error Err
      else (Reason ++ ": " ++ Error Err)%string
  end.

Definition is_EOF (e : error) : bool :=
  match e with io_EOF => true | _ => false end.

Definition IsPodDeletedError (err : option error) : bool :=
  match err with
  | None => false
  | Some e =>
      if is_EOF e then true
      else
        let errStr := Error e in
        if Go.Contains errStr "container not found"
           || Go.Contains errStr "pod not found"
           || Go.Contains errStr "has been terminated"
           || Go.Contains errStr "has been deleted"
        then true
        else false
  end.

Definition IsPermError (err : option error) : bool := false.

End errors.

(* ===================================================================== *)
(** * Package stream: the line scanner                                   *)
(* ===================================================================== *)

Module stream.
Import errors.

Definition NewLogStreamError (err : error) (permanent : bool) (reason : string)
  : error :=
  LogStreamError err permanent reason.

(** An [io.Reader] is the script of what its successive [Read] calls
    return: the bytes placed in the buffer ([n] is their number, at most
    the 4096 bytes of the scanner's buffer) and the error.  Past the end of
    the script [Read] returns [0, io.EOF]. *)
Definition ReadResult : Type := list byte * option error.
Definition Reader : Type := list ReadResult.

Definition Read (r : Reader) : ReadResult * Reader :=
  match r with
  | [] => (([], Some io_EOF), [])
  | res :: r' => (res, r')
  end.

Definition newline : byte := x0a.

(** The scanner.  Its buffer [buf] is not a field here: every [Read]
    overwrites it, and what [Scan] keeps of it is copied into [token]
    before the next [Read]. *)
Record scanner := {
  reader : Reader;
  token : list byte;
  err : option error
}.

Definition NewScanner (r : Reader) : scanner :=
  {| reader := r; token := []; err := None |}.

(** [for i := 0; i < n; i++ { if s.buf[i] == '\n' ... }]: the first index
    of a newline among the bytes read. *)
Fixpoint index_newline (buf : list byte) (i : nat) : option nat :=
  match buf with
  | [] => None
  | b :: buf' =>
      if Byte.eqb b newline then Some i else index_newline buf' (S i)
  end.

(** What one turn of the loop of [Scan] does with the result of a [Read]:
    return, or go round again with a longer [token]. *)
Inductive scan_step :=
| Return (found : bool) (s : scanner)
| Again (token : list byte).

Definition Scan_turn (s : scanner) (res : ReadResult) (rest : Reader)
  (tok : list byte) : scan_step :=
  let '(buf, e) := res in
  match index_newline buf 0 with
  | Some i =>
      (* the bytes after the newline stay in the buffer and are
         overwritten by the next Read *)
      Return true {| reader := rest; token := tok ++ firstn i buf;
                     err := err s |}
  | None =>
      let tok := tok ++ buf in
      match e with
      | Some e' =>
          if is_EOF e' && negb (Nat.eqb (List.length tok) 0)
          then Return true {| reader := rest; token := tok; err := Some e' |}
          else Return false {| reader := rest; token := token s;
                               err := Some e' |}
      | None => Again tok
      end
  end.

Fixpoint Scan_loop (s : scanner) (r : Reader) (tok : list byte)
  : bool * scanner :=
  match r with
  | [] =>
      match Scan_turn s (fst (Read [])) (snd (Read [])) tok with
      | Return found s' => (found, s')
      | Again _ => (false, s)
      end
  | res :: rest =>
      match Scan_turn s res rest tok with
      | Return found s' => (found, s')
      | Again tok' => Scan_loop s rest tok'
      end
  end.

Definition Scan (s : scanner) : bool * scanner :=
  match err s with
  | Some _ => (false, s)
  | None => Scan_loop s (reader s) []
  end.

Definition Text (s : scanner) : string := string_of_list_byte (token s).

Definition Bytes (s : scanner) : list byte := token s.

Definition Err (s : scanner) : option error :=
  match err s with
  | Some e => if is_EOF e then None else Some e
  | None => None
  end.

(** A successful [Scan] has consumed at least one result of the reader:
    the loops around [Scan] terminate. *)
Lemma Scan_loop_consumes s r tok s' :
  Scan_loop s r tok = (true, s') -> List.length (reader s') < S (List.length r).
Proof.
  revert tok. induction r as [|[buf e] rest IH]; intros tok; simpl.
  - destruct (negb (Nat.eqb (List.length (tok ++ [])) 0));
      intros H; inversion H; subst; simpl; lia.
  - destruct (index_newline buf 0).
    + intros H; inversion H; subst; simpl; lia.
    + destruct e as [e'|].
      * destruct (is_EOF e' && negb (Nat.eqb (List.length (tok ++ buf)) 0));
          intros H; inversion H; subst; simpl; lia.
      * intros H. apply IH in H. lia.
Qed.

Lemma Scan_consumes s s' :
  Scan s = (true, s') -> List.length (reader s') < List.length (reader s).
Proof.
  unfold Scan. destruct (err s); [intros H; inversion H|].
  destruct (reader s) as [|[buf e] rest]; simpl.
  - intros H; inversion H.
  - destruct (index_newline buf 0).
    + intros H; inversion H; subst; simpl; lia.
    + destruct e as [e'|].
      * match goal with |- context [if ?b then _ else _] => destruct b end;
          intros H; inversion H; subst; simpl; lia.
      * intros H. apply Scan_loop_consumes in H. lia.
Qed.

(** The cancellation signal, as a worker sees it.  [ctx.Done()] and the
    stop channel are closed at most once and stay closed, so what the
    successive non-blocking [select]s of one worker observe is a number of
    "not yet" answers followed by "closed" for ever: [Some k] stands for
    [k] more "not yet" answers, [None] for a signal that never comes. *)
Definition signal : Type := option nat.

Definition stop_requested (c : signal) : bool * signal :=
  match c with
  | None => (false, None)
  | Some O => (true, Some O)
  | Some (S k) => (false, Some k)
  end.

Inductive loop_exit := Exhausted | Cancelled.

(** The skeleton shared by the two processing loops:
    [for scanner.Scan() { select { case <-ctx.Done(): return nil;
    case <-s.stopCh: return nil; default: }; body }]. *)
Equations scan_for {St : Type} (body : scanner -> St -> St)
  (sc : scanner) (c : signal) (st : St)
  : loop_exit * scanner * signal * St by wf (List.length (reader sc)) lt :=
scan_for body sc c st with inspect (Scan sc) := {
  | exist _ (true, sc') Hscan with stop_requested c := {
      | (true, c') := (Cancelled, sc', c', st)
      | (false, c') := scan_for body sc' c' (body sc' st) }
  | exist _ (false, sc') _ := (Exhausted, sc', c, st) }.
Next Obligation.
  apply Scan_consumes. assumption.
Qed.


(* ===================================================================== *)
(** * Package stream: the Streamer                                       *)
(* ===================================================================== *)

Import regexp.

Record LogMessage := {
  Namespace : string;
  PodName : string;
  ContainerName : string;
  Timestamp : Z;
  Message : string;
  Raw : list byte
}.

Definition setMessage (msg : LogMessage) (m : string) : LogMessage :=
  {| Namespace := Namespace msg; PodName := PodName msg;
     ContainerName := ContainerName msg; Timestamp := Timestamp msg;
     Message := m; Raw := Raw msg |}.

(** [Multiplier] is a [float64]: it is kept as the map it induces on
    durations, [d |-> time.Duration(float64(d) * Multiplier)]. *)
Record RetryPolicy := {
  MaxRetries : Z;
  InitialInterval : Z;
  MaxInterval : Z;
  Multiplier : Z -> Z
}.

(** [filter.LogFilter]; a label selector is kept as its [String()]. *)
Record LogFilter := {
  PodNameRegex : option Regexp;
  ContainerRegex : option Regexp;
  LabelSelector : option string;
  IncludeRegex : option Regexp;
  Since : option Z;
  ContainerState : string;
  Namespaces : list string
}.

(** The part of a [corev1.Pod] that is read. *)
Record Pod := {
  pod_Name : string;
  pod_Namespace : string;
  pod_Containers : list string;
  pod_Phase : string
}.

(** What the Streamer does to the outside, in the order it does it: the
    calls on the handler, on the cluster client and on the timer, and the
    goroutines it launches. *)
Inductive event :=
| OnLog (msg : LogMessage)
| OnError (err : error)
| OnEnd
| ListPods (namespace labelSelector : string)
| GetLogsStream (namespace podName containerName : string) (sinceTime : option Z)
| StreamClose
| TimeAfter (d : Z)
| go_supervisor
| go_watcher (namespace : string)
| go_follower (podName containerName namespace : string).

Section Streamer.

(** The [MultilineMatcher] interface: an object of some type [M] with one
    method, which may change the object. *)
Context {M : Type}.
Variable ShouldMerge : M -> string -> string -> bool * M.

(** [clock k] is what the [k]-th call of [time.Now] returns. *)
Variable clock : nat -> Z.

(** The struct, with two additions: [trace], the events so far (oldest
    first), stands for the handler and the client set; [ticks] counts the
    calls of [time.Now].  [active] holds the keys of the [sync.Map] (every
    value stored is [true]); [stopCh] tells whether the channel is closed;
    [stopOnce] whether the [sync.Once] has run; [wg] is the counter of the
    wait group. *)
Record Streamer := {
  filter : LogFilter;
  formatter : LogMessage -> string;
  matcher : option M;
  retryPolicy : RetryPolicy;
  maxMultilines : Z;
  active : list string;
  stopped : bool;
  stopOnce : bool;
  stopCh : bool;
  wg : Z;
  trace : list event;
  ticks : nat
}.

Record StreamerConfig := {
  KubeClientProvider : option (option error);
  Filter : option LogFilter;
  Handler : bool;
  Formatter : option (LogMessage -> string);
  Matcher : option M;
  config_RetryPolicy : RetryPolicy;
  MaxMultilines : Z
}.

Definition DefaultMaxMultilines : Z := 500.

Definition passthroughFormatter (msg : LogMessage) : string := Message msg.

(** [KubeClientProvider] is [None] for nil, and otherwise the error of
    its [GetClientset], if any; [Handler] tells whether a handler is set. *)
Definition NewStreamer (config : StreamerConfig) : error + Streamer :=
  match KubeClientProvider config with
  | None => inl (errorString "kubernetes client provider is required")
  | Some (Some e) =>
      inl (errorString
             ("failed to create kubernetes clientset: " ++ Error e)%string)
  | Some None =>
      match Filter config with
      | None => inl (errorString "log filter is required")
      | Some f =>
          if negb (Handler config)
          then inl (errorString "log handler is required")
          else
            let formatter :=
              match Formatter config with
              | Some fo => fo
              | None => passthroughFormatter
              end in
            let maxMultilines :=
              if (MaxMultilines config <=? 0)%Z then DefaultMaxMultilines
              else MaxMultilines config in
            inr {| filter := f; formatter := formatter;
                   matcher := Matcher config;
                   retryPolicy := config_RetryPolicy config;
                   maxMultilines := maxMultilines;
                   active := []; stopped := false; stopOnce := false;
                   stopCh := false; wg := 0; trace := []; ticks := 0 |}
      end
  end.

(** ** Updates of single fields *)

Definition emit (e : event) (s : Streamer) : Streamer :=
  {| filter := filter s; formatter := formatter s; matcher := matcher s;
     retryPolicy := retryPolicy s; maxMultilines := maxMultilines s;
     active := active s; stopped := stopped s; stopOnce := stopOnce s;
     stopCh := stopCh s; wg := wg s; trace := trace s ++ [e];
     ticks := ticks s |}.

Definition time_Now (s : Streamer) : Z * Streamer :=
  (clock (ticks s),
   {| filter := filter s; formatter := formatter s; matcher := matcher s;
      retryPolicy := retryPolicy s; maxMultilines := maxMultilines s;
      active := active s; stopped := stopped s; stopOnce := stopOnce s;
      stopCh := stopCh s; wg := wg s; trace := trace s;
      ticks := S (ticks s) |}).

Definition set_matcher (m : option M) (s : Streamer) : Streamer :=
  {| filter := filter s; formatter := formatter s; matcher := m;
     retryPolicy := retryPolicy s; maxMultilines := maxMultilines s;
     active := active s; stopped := stopped s; stopOnce := stopOnce s;
     stopCh := stopCh s; wg := wg s; trace := trace s; ticks := ticks s |}.

Definition set_active (a : list string) (s : Streamer) : Streamer :=
  {| filter := filter s; formatter := formatter s; matcher := matcher s;
     retryPolicy := retryPolicy s; maxMultilines := maxMultilines s;
     active := a; stopped := stopped s; stopOnce := stopOnce s;
     stopCh := stopCh s; wg := wg s; trace := trace s; ticks := ticks s |}.

Definition set_wg (n : Z) (s : Streamer) : Streamer :=
  {| filter := filter s; formatter := formatter s; matcher := matcher s;
     retryPolicy := retryPolicy s; maxMultilines := maxMultilines s;
     active := active s; stopped := stopped s; stopOnce := stopOnce s;
     stopCh := stopCh s; wg := n; trace := trace s; ticks := ticks s |}.

(** [s.active.Store(name, true)], [s.active.Delete(name)] and the second
    result of [s.active.Load(name)]. *)
Definition active_Load (name : string) (s : Streamer) : bool :=
  existsb (String.eqb name) (active s).

Definition active_Store (name : string) (s : Streamer) : Streamer :=
  if active_Load name s then s else set_active (name :: active s) s.

Definition active_Delete (name : string) (s : Streamer) : Streamer :=
  set_active (List.filter (fun k => negb (String.eqb name k)) (active s)) s.

Definition isPermError (err : option error) : bool := false.

(** [s.filter.IncludeRegex != nil && !s.filter.IncludeRegex.MatchString(x)] *)
Definition excluded (s : Streamer) (x : string) : bool :=
  match IncludeRegex (filter s) with
  | Some re => negb (MatchString re x)
  | None => false
  end.

(** ** processLogStream and processMultilineLogStream *)

(** What happens after either loop, on [scanner.Err()]. *)
Definition after_scan (sc : scanner) (podName : string) (s : Streamer)
  : option error * Streamer :=
  match Err sc with
  | Some err =>
      if IsPodDeletedError (Some err)
      then (None, active_Delete podName s)
      else if isPermError (Some err)
      then (Some (NewLogStreamError err true "log stream read error"), s)
      else (Some (NewLogStreamError err false "log stream read error"), s)
  | None => (None, s)
  end.

(** The body of the loop of the single-line path. *)
Definition single_line (podName containerName namespace : string)
  (sc : scanner) (s : Streamer) : Streamer :=
  let line := Text sc in
  if excluded s line then s
  else
    let '(timestamp, s) := time_Now s in
    let msg := {| Namespace := namespace; PodName := podName;
                  ContainerName := containerName; Timestamp := timestamp;
                  Message := line; Raw := Bytes sc |} in
    let msg := setMessage msg (formatter s msg) in
    emit (OnLog msg) s.

(** The variables that [flush] closes over. *)
Record pending := {
  buffer : list string;
  rawBuffer : list (list byte);
  lastLine : string
}.

Definition no_pending : pending :=
  {| buffer := []; rawBuffer := []; lastLine := "" |}.

Definition reset (p : pending) : pending :=
  {| buffer := []; rawBuffer := []; lastLine := lastLine p |}.

Definition append_line (p : pending) (line : string) (raw : list byte)
  : pending :=
  {| buffer := buffer p ++ [line]; rawBuffer := rawBuffer p ++ [raw];
     lastLine := line |}.

(** [message := buffer[0]; for i := 1; i < len(buffer); i++
    { message += "\n" + buffer[i] }] *)
Definition join_buffer (first : string) (others : list string) : string :=
  fold_left (fun message b => (message ++ (String "010" "" ++ b))%string)
    others first.

(** [for i, raw := range rawBuffer { if i > 0 { rawBytes = append(rawBytes,
    '\n') }; rawBytes = append(rawBytes, raw...) }] *)
Definition join_raw (rawBuffer : list (list byte)) : list byte :=
  snd (fold_left
         (fun '(i, rawBytes) raw =>
            (S i, (if Nat.ltb 0 i then rawBytes ++ [newline] else rawBytes)
                  ++ raw))
         rawBuffer (O, [])).

Definition flush (podName containerName namespace : string)
  (p : pending) (s : Streamer) : pending * Streamer :=
  match buffer p with
  | [] => (p, s)
  | first :: others =>
      let message := join_buffer first others in
      if excluded s message then (reset p, s)
      else
        let '(timestamp, s) := time_Now s in
        let rawBytes := join_raw (rawBuffer p) in
        let msg := {| Namespace := namespace; PodName := podName;
                      ContainerName := containerName; Timestamp := timestamp;
                      Message := message; Raw := rawBytes |} in
        let msg := setMessage msg (formatter s msg) in
        let s := emit (OnLog msg) s in
        (reset p, s)
  end.

(** [s.matcher.ShouldMerge(previous, next)].  The method is only called
    from the multi-line path, which is entered with a matcher set. *)
Definition matcher_ShouldMerge (previous next : string) (s : Streamer)
  : bool * Streamer :=
  match matcher s with
  | Some m =>
      let '(merge, m') := ShouldMerge m previous next in
      (merge, set_matcher (Some m') s)
  | None => (false, s)
  end.

(** The body of the loop of the multi-line path. *)
Definition multi_line (podName containerName namespace : string)
  (sc : scanner) (st : pending * Streamer) : pending * Streamer :=
  let '(p, s) := st in
  let line := Text sc in
  if Nat.eqb (List.length (buffer p)) 0
  then (append_line p line (Bytes sc), s)
  else
    let '(merge, s) := matcher_ShouldMerge (lastLine p) line s in
    if merge
    then
      let p := append_line p line (Bytes sc) in
      if (Z.of_nat (List.length (buffer p)) >=? maxMultilines s)%Z
      then flush podName containerName namespace p s
      else (p, s)
    else
      let '(p, s) := flush podName containerName namespace p s in
      (append_line p line (Bytes sc), s).

Definition processMultilineLogStream (stream : Reader)
  (podName containerName namespace : string) (ctx : signal) (s : Streamer)
  : option error * signal * Streamer :=
  let scanner := NewScanner stream in
  match scan_for (multi_line podName containerName namespace)
          scanner ctx (no_pending, s) with
  | (Cancelled, _, ctx, (_, s)) => (None, ctx, s)
  | (Exhausted, scanner, ctx, (p, s)) =>
      let '(_, s) := flush podName containerName namespace p s in
      let '(err, s) := after_scan scanner podName s in
      (err, ctx, s)
  end.

Definition processLogStream (stream : Reader)
  (podName containerName namespace : string) (ctx : signal) (s : Streamer)
  : option error * signal * Streamer :=
  match matcher s with
  | Some _ =>
      processMultilineLogStream stream podName containerName namespace ctx s
  | None =>
      let scanner := NewScanner stream in
      match scan_for (single_line podName containerName namespace)
              scanner ctx s with
      | (Cancelled, _, ctx, s) => (None, ctx, s)
      | (Exhausted, scanner, ctx, s) =>
          let '(err, s) := after_scan scanner podName s in
          (err, ctx, s)
      end
  end.

(** ** The container follower: the goroutine of startPodLogStreamer *)

(** [retry] and [backoff], the variables of the retry loop. *)
Record retry_vars := { retry : Z; backoff : Z }.

Inductive turn := Returned | Continue.

(** [select { case <-time.After(backoff): ...; case <-ctx.Done(): return;
    case <-s.stopCh: return }] *)
Definition sleep_backoff (v : retry_vars) (ctx : signal) (s : Streamer)
  : turn * retry_vars * signal * Streamer :=
  let '(stop, ctx) := stop_requested ctx in
  if stop then (Returned, v, ctx, s)
  else
    let s := emit (TimeAfter (backoff v)) s in
    let b := Multiplier (retryPolicy s) (backoff v) in
    let b := if (b >? MaxInterval (retryPolicy s))%Z
             then MaxInterval (retryPolicy s) else b in
    (Continue, {| retry := retry v; backoff := b |}, ctx, s).

(** What [req.Stream(ctx)] returns: an error or a stream. *)
Definition OpenResult : Type := error + Reader.

(** One turn of the loop of the follower, given what opening the stream
    returns in this turn. *)
Definition follower_turn (open : OpenResult)
  (podName containerName namespace : string)
  (v : retry_vars) (ctx : signal) (s : Streamer)
  : turn * retry_vars * signal * Streamer :=
  let '(stop, ctx) := stop_requested ctx in
  if stop then (Returned, v, ctx, s)
  else
    let s := emit (GetLogsStream namespace podName containerName
                     (Since (filter s))) s in
    match open with
    | inl err =>
        if isPermError (Some err)
        then
          (Returned, v, ctx,
           emit (OnError (NewLogStreamError err true
                   ("failed to stream logs for pod " ++ podName
                    ++ " container " ++ containerName)%string)) s)
        else
          let s :=
            emit (OnError (NewLogStreamError err false
                    ("failed to stream logs for pod " ++ podName
                     ++ " container " ++ containerName)%string)) s in
          let v := {| retry := Go.int_wrap (retry v + 1);
                      backoff := backoff v |} in
          if (retry v >? MaxRetries (retryPolicy s))%Z
          then
            (Returned, v, ctx,
             emit (OnError (NewLogStreamError
                     (errorString "exceeded maximum retries") true
                     ("log stream retries exceeded for pod " ++ podName
                      ++ " container " ++ containerName)%string)) s)
          else sleep_backoff v ctx s
    | inr stream =>
        let v := {| retry := 0;
                    backoff := InitialInterval (retryPolicy s) |} in
        let '(err, ctx, s) :=
          processLogStream stream podName containerName namespace ctx s in
        let s := emit StreamClose s in
        let '(stop, ctx) := stop_requested ctx in
        if stop then (Returned, v, ctx, s)
        else
          match err with
          | Some (LogStreamError _ true _ as lse) =>
              (Returned, v, ctx, emit (OnError lse) s)
          | Some err =>
              let s := emit (OnError err) s in
              sleep_backoff v ctx s
          | None => (Continue, v, ctx, s)
          end
    end.

(** The follower, run against the answers of the cluster client to its
    successive attempts to open the stream.  It is [Returned] when the
    goroutine has ended; [Continue] when the answers are used up and the
    goroutine is about to open the stream once more. *)
Fixpoint follower_loop (opens : list OpenResult)
  (podName containerName namespace : string)
  (v : retry_vars) (ctx : signal) (s : Streamer)
  : turn * retry_vars * signal * Streamer :=
  match opens with
  | [] => (Continue, v, ctx, s)
  | open :: opens' =>
      match follower_turn open podName containerName namespace v ctx s with
      | (Returned, v, ctx, s) => (Returned, v, ctx, s)
      | (Continue, v, ctx, s) =>
          follower_loop opens' podName containerName namespace v ctx s
      end
  end.

Definition follower (opens : list OpenResult)
  (podName containerName namespace : string) (ctx : signal) (s : Streamer)
  : turn * retry_vars * signal * Streamer :=
  let v := {| retry := 0; backoff := InitialInterval (retryPolicy s) |} in
  match follower_loop opens podName containerName namespace v ctx s with
  | (Returned, v, ctx, s) => (Returned, v, ctx, set_wg (wg s - 1) s)
  | r => r
  end.

(** ** Start and Stop *)

Definition shouldStreamPod (s : Streamer) (pod : Pod) : bool :=
  match PodNameRegex (filter s) with
  | Some re => if negb (MatchString re (pod_Name pod)) then false else true
  | None => true
  end.

(** The loop over the containers of a pod: one goroutine for each
    container that the container regex lets through. *)
Fixpoint launch_followers (pod : Pod) (containers : list string)
  (s : Streamer) : Streamer :=
  match containers with
  | [] => s
  | container :: rest =>
      match ContainerRegex (filter s) with
      | Some re =>
          if negb (MatchString re container)
          then launch_followers pod rest s
          else
            launch_followers pod rest
              (emit (go_follower (pod_Name pod) container (pod_Namespace pod))
                 (set_wg (wg s + 1) s))
      | None =>
          launch_followers pod rest
            (emit (go_follower (pod_Name pod) container (pod_Namespace pod))
               (set_wg (wg s + 1) s))
      end
  end.

Definition startPodLogStreamer (pod : Pod) (s : Streamer) : Streamer :=
  let s := active_Store (pod_Name pod) s in
  launch_followers pod (pod_Containers pod) s.

(** ** The pod watcher: the goroutine of startPodWatcher *)

(** A [watch.Event]: its type and, when its object is a [*corev1.Pod],
    that pod. *)
Record WatchEvent := {
  event_Type : string;
  event_Object : option Pod
}.

(** [switch event.Type { case "ADDED", "MODIFIED": ...; case "DELETED":
    ... }] *)
Definition handle_event (ev : WatchEvent) (s : Streamer) : Streamer :=
  if String.eqb (event_Type ev) "ADDED"
     || String.eqb (event_Type ev) "MODIFIED"
  then
    match event_Object ev with
    | Some pod =>
        let s :=
          if shouldStreamPod s pod
          then
            if negb (active_Load (pod_Name pod) s)
            then startPodLogStreamer pod s
            else s
          else s in
        if String.eqb (pod_Phase pod) "Succeeded"
           || String.eqb (pod_Phase pod) "Failed"
        then active_Delete (pod_Name pod) s
        else s
    | None => s
    end
  else if String.eqb (event_Type ev) "DELETED"
  then
    match event_Object ev with
    | Some pod => active_Delete (pod_Name pod) s
    | None => s
    end
  else s.

(** [for event := range watcher.ResultChan() { select { case
    <-ctx.Done(): watcher.Stop(); return; case <-s.stopCh: watcher.Stop();
    return; default: }; ... }], for a channel that is closed after
    [events]. *)
Fixpoint watch_events (events : list WatchEvent) (ctx : signal)
  (s : Streamer) : turn * signal * Streamer :=
  match events with
  | [] => (Continue, ctx, s)
  | ev :: rest =>
      let '(stop, ctx) := stop_requested ctx in
      if stop then (Returned, ctx, s)
      else watch_events rest ctx (handle_event ev s)
  end.

(** What [Pods(ns).Watch] returns: an error, or a watcher, known by the
    events of its channel.  The calls of [Watch] and of [watcher.Stop] are
    not recorded in the trace. *)
Definition WatchResult : Type := error + list WatchEvent.

(** One turn of the loop of the watcher, given what [Watch] returns in
    this turn. *)
Definition watcher_turn (watch : WatchResult) (v : retry_vars)
  (ctx : signal) (s : Streamer) : turn * retry_vars * signal * Streamer :=
  let '(stop, ctx) := stop_requested ctx in
  if stop then (Returned, v, ctx, s)
  else
    match watch with
    | inl err =>
        if isPermError (Some err)
        then
          (Returned, v, ctx,
           emit (OnError (NewLogStreamError err true
                   "failed to watch pods")) s)
        else
          let s := emit (OnError (NewLogStreamError err false
                           "failed to watch pods")) s in
          let v := {| retry := Go.int_wrap (retry v + 1);
                      backoff := backoff v |} in
          if (retry v >? MaxRetries (retryPolicy s))%Z
          then
            (Returned, v, ctx,
             emit (OnError (NewLogStreamError
                     (errorString "exceeded maximum retries") true
                     "pod watch retries exceeded")) s)
          else sleep_backoff v ctx s
    | inr events =>
        let v := {| retry := 0;
                    backoff := InitialInterval (retryPolicy s) |} in
        let '(t, ctx, s) := watch_events events ctx s in
        (t, v, ctx, s)
    end.

(** The watcher, run against the answers of the cluster client to its
    successive calls of [Watch]; [Returned] and [Continue] are as for the
    follower. *)
Fixpoint watcher_loop (watches : list WatchResult) (v : retry_vars)
  (ctx : signal) (s : Streamer) : turn * retry_vars * signal * Streamer :=
  match watches with
  | [] => (Continue, v, ctx, s)
  | watch :: watches' =>
      match watcher_turn watch v ctx s with
      | (Returned, v, ctx, s) => (Returned, v, ctx, s)
      | (Continue, v, ctx, s) => watcher_loop watches' v ctx s
      end
  end.

Definition watcher (watches : list WatchResult) (ctx : signal)
  (s : Streamer) : turn * retry_vars * signal * Streamer :=
  let v := {| retry := 0; backoff := InitialInterval (retryPolicy s) |} in
  match watcher_loop watches v ctx s with
  | (Returned, v, ctx, s) => (Returned, v, ctx, set_wg (wg s - 1) s)
  | r => r
  end.

(** What [Pods(namespace).List] returns for a namespace and a selector. *)
Definition Lister : Type := string -> string -> error + list Pod.

Fixpoint watch_namespaces (list_pods : Lister) (namespaces : list string)
  (s : Streamer) : option error * Streamer :=
  match namespaces with
  | [] => (None, s)
  | namespace :: rest =>
      let labelSelector :=
        match LabelSelector (filter s) with
        | Some sel => sel
        | None => ""
        end in
      let s := emit (ListPods namespace labelSelector) s in
      match list_pods namespace labelSelector with
      | inl err => (Some (NewLogStreamError err true "failed to list pods"), s)
      | inr pods =>
          let s :=
            fold_left
              (fun s pod =>
                 if shouldStreamPod s pod then startPodLogStreamer pod s
                 else s)
              pods s in
          let s := emit (go_watcher namespace) (set_wg (wg s + 1) s) in
          watch_namespaces list_pods rest s
      end
  end.

Definition startPodWatcher (list_pods : Lister) (s : Streamer)
  : option error * Streamer :=
  watch_namespaces list_pods (Namespaces (filter s)) s.

Definition Start (list_pods : Lister) (s : Streamer)
  : option error * Streamer :=
  if stopped s
  then (Some (NewLogStreamError (errorString "streamer is stopped") true
                "streamer stopped"), s)
  else
    let s := emit go_supervisor s in
    startPodWatcher list_pods s.

(** [s.stopOnce.Do(func() { s.stopped = true; close(s.stopCh);
    s.wg.Wait(); s.handler.OnEnd() })].  [wg.Wait()] returns when every
    watcher and follower has ended, that is with the counter at zero. *)
Definition Stop (s : Streamer) : Streamer :=
  if stopOnce s then s
  else
    emit OnEnd
      {| filter := filter s; formatter := formatter s; matcher := matcher s;
         retryPolicy := retryPolicy s; maxMultilines := maxMultilines s;
         active := active s; stopped := true; stopOnce := true;
         stopCh := true; wg := 0; trace := trace s; ticks := ticks s |}.

End Streamer.

End stream.

(* ===================================================================== *)
(** * Package internal/filter: the filter and its builder                *)
(* ===================================================================== *)

(** The struct [LogFilter] of this package is the record [LogFilter] of
    [stream] above.  Instants and durations are integers (nanoseconds);
    [*regexp.Regexp] and [*time.Time] are options. *)
Module filterpkg.
Import errors regexp stream.

Definition DefaultContainerState : string := "all".

Definition ErrInvalidSinceTime : error :=
  errorString "since time cannot be in the future".

Definition ErrInvalidContainerState : error :=
  errorString
    "invalid container state, must be 'all', 'running', or 'terminated'".

Definition ErrEmptyFilter : error :=
  errorString "at least one filter criteria must be specified".

Definition ErrNoNamespaceSpecified : error :=
  errorString "no namespace specified".

Definition NewLogFilter : LogFilter :=
  {| PodNameRegex := None; ContainerRegex := None; LabelSelector := None;
     IncludeRegex := None; Since := None;
     ContainerState := DefaultContainerState; Namespaces := [] |}.

Definition is_nil {A : Type} (x : option A) : bool :=
  match x with None => true | Some _ => false end.

Definition IsEmpty (f : LogFilter) : bool :=
  is_nil (PodNameRegex f)
  && is_nil (ContainerRegex f)
  && is_nil (LabelSelector f)
  && is_nil (IncludeRegex f)
  && is_nil (Since f)
  && (String.eqb (ContainerState f) DefaultContainerState
      || String.eqb (ContainerState f) "")
  && Nat.eqb (List.length (Namespaces f)) 0.

(** [now] is what [time.Now()] returns when [Validate] calls it. *)
Definition Validate (now : Z) (f : LogFilter) : option error :=
  if IsEmpty f then Some ErrEmptyFilter
  else if Nat.eqb (List.length (Namespaces f)) 0
  then Some ErrNoNamespaceSpecified
  else if negb (String.eqb (ContainerState f) "")
          && negb (String.eqb (ContainerState f) "all")
          && negb (String.eqb (ContainerState f) "running")
          && negb (String.eqb (ContainerState f) "terminated")
  then Some ErrInvalidContainerState
  else
    match Since f with
    | Some t => if (t >? now)%Z then Some ErrInvalidSinceTime else None
    | None => None
    end.

Section Builder.

(** [regexp.Compile], with [None] for an error, and the [String()] of
    [labels.SelectorFromSet(labels.Set{key: value})]. *)
Variable Compile : string -> option Regexp.
Variable SelectorFromSet : string -> string -> string.

(** A [*LogFilterBuilder] is known by the filter it points to; a method
    returns the builder after the call. *)
Definition LogFilterBuilder : Type := LogFilter.

Definition NewLogFilterBuilder : LogFilterBuilder := NewLogFilter.

Definition PodRegex (pattern : string) (b : LogFilterBuilder)
  : LogFilterBuilder :=
  if negb (String.eqb pattern "")
  then
    match Compile pattern with
    | Some regex =>
        {| PodNameRegex := Some regex; ContainerRegex := ContainerRegex b;
           LabelSelector := LabelSelector b; IncludeRegex := IncludeRegex b;
           Since := Since b; ContainerState := ContainerState b;
           Namespaces := Namespaces b |}
    | None => b
    end
  else b.

Definition ContainerRegex_ (pattern : string) (b : LogFilterBuilder)
  : LogFilterBuilder :=
  if negb (String.eqb pattern "")
  then
    match Compile pattern with
    | Some regex =>
        {| PodNameRegex := PodNameRegex b; ContainerRegex := Some regex;
           LabelSelector := LabelSelector b; IncludeRegex := IncludeRegex b;
           Since := Since b; ContainerState := ContainerState b;
           Namespaces := Namespaces b |}
    | None => b
    end
  else b.

Definition Label (key value : string) (b : LogFilterBuilder)
  : LogFilterBuilder :=
  if negb (String.eqb key "")
  then
    {| PodNameRegex := PodNameRegex b; ContainerRegex := ContainerRegex b;
       LabelSelector := Some (SelectorFromSet key value);
       IncludeRegex := IncludeRegex b; Since := Since b;
       ContainerState := ContainerState b; Namespaces := Namespaces b |}
  else b.

Definition Include (pattern : string) (b : LogFilterBuilder)
  : LogFilterBuilder :=
  if negb (String.eqb pattern "")
  then
    match Compile pattern with
    | Some regex =>
        {| PodNameRegex := PodNameRegex b; ContainerRegex := ContainerRegex b;
           LabelSelector := LabelSelector b; IncludeRegex := Some regex;
           Since := Since b; ContainerState := ContainerState b;
           Namespaces := Namespaces b |}
    | None => b
    end
  else b.

(** [now] is what [time.Now()] returns in this call. *)
Definition Since_ (now : Z) (duration : Z) (b : LogFilterBuilder)
  : LogFilterBuilder :=
  if (duration >=? 0)%Z
  then
    let tm := (now + - duration)%Z in
    {| PodNameRegex := PodNameRegex b; ContainerRegex := ContainerRegex b;
       LabelSelector := LabelSelector b; IncludeRegex := IncludeRegex b;
       Since := Some tm; ContainerState := ContainerState b;
       Namespaces := Namespaces b |}
  else b.

Definition ContainerState_ (state : string) (b : LogFilterBuilder)
  : LogFilterBuilder :=
  if negb (String.eqb state "")
  then
    {| PodNameRegex := PodNameRegex b; ContainerRegex := ContainerRegex b;
       LabelSelector := LabelSelector b; IncludeRegex := IncludeRegex b;
       Since := Since b; ContainerState := state;
       Namespaces := Namespaces b |}
  else b.

Definition Namespace_ (namespace : string) (b : LogFilterBuilder)
  : LogFilterBuilder :=
  if negb (String.eqb namespace "")
  then
    {| PodNameRegex := PodNameRegex b; ContainerRegex := ContainerRegex b;
       LabelSelector := LabelSelector b; IncludeRegex := IncludeRegex b;
       Since := Since b; ContainerState := ContainerState b;
       Namespaces := Namespaces b ++ [namespace] |}
  else b.

Definition Build (now : Z) (b : LogFilterBuilder) : error + LogFilter :=
  match Validate now b with
  | Some err => inl err
  | None => inr b
  end.

End Builder.

End filterpkg.

(* ===================================================================== *)
(** * The vocabulary of the properties                                   *)
(* ===================================================================== *)

Import errors regexp stream.

(** ** Lines and records *)

(** The states of the scanner after each of its successful [Scan]s, when
    no cancellation interrupts the loop; their tokens are the lines that
    the scanner yields from a stream. *)
Definition scan_states (sc : scanner) : list scanner :=
  snd (scan_for (fun sc' acc => acc ++ [sc']) sc None []).

Definition scanned_lines (stream : Reader) : list (list byte) :=
  map token (scan_states (NewScanner stream)).

Definition scan_end (sc : scanner) : scanner :=
  snd (fst (fst (scan_for (fun _ (u : unit) => u) sc None tt))).

(** The lines of a byte source in the words of the specification: the
    maximal newline-free pieces, each newline closing one, and a last
    unterminated piece when it is not empty. *)
Fixpoint split_lines (cur src : list byte) : list (list byte) :=
  match src with
  | [] => match cur with [] => [] | _ => [cur] end
  | b :: rest =>
      if Byte.eqb b newline then cur :: split_lines [] rest
      else split_lines (cur ++ [b]) rest
  end.

Definition source_lines (src : list byte) : list (list byte) :=
  split_lines [] src.

(** All the bytes that the reads of a reader return. *)
Definition source_bytes (r : Reader) : list byte := flat_map fst r.

Section Records.

Context {M : Type}.
Variable ShouldMerge : M -> string -> string -> bool * M.
Variable clock : nat -> Z.
Variables podName containerName namespace : string.

(** A record in the words of the specification: the lines of a run joined
    by newlines, as text and as raw bytes. *)
Definition joined_text (run : list (list byte)) : string :=
  String.concat (String "010" "") (map string_of_list_byte run).

Definition joined_raw (run : list (list byte)) : list byte :=
  match run with
  | [] => []
  | raw :: rest => raw ++ flat_map (fun r => newline :: r) rest
  end.

Definition record_of (format : LogMessage -> string) (timestamp : Z)
  (run : list (list byte)) : LogMessage :=
  let msg := {| Namespace := namespace; PodName := podName;
                ContainerName := containerName; Timestamp := timestamp;
                Message := joined_text run; Raw := joined_raw run |} in
  setMessage msg (format msg).

(** A run is delivered when the include regex, if any, matches its text. *)
Definition included (f : LogFilter) (run : list (list byte)) : bool :=
  match IncludeRegex f with
  | Some re => MatchString re (joined_text run)
  | None => true
  end.

Definition deliver (s : @Streamer M) (run : list (list byte)) : Streamer :=
  if included (filter s) run
  then emit (OnLog (record_of (formatter s) (clock (ticks s)) run))
         (snd (time_Now clock s))
  else s.

(** The records of the runs that are delivered, stamped with successive
    readings of the clock. *)
Fixpoint records (format : LogMessage -> string) (k : nat)
  (runs : list (list (list byte))) : list LogMessage :=
  match runs with
  | [] => []
  | run :: rest => record_of format (clock k) run :: records format (S k) rest
  end.

(** The Reassembler in the words of the specification (section 4.4): the
    runs that are flushed, given the pending run [cur] and the last line.
    An empty pending run takes the line; otherwise the predicate is
    consulted: on true the line is appended, and a run that has reached
    [max] lines is flushed; on false the pending run is flushed and the
    line starts a new one; at the end a non-empty run is flushed. *)
Fixpoint reassemble (max : Z) (m : M) (cur : list (list byte))
  (last : string) (lines : list (list byte)) : list (list (list byte)) :=
  match lines with
  | [] => match cur with [] => [] | _ => [cur] end
  | l :: rest =>
      match cur with
      | [] => reassemble max m [l] (string_of_list_byte l) rest
      | _ =>
          let '(merge, m') := ShouldMerge m last (string_of_list_byte l) in
          if merge
          then
            if (Z.of_nat (List.length (cur ++ [l])) >=? max)%Z
            then (cur ++ [l])
                 :: reassemble max m' [] (string_of_list_byte l) rest
            else reassemble max m' (cur ++ [l]) (string_of_list_byte l) rest
          else cur :: reassemble max m' [l] (string_of_list_byte l) rest
      end
  end.

End Records.

(** ** Traces and calls *)

(** Counts over a trace: attempts to open a stream, errors reported as
    permanent, and back-off sleeps. *)
Definition is_open (e : event) : bool :=
  match e with GetLogsStream _ _ _ _ => true | _ => false end.

Definition is_permanent_error (e : event) : bool :=
  match e with OnError (LogStreamError _ true _) => true | _ => false end.

Definition is_error (e : event) : bool :=
  match e with OnError _ => true | _ => false end.

Definition is_sleep (e : event) : bool :=
  match e with TimeAfter _ => true | _ => false end.

Definition count (f : event -> bool) (t : list event) : nat :=
  List.length (List.filter f t).

Definition is_OnEnd (e : event) : bool :=
  match e with OnEnd => true | _ => false end.

(** What is done with a Streamer: calls of [Start] (with what the
    cluster answers to the listings), calls of [Stop], and the running of
    a follower goroutine against a cluster, from its launch to the point
    where it ends or its script is used up. *)
Inductive call :=
| call_Start (list_pods : Lister)
| call_Stop
| run_follower (opens : list OpenResult)
    (podName containerName namespace : string) (ctx : signal).

Definition is_Stop (c : call) : bool :=
  match c with call_Stop => true | _ => false end.

Section Calls.

Context {M : Type}.
Variable ShouldMerge : M -> string -> string -> bool * M.
Variable clock : nat -> Z.

Definition do_call (c : call) (s : @Streamer M) : Streamer :=
  match c with
  | call_Start list_pods => snd (Start list_pods s)
  | call_Stop => Stop s
  | run_follower opens podName containerName namespace ctx =>
      snd (follower ShouldMerge clock opens podName containerName namespace
             ctx s)
  end.

Definition do_calls (cs : list call) (s : @Streamer M) : Streamer :=
  fold_left (fun s c => do_call c s) cs s.

(** [quiet s s']: from [s] to [s'] the gate of [Stop] and the flag that
    [Start] reads are untouched and no [OnEnd] has been added. *)
Definition quiet (s s' : @Streamer M) : Prop :=
  stopped s' = stopped s
  /\ stopOnce s' = stopOnce s
  /\ count is_OnEnd (trace s') = count is_OnEnd (trace s).

(** The state of a Streamer as calls leave it: [stopOnce] and [stopped]
    agree, and [OnEnd] has been called once if the gate of [Stop] is shut
    and never otherwise. *)
Definition gate_ok (s : @Streamer M) : Prop :=
  stopped s = stopOnce s
  /\ count is_OnEnd (trace s) = (if stopOnce s then 1 else 0).

End Calls.

(** ** Strings and merge predicates *)

Definition starts_with (s prefix : string) : Prop :=
  exists rest, s = (prefix ++ rest)%string.

Definition ends_with (s suffix : string) : Prop :=
  exists front, s = (front ++ suffix)%string.

(** Every byte of [s] is one of [cs]. *)
Definition all_in (cs : list ascii) (s : string) : Prop :=
  Forall (fun c => In c cs) (list_ascii_of_string s).

Definition concat_runes (runes : list string) : string :=
  fold_right String.append "" runes.

(** A string is white space only when it is a sequence of white-space
    runes, the empty sequence included. *)
Definition whitespace_only (s : string) : Prop :=
  exists runes,
    Forall (fun r => In r Go.spaceRunes) runes /\ s = concat_runes runes.

Fixpoint spaces (n : nat) : string :=
  match n with
  | O => ""
  | S n' => String " " (spaces n')
  end.

(** The condition of the specification: [next] is not white space only,
    and it starts with a tab, or with any number of spaces and then "at ",
    or with "Caused by:", or the trimmed [previous] ends with a backslash. *)
Definition merge_as_specified (previous next : string) : Prop :=
  ~ whitespace_only next
  /\ (starts_with next (String (Go.byte_of 9) "")
      \/ (exists n, starts_with next (spaces n ++ "at "))
      \/ starts_with next "Caused by:"
      \/ ends_with (Go.TrimSpace previous) "\").

(** The condition of the code: as above, but "at " must come after at
    least one character of [\s]: tab, newline, form feed, carriage return
    or space. *)
Definition merge_as_coded (previous next : string) : Prop :=
  ~ whitespace_only next
  /\ (starts_with next (String (Go.byte_of 9) "")
      \/ (exists ws, ws <> "" /\ all_in perl_space ws
                     /\ starts_with next (ws ++ "at "))
      \/ starts_with next "Caused by:"
      \/ ends_with (Go.TrimSpace previous) "\").

(** The matcher after a history of calls, each a pair (previous, next). *)
Definition calls_after {M : Type}
  (ShouldMerge : M -> string -> string -> bool * M)
  (history : list (string * string)) (m : M) : M :=
  fold_left (fun m call => snd (ShouldMerge m (fst call) (snd call)))
    history m.

(** A predicate is pure on an instance when the result of a call does not
    depend on the calls made before. *)
Definition pure_predicate {M : Type}
  (ShouldMerge : M -> string -> string -> bool * M) (m : M) : Prop :=
  forall history1 history2 previous next,
    fst (ShouldMerge (calls_after ShouldMerge history1 m) previous next)
    = fst (ShouldMerge (calls_after ShouldMerge history2 m) previous next).

(* ===================================================================== *)
(** * Concrete streamers and streams                                     *)
(* ===================================================================== *)

Module Example.

Definition always_merge (m : unit) (previous next : string) : bool * unit :=
  (true, m).

Definition never_merge (m : unit) (previous next : string) : bool * unit :=
  (false, m).

Definition clock (k : nat) : Z := Z.of_nat k.

Definition filter0 : LogFilter :=
  {| PodNameRegex := None; ContainerRegex := None; LabelSelector := None;
     IncludeRegex := None; Since := None; ContainerState := "all";
     Namespaces := ["default"] |}.

Definition policy (maxRetries : Z) : RetryPolicy :=
  {| MaxRetries := maxRetries; InitialInterval := 1000;
     MaxInterval := 30000; Multiplier := fun d => (2 * d)%Z |}.

Definition config {M : Type} (matcher : option M) (maxMultilines : Z)
  (maxRetries : Z) : @StreamerConfig M :=
  {| KubeClientProvider := Some None; Filter := Some filter0;
     Handler := true; Formatter := None; Matcher := matcher;
     config_RetryPolicy := policy maxRetries;
     MaxMultilines := maxMultilines |}.

(** The streamer that [NewStreamer] builds from [config]. *)
Definition streamer {M : Type} (matcher : option M) (maxMultilines : Z)
  (maxRetries : Z) : @Streamer M :=
  {| filter := filter0; formatter := passthroughFormatter;
     matcher := matcher; retryPolicy := policy maxRetries;
     maxMultilines := if (maxMultilines <=? 0)%Z then DefaultMaxMultilines
                      else maxMultilines;
     active := []; stopped := false; stopOnce := false; stopCh := false;
     wg := 0; trace := []; ticks := 0 |}.

(** A read that returns one line and its newline. *)
Definition line (text : string) : ReadResult :=
  (list_byte_of_string text ++ [newline], None).

(** The messages of the records in a trace. *)
Definition messages (t : list event) : list string :=
  flat_map (fun e => match e with OnLog msg => [Message msg] | _ => [] end) t.

Definition no_pods : Lister := fun _ _ => inr [].

Definition nl : string := String "010" "".

(** Two reads, one line each. *)
Definition two_lines : Reader := [line "a"; line "b"].

(** One read that returns three lines at once. *)
Definition three_lines_at_once : Reader :=
  [(list_byte_of_string ("a" ++ nl ++ "b" ++ nl ++ "c" ++ nl)%string, None)].

(** Three reads that cut two lines in the middle: "ab", "c" and the
    newline, "d". *)
Definition cut_reads : Reader :=
  [ (list_byte_of_string "ab", None);
    (list_byte_of_string "c" ++ [newline], None);
    (list_byte_of_string "d", None) ].

(** A pod with two containers. *)
Definition pod (name namespace phase : string) : Pod :=
  {| pod_Name := name; pod_Namespace := namespace;
     pod_Containers := ["app"; "sidecar"]; pod_Phase := phase |}.

(** A filter whose include regex is the literal [text], found anywhere,
    and the streamer of [streamer] with that filter. *)
Definition filter_including (text : string) : LogFilter :=
  {| PodNameRegex := None; ContainerRegex := None; LabelSelector := None;
     IncludeRegex :=
       Some (MustCompile {| anchorStart := false; items := lits text;
                            anchorEnd := false |});
     Since := None; ContainerState := "all"; Namespaces := ["default"] |}.

Definition streamer_including {M : Type} (text : string)
  (matcher : option M) (maxMultilines : Z) : @Streamer M :=
  {| filter := filter_including text; formatter := passthroughFormatter;
     matcher := matcher; retryPolicy := policy 0;
     maxMultilines := if (maxMultilines <=? 0)%Z then DefaultMaxMultilines
                      else maxMultilines;
     active := []; stopped := false; stopOnce := false; stopCh := false;
     wg := 0; trace := []; ticks := 0 |}.

(** Four reads, one line each. *)
Definition four_lines : Reader := [line "a"; line "b"; line "c"; line "d"].

(** An object on three lines, and a line after it. *)
Definition object_reads : Reader :=
  [line "{"; line " x: {}"; line "}"; line "done"].

(** A stack trace on three lines, and a line after it. *)
Definition trace_reads : Reader :=
  [line "java.lang.IllegalStateException: boom";
   line (String (Go.byte_of 9) "at a.B.c(B.java:1)");
   line "Caused by: java.io.IOException";
   line "INFO next"].

(** A line, then a read that returns some bytes and fails. *)
Definition failing_reads : Reader :=
  [ line "a";
    (list_byte_of_string "part", Some (errorString "connection reset")) ].

End Example.

(** ** Readers *)

(** Every [Read] of the reader succeeds, and a newline is only ever the
    last byte that a [Read] returns. *)
Definition newlines_end_reads (r : Reader) : Prop :=
  Forall (fun res : ReadResult =>
            snd res = None /\ ~ In newline (removelast (fst res))) r.

(** ** What a step leaves alone *)

Section Frames.

Context {M : Type}.

(** From [s] to [s'] the trace has grown by events that all satisfy [P]. *)
Definition grows_by (P : event -> Prop) (s s' : @Streamer M) : Prop :=
  exists new, trace s' = trace s ++ new /\ Forall P new.

(** The configuration of the Streamer is the same in [s] and [s']. *)
Definition same_settings (s s' : @Streamer M) : Prop :=
  filter s' = filter s /\ formatter s' = formatter s
  /\ retryPolicy s' = retryPolicy s /\ maxMultilines s' = maxMultilines s
  /\ (matcher s' = None <-> matcher s = None).

(** A record of the container [containerName] of the pod [podName] in
    [namespace], handed to [OnLog]. *)
Definition is_record_of (namespace podName containerName : string)
  (e : event) : Prop :=
  exists msg,
    e = OnLog msg /\ Namespace msg = namespace /\ PodName msg = podName
    /\ ContainerName msg = containerName.

(** From [s] to [s'] nothing has happened but the delivery of records of
    one container and, possibly, removals from the active set. *)
Definition delivered_only (namespace podName containerName : string)
  (s s' : @Streamer M) : Prop :=
  grows_by (is_record_of namespace podName containerName) s s'
  /\ same_settings s s'
  /\ stopped s' = stopped s /\ stopOnce s' = stopOnce s
  /\ stopCh s' = stopCh s /\ wg s' = wg s
  /\ incl (active s') (active s).

End Frames.

(** ** The Reassembler when the stream goes on *)

Section OpenRuns.

Context {M : Type}.
Variable ShouldMerge : M -> string -> string -> bool * M.

(** As [reassemble], without the flush at the end of the stream: the runs
    flushed while the lines were read, and the run still pending. *)
Fixpoint reassemble_open (max : Z) (m : M) (cur : list (list byte))
  (last : string) (lines : list (list byte))
  : list (list (list byte)) * list (list byte) :=
  match lines with
  | [] => ([], cur)
  | l :: rest =>
      match cur with
      | [] => reassemble_open max m [l] (string_of_list_byte l) rest
      | _ =>
          let '(merge, m') := ShouldMerge m last (string_of_list_byte l) in
          if merge
          then
            if (Z.of_nat (List.length (cur ++ [l])) >=? max)%Z
            then
              let '(runs, pending) :=
                reassemble_open max m' [] (string_of_list_byte l) rest in
              ((cur ++ [l]) :: runs, pending)
            else
              reassemble_open max m' (cur ++ [l]) (string_of_list_byte l) rest
          else
            let '(runs, pending) :=
              reassemble_open max m' [l] (string_of_list_byte l) rest in
            (cur :: runs, pending)
      end
  end.

End OpenRuns.

(** ** The retry loop of a follower *)

(** The backoff after a sleep of [b]. *)
Definition next_backoff (policy : RetryPolicy) (b : Z) : Z :=
  let b' := Multiplier policy b in
  if (b' >? MaxInterval policy)%Z then MaxInterval policy else b'.

(** The [n] sleeps of a run of failures that starts with the backoff [b]. *)
Fixpoint backoffs (policy : RetryPolicy) (b : Z) (n : nat) : list Z :=
  match n with
  | O => []
  | S n' => b :: backoffs policy (next_backoff policy b) n'
  end.

(** What the handler is told when the stream cannot be opened, and when
    the follower gives up. *)
Definition open_failed (podName containerName : string) (e : error)
  : event :=
  OnError (LogStreamError e false
             ("failed to stream logs for pod " ++ podName
              ++ " container " ++ containerName)%string).

Definition retries_exceeded (podName containerName : string) : event :=
  OnError (LogStreamError (errorString "exceeded maximum retries") true
             ("log stream retries exceeded for pod " ++ podName
              ++ " container " ++ containerName)%string).

(** The events of attempts to open the stream that fail with [errs] and
    are followed by the sleeps [bs]. *)
Fixpoint failed_attempts (namespace podName containerName : string)
  (since : option Z) (errs : list error) (bs : list Z) : list event :=
  match errs, bs with
  | e :: errs', b :: bs' =>
      GetLogsStream namespace podName containerName since
      :: open_failed podName containerName e
      :: TimeAfter b
      :: failed_attempts namespace podName containerName since errs' bs'
  | _, _ => []
  end.

(** Whether, after [r] failures in a row, the answers [opens] of the
    cluster client never hold more than [maxRetries] failures in a row. *)
Fixpoint tolerated {A : Type} (maxRetries r : Z) (opens : list (error + A))
  : bool :=
  match opens with
  | [] => true
  | inl _ :: rest =>
      (r + 1 <=? maxRetries)%Z && tolerated maxRetries (r + 1) rest
  | inr _ :: rest => tolerated maxRetries 0 rest
  end.

(** A sleep lasts the initial interval, or at most the maximum interval. *)
Definition sleeps_within (policy : RetryPolicy) (e : event) : Prop :=
  match e with
  | TimeAfter d =>
      d = InitialInterval policy \/ (d <= MaxInterval policy)%Z
  | _ => True
  end.

(** The events of a follower between two successful openings: records,
    the closing of the stream, a read error that is not permanent, and a
    sleep of the initial interval. *)
Definition reconnect_event (policy : RetryPolicy) (e : event) : Prop :=
  match e with
  | OnLog _ | StreamClose | GetLogsStream _ _ _ _ => True
  | OnError err =>
      exists e0, err = LogStreamError e0 false "log stream read error"
  | TimeAfter d => d = InitialInterval policy
  | _ => False
  end.

Section Emits.

Context {M : Type}.

Definition emits (new : list event) (s : @Streamer M) : @Streamer M :=
  fold_left (fun s e => emit e s) new s.

End Emits.

(** ** Pods, containers and goroutines *)

(** Whether the container regex of the filter lets a container through. *)
Definition container_passes (f : LogFilter) (container : string) : bool :=
  match ContainerRegex f with
  | Some re => MatchString re container
  | None => true
  end.

(** The launches of the followers of a pod. *)
Definition followers_of (f : LogFilter) (pod : Pod) : list event :=
  map (fun container =>
         go_follower (pod_Name pod) container (pod_Namespace pod))
    (List.filter (container_passes f) (pod_Containers pod)).

(** A pod in phase [Succeeded] or [Failed]. *)
Definition completed (pod : Pod) : bool :=
  String.eqb (pod_Phase pod) "Succeeded" || String.eqb (pod_Phase pod) "Failed".

Definition is_go_watcher (e : event) : bool :=
  match e with go_watcher _ => true | _ => false end.

Definition is_go_follower (e : event) : bool :=
  match e with go_follower _ _ _ => true | _ => false end.

Definition is_ListPods (e : event) : bool :=
  match e with ListPods _ _ => true | _ => false end.

(** The goroutines that [Stop] waits for. *)
Definition is_waited_for (e : event) : bool :=
  is_go_watcher e || is_go_follower e.

(** The namespaces of [namespaces] whose pods are listed before a listing
    fails, and the error of that listing. *)
Fixpoint listed_namespaces (list_pods : Lister) (labelSelector : string)
  (namespaces : list string) : list string * option error :=
  match namespaces with
  | [] => ([], None)
  | namespace :: rest =>
      match list_pods namespace labelSelector with
      | inl err => ([], Some err)
      | inr _ =>
          let '(listed, err) :=
            listed_namespaces list_pods labelSelector rest in
          (namespace :: listed, err)
      end
  end.

Section Goroutines.

Context {M : Type}.

(** From [s] to [s'] the wait group has grown by the number of watchers
    and followers launched, and nothing but the launches of followers and
    the active set has changed besides. *)
Definition launched_followers (s s' : @Streamer M) : Prop :=
  exists new,
    trace s' = trace s ++ new
    /\ Forall (fun e => is_go_follower e = true) new
    /\ wg s' = (wg s + Z.of_nat (List.length new))%Z
    /\ filter s' = filter s /\ retryPolicy s' = retryPolicy s
    /\ stopped s' = stopped s.

End Goroutines.

(** ** Braces *)

(** The number of opening braces of a text less the number of closing
    ones. *)
Fixpoint balance (text : string) : Z :=
  match text with
  | EmptyString => 0
  | String c rest =>
      ((if Ascii.eqb c "{" then 1 else if Ascii.eqb c "}" then -1 else 0)
       + balance rest)%Z
  end.

(** A line that asks for its continuation: its text, trimmed, ends with a
    backslash. *)
Definition continued (line : string) : bool :=
  Go.HasSuffix (Go.TrimSpace line) "\".

(** Lines of an object that is [depth] braces deep before them: no line
    is continued, the depth stays positive after each line but the last,
    and is back at zero (or below) after the last. *)
Fixpoint object_lines (depth : Z) (lines : list (list byte)) : bool :=
  match lines with
  | [] => false
  | l :: rest =>
      let d := (depth + balance (string_of_list_byte l))%Z in
      negb (continued (string_of_list_byte l))
      && match rest with
         | [] => (- 2 ^ 63 <=? d)%Z && (d <=? 0)%Z
         | _ => (0 <? d)%Z && (d <? 2 ^ 63)%Z && object_lines d rest
         end
  end.

(** ** Chains of calls on a filter builder *)

(** A call of a method of the builder; a call of [Since] comes with the
    instant that it reads from the clock. *)
Inductive builder_call :=
| call_PodRegex (pattern : string)
| call_ContainerRegex (pattern : string)
| call_Label (key value : string)
| call_Include (pattern : string)
| call_Since (now duration : Z)
| call_ContainerState (state : string)
| call_Namespace (namespace : string).

Section BuilderCalls.

Variable Compile : string -> option Regexp.
Variable SelectorFromSet : string -> string -> string.

Definition do_builder_call (b : filterpkg.LogFilterBuilder)
  (c : builder_call) : filterpkg.LogFilterBuilder :=
  match c with
  | call_PodRegex pattern => filterpkg.PodRegex Compile pattern b
  | call_ContainerRegex pattern => filterpkg.ContainerRegex_ Compile pattern b
  | call_Label key value => filterpkg.Label SelectorFromSet key value b
  | call_Include pattern => filterpkg.Include Compile pattern b
  | call_Since now duration => filterpkg.Since_ now duration b
  | call_ContainerState state => filterpkg.ContainerState_ state b
  | call_Namespace namespace => filterpkg.Namespace_ namespace b
  end.

(** The builder after a chain of calls on a new builder. *)
Definition chain (calls : list builder_call) : filterpkg.LogFilterBuilder :=
  fold_left do_builder_call calls filterpkg.NewLogFilterBuilder.

End BuilderCalls.

(** The non-empty namespaces named in a chain of calls, in order. *)
Definition named_namespaces (calls : list builder_call) : list string :=
  flat_map (fun c =>
              match c with
              | call_Namespace namespace =>
                  if String.eqb namespace "" then [] else [namespace]
              | _ => []
              end) calls.

(** The container state that a chain of calls asks for: the last one that
    is not empty, after [start]. *)
Definition asked_state (start : string) (calls : list builder_call)
  : string :=
  fold_left (fun state c =>
               match c with
               | call_ContainerState st =>
                   if String.eqb st "" then state else st
               | _ => state
               end) calls start.

Definition valid_state (state : string) : bool :=
  String.eqb state "" || String.eqb state "all"
  || String.eqb state "running" || String.eqb state "terminated".

(** Every call of [Since] in the chain reads the clock no later than
    [now]. *)
Definition clock_reads_before (now : Z) (calls : list builder_call) : Prop :=
  Forall (fun c =>
            match c with
            | call_Since t _ => (t <= now)%Z
            | _ => True
            end) calls.

(** ** Texts of errors *)

(** [sub] occurs in [s]. *)
Definition occurs_in (sub s : string) : Prop :=
  exists before after, s = (before ++ sub ++ after)%string.

(** The phrases by which a deleted pod is recognised. *)
Definition pod_gone_phrases : list string :=
  ["container not found"; "pod not found"; "has been terminated";
   "has been deleted"].

(** ** Records that answer the filter *)

Section FilteredRecords.

Context {M : Type}.

(** A record handed to [OnLog] whose raw bytes, as text, pass the include
    regex of [s], and whose message is what the formatter of [s] makes of
    the record with that text as its message. *)
Definition is_filtered_record (s : @Streamer M) (e : event) : Prop :=
  exists msg,
    e = OnLog msg
    /\ excluded s (string_of_list_byte (Raw msg)) = false
    /\ Message msg
       = formatter s (setMessage msg (string_of_list_byte (Raw msg))).

End FilteredRecords.

(** ** Runs of merged lines *)

(** Each line of [lines] is to be merged with the line before it, the
    first with [previous]. *)
Fixpoint merged_chain (merges : string -> string -> Prop)
  (previous : list byte) (lines : list (list byte)) : Prop :=
  match lines with
  | [] => True
  | l :: rest =>
      merges (string_of_list_byte previous) (string_of_list_byte l)
      /\ merged_chain merges l rest
  end.

(** The first line of [rest], if any, is not to be merged with
    [previous]. *)
Definition chain_ends (merges : string -> string -> Prop)
  (previous : list byte) (rest : list (list byte)) : Prop :=
  match rest with
  | [] => True
  | l :: _ =>
      ~ merges (string_of_list_byte previous) (string_of_list_byte l)
  end.

(* ===================================================================== *)
(** * The processing loops as folds over the scanned lines               *)
(* ===================================================================== *)


(** One step of the loop around [Scan]. *)
Lemma scan_for_eq {St : Type} (body : scanner -> St -> St) sc c st :
  scan_for body sc c st =
  match Scan sc with
  | (true, sc') =>
      match stop_requested c with
      | (true, c') => (Cancelled, sc', c', st)
      | (false, c') => scan_for body sc' c' (body sc' st)
      end
  | (false, sc') => (Exhausted, sc', c, st)
  end.
Proof.
  funelim (scan_for body sc c st);
    repeat match goal with
      | H : Scan _ = _ |- _ => rewrite H
      | H : stop_requested _ = _ |- _ => rewrite H
      end; reflexivity.
Qed.

(** Whatever every turn of the body preserves holds when the loop ends. *)
Lemma scan_for_invariant {St : Type} (P : St -> Prop)
  (body : scanner -> St -> St) :
  (forall sc st, P st -> P (body sc st)) ->
  forall sc c st, P st -> P (snd (scan_for body sc c st)).
Proof.
  intros Hbody sc.
  remember (List.length (reader sc)) as n eqn:Hn.
  revert sc Hn.
  induction n as [n IH] using lt_wf_ind; intros sc Hn c st HP.
  rewrite scan_for_eq.
  destruct (Scan sc) as [[|] sc'] eqn:HS; [|exact HP].
  destruct (stop_requested c) as [[|] c']; [exact HP|].
  apply (IH (List.length (reader sc'))); auto.
  subst n. apply Scan_consumes. exact HS.
Qed.



Lemma scan_for_as_fold sc :
  exists scs scf,
    forall (St : Type) (body : scanner -> St -> St) (st : St),
      scan_for body sc None st
      = (Exhausted, scf, None, fold_left (fun a x => body x a) scs st).
Proof.
  remember (List.length (reader sc)) as n eqn:Hn.
  revert sc Hn.
  induction n as [n IH] using lt_wf_ind; intros sc Hn.
  destruct (Scan sc) as [[|] sc'] eqn:HS.
  - destruct (IH (List.length (reader sc'))) with (sc := sc')
      as (scs & scf & Hrec); [ | reflexivity | ].
    + subst n. apply Scan_consumes. exact HS.
    + exists (sc' :: scs), scf. intros St body st.
      rewrite scan_for_eq, HS. simpl. apply Hrec.
  - exists [], sc'. intros St body st.
    rewrite scan_for_eq, HS. reflexivity.
Qed.

Lemma fold_left_snoc {A : Type} (l acc : list A) :
  fold_left (fun a x => a ++ [x]) l acc = acc ++ l.
Proof.
  revert acc. induction l as [|x l IH]; intros acc; simpl.
  - symmetry. apply app_nil_r.
  - rewrite IH, <- app_assoc. reflexivity.
Qed.

Lemma scan_for_fold {St : Type} (body : scanner -> St -> St) sc st :
  scan_for body sc None st
  = (Exhausted, scan_end sc, None,
     fold_left (fun a x => body x a) (scan_states sc) st).
Proof.
  destruct (scan_for_as_fold sc) as (scs & scf & H).
  unfold scan_end, scan_states. rewrite !H.
  cbn [fst snd]. rewrite fold_left_snoc. reflexivity.
Qed.

Lemma scan_states_eq sc :
  scan_states sc
  = match Scan sc with
    | (true, sc') => sc' :: scan_states sc'
    | (false, _) => []
    end.
Proof.
  unfold scan_states at 1. rewrite scan_for_eq.
  destruct (Scan sc) as [[|] sc']; [|reflexivity].
  cbn [stop_requested]. rewrite scan_for_fold. cbn [snd app].
  rewrite fold_left_snoc. reflexivity.
Qed.

(** *** A reader that returns one whole line at each Read *)

Lemma index_newline_line l : forall i,
  ~ In newline l ->
  index_newline (l ++ [newline]) i = Some (i + List.length l).
Proof.
  induction l as [|b l IH]; intros i Hnot; simpl.
  - f_equal. lia.
  - destruct (Byte.eqb b newline) eqn:E.
    + apply Byte.byte_dec_bl in E. subst b. exfalso. apply Hnot. now left.
    + rewrite IH by (intros H; apply Hnot; now right). f_equal. lia.
Qed.

Lemma Scan_whole_line l rest tok :
  ~ In newline l ->
  Scan {| reader := (l ++ [newline], None) :: rest; token := tok;
          err := None |}
  = (true, {| reader := rest; token := l; err := None |}).
Proof.
  intros Hnot. unfold Scan. cbn [err reader Scan_loop Scan_turn].
  rewrite (index_newline_line l 0 Hnot). cbn [Nat.add app].
  rewrite firstn_app, firstn_all, Nat.sub_diag. cbn [firstn].
  rewrite app_nil_r. reflexivity.
Qed.

Lemma scan_states_whole_lines (ls : list (list byte)) : forall tok,
  Forall (fun l => ~ In newline l) ls ->
  map token
    (scan_states {| reader := map (fun l => (l ++ [newline], None)) ls;
                    token := tok; err := None |})
  = ls.
Proof.
  induction ls as [|l ls IH]; intros tok Hall.
  - rewrite scan_states_eq. reflexivity.
  - inversion Hall as [|? ? Hl Hls]; subst.
    rewrite scan_states_eq. cbn [map].
    rewrite Scan_whole_line by exact Hl.
    cbn [map token]. f_equal. apply IH. exact Hls.
Qed.

(** When every Read returns exactly one line and its newline, the scanner
    yields the lines. *)
Lemma scanned_lines_read_one_by_one (ls : list (list byte)) :
  Forall (fun l => ~ In newline l) ls ->
  scanned_lines (map (fun l => (l ++ [newline], None)) ls) = ls.
Proof. apply scan_states_whole_lines. Qed.

(* ===================================================================== *)
(** * What the two processors deliver                                    *)
(* ===================================================================== *)

Lemma string_app_assoc (a b c : string) :
  ((a ++ b) ++ c)%string = (a ++ (b ++ c))%string.
Proof. induction a as [|x a IH]; simpl; [reflexivity | now rewrite IH]. Qed.

Section Reassembly.

Context {M : Type}.
Variable ShouldMerge : M -> string -> string -> bool * M.
Variable clock : nat -> Z.
Variables podName containerName namespace : string.

Local Abbreviation deliver_ := (deliver clock podName containerName namespace).
Local Abbreviation record_of_ := (record_of podName containerName namespace).



(** *** The joins of the code are the joins of the specification *)

Lemma join_buffer_concat first others :
  join_buffer first others = String.concat (String "010" "") (first :: others).
Proof.
  unfold join_buffer. revert first.
  induction others as [|b rest IH]; intros first; simpl; [reflexivity|].
  rewrite IH. simpl. destruct rest as [|r rs]; [reflexivity|].
  rewrite !string_app_assoc. reflexivity.
Qed.

Lemma join_raw_fold (l : list (list byte)) i acc :
  snd (fold_left
         (fun '(i, rawBytes) raw =>
            (S i, (if Nat.ltb 0 i then rawBytes ++ [newline] else rawBytes)
                  ++ raw))
         l (S i, acc))
  = acc ++ flat_map (fun r => newline :: r) l.
Proof.
  revert i acc. induction l as [|r l IH]; intros i acc; simpl.
  - symmetry. apply app_nil_r.
  - rewrite IH. rewrite <- !app_assoc. reflexivity.
Qed.

Lemma join_raw_joined rawBuffer : join_raw rawBuffer = joined_raw rawBuffer.
Proof.
  destruct rawBuffer as [|r l]; [reflexivity|].
  unfold join_raw. simpl. apply join_raw_fold.
Qed.

(** *** Single fields through the updates *)

Lemma set_matcher_same (s : @Streamer M) : set_matcher (matcher s) s = s.
Proof. destruct s; reflexivity. Qed.

Lemma set_matcher_twice a b (s : @Streamer M) :
  set_matcher a (set_matcher b s) = set_matcher a s.
Proof. reflexivity. Qed.

Lemma excluded_included (s : @Streamer M) run :
  excluded s (joined_text run) = negb (included (filter s) run).
Proof.
  unfold excluded, included. destruct (IncludeRegex (filter s)); reflexivity.
Qed.

Lemma deliver_set_matcher x (s : @Streamer M) run :
  deliver_ (set_matcher x s) run = set_matcher x (deliver_ s run).
Proof.
  unfold deliver. simpl. destruct (included (filter s) run); reflexivity.
Qed.

Lemma fold_deliver_set_matcher x runs (s : @Streamer M) :
  fold_left deliver_ runs (set_matcher x s)
  = set_matcher x (fold_left deliver_ runs s).
Proof.
  revert s. induction runs as [|r runs IH]; intros s; simpl; [reflexivity|].
  rewrite deliver_set_matcher. apply IH.
Qed.

Lemma deliver_frame (s : @Streamer M) run :
  filter (deliver_ s run) = filter s
  /\ formatter (deliver_ s run) = formatter s
  /\ matcher (deliver_ s run) = matcher s
  /\ maxMultilines (deliver_ s run) = maxMultilines s
  /\ active (deliver_ s run) = active s.
Proof.
  unfold deliver. destruct (included (filter s) run); simpl; repeat split.
Qed.

(** *** The bodies of the loops deliver_ runs *)

Lemma single_line_deliver sc (s : @Streamer M) :
  single_line clock podName containerName namespace sc s
  = deliver_ s [token sc].
Proof.
  unfold single_line, deliver.
  change (Text sc) with (joined_text [token sc]).
  rewrite excluded_included.
  destruct (included (filter s) [token sc]); simpl; [|reflexivity].
  unfold record_of, joined_text, Bytes. simpl.
  rewrite app_nil_r. reflexivity.
Qed.

Lemma flush_deliver p (s : @Streamer M) :
  buffer p = map string_of_list_byte (rawBuffer p) ->
  rawBuffer p <> [] ->
  flush clock podName containerName namespace p s
  = (reset p, deliver_ s (rawBuffer p)).
Proof.
  intros Hbuf Hne. unfold flush, deliver.
  destruct (rawBuffer p) as [|r l] eqn:Hraw; [congruence|].
  rewrite Hbuf. cbn [map].
  rewrite join_buffer_concat.
  change (String.concat (String "010" "")
            (string_of_list_byte r :: map string_of_list_byte l))
    with (joined_text (r :: l)).
  rewrite excluded_included.
  destruct (included (filter s) (r :: l)); cbn [negb]; [|reflexivity].
  cbn [time_Now snd]. rewrite join_raw_joined. reflexivity.
Qed.

Lemma flush_nothing p (s : @Streamer M) :
  buffer p = [] ->
  flush clock podName containerName namespace p s = (p, s).
Proof. intros H. unfold flush. rewrite H. reflexivity. Qed.

End Reassembly.

Section Processors.

Context {M : Type}.
Variable ShouldMerge : M -> string -> string -> bool * M.
Variable clock : nat -> Z.
Variables podName containerName namespace : string.

Local Abbreviation flush_ := (flush clock podName containerName namespace).
Local Abbreviation multi_line_ :=
  (multi_line ShouldMerge clock podName containerName namespace).
Local Abbreviation single_line_ :=
  (single_line clock podName containerName namespace).
Local Abbreviation deliver_ := (deliver clock podName containerName namespace).

Lemma single_line_fold scs (s : @Streamer M) :
  fold_left (fun a x => single_line_ x a) scs s
  = fold_left deliver_ (map (fun sc => [token sc]) scs) s.
Proof.
  revert s. induction scs as [|sc scs IH]; intros s; simpl; [reflexivity|].
  rewrite single_line_deliver. apply IH.
Qed.

(** The multi-line loop and its last flush deliver the runs of
    [reassemble], and leave the matcher in some state. *)
Lemma multi_line_fold scs : forall p (s : @Streamer M) m,
  matcher s = Some m ->
  buffer p = map string_of_list_byte (rawBuffer p) ->
  exists m',
    (let '(p', s') := fold_left (fun a x => multi_line_ x a) scs (p, s) in
     snd (flush_ p' s'))
    = set_matcher (Some m')
        (fold_left deliver_
           (reassemble ShouldMerge (maxMultilines s) m (rawBuffer p)
              (lastLine p) (map token scs)) s).
Proof.
  induction scs as [|sc scs IH]; intros p s m Hm Hbuf.
  - exists m. simpl. destruct (rawBuffer p) as [|r l] eqn:Hraw.
    + rewrite flush_nothing by exact Hbuf.
      simpl. rewrite <- Hm. symmetry. apply set_matcher_same.
    + rewrite flush_deliver;
        [|rewrite Hraw; exact Hbuf|rewrite Hraw; discriminate].
      rewrite Hraw. simpl.
      rewrite <- deliver_set_matcher, <- Hm, set_matcher_same. reflexivity.
  - cbn [fold_left map].
    unfold multi_line at 2. cbn iota beta. unfold Text, Bytes.
    assert (Happ : buffer (append_line p (string_of_list_byte (token sc)) (token sc))
                   = map string_of_list_byte
                       (rawBuffer (append_line p (string_of_list_byte (token sc)) (token sc)))).
    { unfold append_line; simpl. rewrite Hbuf, map_app. reflexivity. }
    destruct (rawBuffer p) as [|r l] eqn:Hraw.
    + (* the first line of a run *)
      rewrite Hbuf. cbn [map List.length Nat.eqb].
      destruct (IH (append_line p (string_of_list_byte (token sc)) (token sc)) s m Hm Happ)
        as [m' Hm'].
      exists m'. rewrite Hm'. unfold append_line; simpl.
      rewrite Hraw. reflexivity.
    + assert (Hlen : Nat.eqb (List.length (buffer p)) 0 = false)
        by (rewrite Hbuf; reflexivity).
      rewrite Hlen. unfold matcher_ShouldMerge. rewrite Hm.
      cbn [reassemble].
      destruct (ShouldMerge m (lastLine p) (string_of_list_byte (token sc)))
        as [merge m1].
      destruct merge.
      * (* the line is merged into the pending run *)
        replace (List.length (buffer (append_line p (string_of_list_byte (token sc)) (token sc))))
          with (List.length ((r :: l) ++ [token sc]))
          by (rewrite Happ, length_map; unfold append_line; simpl;
              rewrite Hraw; reflexivity).
        cbn [maxMultilines set_matcher].
        destruct (Z.of_nat (List.length ((r :: l) ++ [token sc]))
                  >=? maxMultilines s)%Z.
        -- rewrite flush_deliver; [|exact Happ|].
           2:{ unfold append_line; simpl. rewrite Hraw. discriminate. }
           destruct (IH (reset (append_line p (string_of_list_byte (token sc)) (token sc)))
                       (deliver_ (set_matcher (Some m1) s)
                          (rawBuffer (append_line p (string_of_list_byte (token sc)) (token sc))))
                       m1) as [m' Hm'].
           { rewrite deliver_set_matcher. reflexivity. }
           { reflexivity. }
           exists m'. rewrite Hm'.
           rewrite deliver_set_matcher, fold_deliver_set_matcher.
           cbn [fold_left]. unfold append_line; simpl.
           rewrite Hraw.
           destruct (deliver_frame clock podName containerName namespace s
                       ((r :: l) ++ [token sc])) as (_ & _ & _ & Hmax & _).
           rewrite Hmax. reflexivity.
        -- destruct (IH (append_line p (string_of_list_byte (token sc)) (token sc))
                       (set_matcher (Some m1) s) m1 eq_refl Happ)
             as [m' Hm'].
           exists m'. rewrite Hm'. rewrite fold_deliver_set_matcher.
           unfold append_line; simpl. rewrite Hraw. reflexivity.
      * (* the pending run is flushed and the line starts a new one *)
        rewrite flush_deliver;
          [|rewrite Hraw; exact Hbuf|rewrite Hraw; discriminate].
        destruct (IH (append_line (reset p) (string_of_list_byte (token sc)) (token sc))
                    (deliver_ (set_matcher (Some m1) s) (rawBuffer p))
                    m1) as [m' Hm'].
        { rewrite deliver_set_matcher. reflexivity. }
        { reflexivity. }
        exists m'. rewrite Hm'.
        rewrite deliver_set_matcher, fold_deliver_set_matcher.
        cbn [fold_left]. rewrite Hraw.
        destruct (deliver_frame clock podName containerName namespace s
                    (r :: l)) as (_ & _ & _ & Hmax & _).
        cbn [maxMultilines set_matcher]. rewrite Hmax. reflexivity.
Qed.

End Processors.

Section Delivery.

Context {M : Type}.
Variable ShouldMerge : M -> string -> string -> bool * M.
Variable clock : nat -> Z.
Variables podName containerName namespace : string.

Local Abbreviation deliver_ := (deliver clock podName containerName namespace).
Local Abbreviation records_ := (records clock podName containerName namespace).
Local Abbreviation processLogStream_ :=
  (fun stream =>
     processLogStream ShouldMerge clock stream podName containerName namespace).

(** Delivering runs appends their records to the trace and changes
    nothing else but the count of clock readings. *)
Lemma fold_deliver_trace runs : forall s : @Streamer M,
  trace (fold_left deliver_ runs s)
  = trace s
    ++ map OnLog
         (records_ (formatter s) (ticks s)
            (List.filter (included (filter s)) runs)).
Proof.
  induction runs as [|r runs IH]; intros s; simpl.
  - symmetry. apply app_nil_r.
  - rewrite IH. unfold deliver.
    destruct (included (filter s) r); simpl; [|reflexivity].
    rewrite <- app_assoc. reflexivity.
Qed.

(** *** The runs of the Reassembler *)

Lemma reassemble_concat max lines : forall m cur last,
  List.concat (reassemble ShouldMerge max m cur last lines) = cur ++ lines.
Proof.
  induction lines as [|l rest IH]; intros m cur last; simpl.
  - destruct cur; simpl; [reflexivity|]. now rewrite !app_nil_r.
  - destruct cur as [|c0 cur'].
    + rewrite IH. reflexivity.
    + destruct (ShouldMerge m last (string_of_list_byte l)) as [[|] m'].
      * destruct (Z.of_nat _ >=? max)%Z; simpl; rewrite IH; simpl;
          rewrite <- ?app_assoc; reflexivity.
      * simpl. rewrite IH. reflexivity.
Qed.

Lemma reassemble_nonempty max lines : forall m cur last,
  Forall (fun run => run <> []) (reassemble ShouldMerge max m cur last lines).
Proof.
  induction lines as [|l rest IH]; intros m cur last; simpl.
  - destruct cur; constructor; [discriminate | constructor].
  - destruct cur as [|c0 cur'].
    + apply IH.
    + destruct (ShouldMerge m last (string_of_list_byte l)) as [[|] m'].
      * destruct (Z.of_nat _ >=? max)%Z.
        -- constructor; [discriminate | apply IH].
        -- apply IH.
      * constructor; [discriminate | apply IH].
Qed.

(** With a bound of at least two lines no run exceeds the bound. *)
Lemma reassemble_bounded max lines : forall m cur last,
  (2 <= max)%Z -> (Z.of_nat (List.length cur) < max)%Z ->
  Forall (fun run => (Z.of_nat (List.length run) <= max)%Z)
    (reassemble ShouldMerge max m cur last lines).
Proof.
  induction lines as [|l rest IH]; intros m cur last Hmax Hcur; simpl.
  - destruct cur; constructor; [lia | constructor].
  - destruct cur as [|c0 cur'].
    + apply IH; simpl; lia.
    + destruct (ShouldMerge m last (string_of_list_byte l)) as [[|] m'].
      * assert (Hlen : Z.of_nat (List.length ((c0 :: cur') ++ [l]))
                       = (Z.of_nat (List.length (c0 :: cur')) + 1)%Z)
          by (rewrite length_app; simpl List.length; lia).
        destruct (Z.of_nat (List.length ((c0 :: cur') ++ [l])) >=? max)%Z
          eqn:Hfull.
        -- constructor; [lia | apply IH; simpl; lia].
        -- apply IH; lia.
      * constructor; [lia | apply IH; simpl; lia].
Qed.


(** *** The two paths of processLogStream *)

Lemma after_scan_set_matcher sc x (s : @Streamer M) :
  after_scan sc podName (set_matcher x s)
  = (fst (after_scan sc podName s),
     set_matcher x (snd (after_scan sc podName s))).
Proof.
  unfold after_scan. destruct (Err sc) as [e|]; [|reflexivity].
  destruct (IsPodDeletedError (Some e)); [reflexivity|].
  destruct (isPermError (Some e)); reflexivity.
Qed.

Lemma after_scan_trace sc (s : @Streamer M) :
  trace (snd (after_scan sc podName s)) = trace s.
Proof.
  unfold after_scan. destruct (Err sc) as [e|]; [|reflexivity].
  destruct (IsPodDeletedError (Some e)); [reflexivity|].
  destruct (isPermError (Some e)); reflexivity.
Qed.

Lemma processLogStream_single stream (s : @Streamer M) :
  matcher s = None ->
  processLogStream_ stream None s
  = let r := after_scan (scan_end (NewScanner stream)) podName
               (fold_left deliver_
                  (map (fun l => [l]) (scanned_lines stream)) s) in
    (fst r, None, snd r).
Proof.
  intros Hm. unfold processLogStream. rewrite Hm.
  cbv zeta. rewrite scan_for_fold.
  rewrite (single_line_fold clock podName containerName namespace).
  unfold scanned_lines. rewrite map_map.
  destruct (after_scan _ _ _); reflexivity.
Qed.

Lemma processLogStream_multi stream (s : @Streamer M) m :
  matcher s = Some m ->
  exists m',
    processLogStream_ stream None s
    = let r := after_scan (scan_end (NewScanner stream)) podName
                 (fold_left deliver_
                    (reassemble ShouldMerge (maxMultilines s) m [] ""
                       (scanned_lines stream)) s) in
      (fst r, None, set_matcher (Some m') (snd r)).
Proof.
  intros Hm. unfold processLogStream. rewrite Hm.
  unfold processMultilineLogStream. cbv zeta. rewrite scan_for_fold.
  destruct (multi_line_fold ShouldMerge clock podName containerName namespace
              (scan_states (NewScanner stream)) no_pending s m Hm eq_refl)
    as [m' Hm'].
  exists m'.
  destruct (fold_left _ (scan_states (NewScanner stream)) (no_pending, s))
    as [p' s'].
  destruct (flush clock podName containerName namespace p' s') as [p'' s''].
  simpl in Hm'. subst s''. rewrite after_scan_set_matcher.
  reflexivity.
Qed.

End Delivery.



(* ===================================================================== *)
(** * C7: the multi-line path against the single-line path               *)
(* ===================================================================== *)



(* ===================================================================== *)
(** * C1: the line scanner                                               *)
(* ===================================================================== *)



(** C1.  [Scan] keeps the bytes up to the first newline of what a [Read]
    returned and forgets the rest of that buffer.  When one [Read] returns
    the three lines of a source at once, only the first line is yielded
    and only one record is delivered. *)
Theorem scanner_forgets_rest_of_read :
  source_lines (source_bytes Example.three_lines_at_once)
  = map list_byte_of_string ["a"; "b"; "c"]
  /\ scanned_lines Example.three_lines_at_once
     = map list_byte_of_string ["a"]
  /\ Example.messages
       (trace (snd (processLogStream Example.never_merge Example.clock
                      Example.three_lines_at_once "pod" "app" "default" None
                      (Example.streamer None 0 0))))
     = ["a"].
Proof. repeat split; vm_compute; reflexivity. Qed.

(** For comparison: the same three lines, one read each, come through. *)
Lemma scanner_line_per_read :
  scanned_lines [Example.line "a"; Example.line "b"; Example.line "c"]
  = map list_byte_of_string ["a"; "b"; "c"]
  /\ Example.messages
       (trace (snd (processLogStream Example.never_merge Example.clock
                      [Example.line "a"; Example.line "b"; Example.line "c"]
                      "pod" "app" "default" None
                      (Example.streamer None 0 0))))
     = ["a"; "b"; "c"].
Proof. split; vm_compute; reflexivity. Qed.

(* ===================================================================== *)
(** * C4: the bound on the lines of a record                             *)
(* ===================================================================== *)

(** C4.  With [maxMultilines = 1] and a predicate that merges, the two
    lines [a] and [b] are delivered as one record of two lines: the bound
    is tested only after a line has been merged into a non-empty buffer. *)
Theorem multiline_bound_of_one_exceeded :
  maxMultilines (Example.streamer (Some tt) 1 0) = 1%Z
  /\ scanned_lines Example.two_lines = map list_byte_of_string ["a"; "b"]
  /\ trace (snd (processLogStream Example.always_merge Example.clock
                   Example.two_lines "pod" "app" "default" None
                   (Example.streamer (Some tt) 1 0)))
     = [OnLog {| Namespace := "default"; PodName := "pod";
                 ContainerName := "app"; Timestamp := 0;
                 Message := ("a" ++ Example.nl ++ "b")%string;
                 Raw := list_byte_of_string
                          ("a" ++ Example.nl ++ "b")%string |}].
Proof. repeat split; vm_compute; reflexivity. Qed.

(** From a bound of two on, every record holds between one line and
    [maxMultilines] lines. *)
Lemma multiline_records_bounded_from_two
  {M : Type} (ShouldMerge : M -> string -> string -> bool * M)
  (clock : nat -> Z) (stream : Reader)
  (podName containerName namespace : string) (s : @Streamer M) (m : M) :
  matcher s = Some m ->
  (2 <= maxMultilines s)%Z ->
  exists runs : list (list (list byte)),
    List.concat runs = scanned_lines stream
    /\ Forall (fun run => (1 <= Z.of_nat (List.length run)
                           <= maxMultilines s)%Z) runs
    /\ trace (snd (processLogStream ShouldMerge clock stream podName
                     containerName namespace None s))
       = trace s
         ++ map OnLog
              (records clock podName containerName namespace (formatter s)
                 (ticks s) (List.filter (included (filter s)) runs)).
Proof.
  intros Hm Hmax.
  exists (reassemble ShouldMerge (maxMultilines s) m [] ""
            (scanned_lines stream)).
  split; [apply reassemble_concat|]. split.
  - pose proof (reassemble_nonempty ShouldMerge (maxMultilines s)
                  (scanned_lines stream) m [] "") as Hne.
    pose proof (reassemble_bounded ShouldMerge (maxMultilines s)
                  (scanned_lines stream) m [] "" Hmax) as Hle.
    specialize (Hle ltac:(simpl; lia)).
    rewrite Forall_forall in *. intros run Hin.
    specialize (Hne run Hin). specialize (Hle run Hin).
    destruct run; [congruence | simpl List.length in *; lia].
  - destruct (processLogStream_multi ShouldMerge clock podName containerName
                namespace stream s m Hm) as [m' Hmulti].
    rewrite Hmulti. cbn [fst snd set_matcher trace].
    rewrite after_scan_trace. apply fold_deliver_trace.
Qed.

(** Scenario 5 of the specification: ten lines that always merge, under a
    bound of three, make records of three, three, three and one lines. *)
Lemma ten_lines_bound_three :
  Example.messages
    (trace (snd (processLogStream Example.always_merge Example.clock
                   (map Example.line
                      ["L1"; "L2"; "L3"; "L4"; "L5"; "L6"; "L7"; "L8"; "L9";
                       "L10"])
                   "pod" "app" "default" None
                   (Example.streamer (Some tt) 3 0))))
  = [ ("L1" ++ Example.nl ++ "L2" ++ Example.nl ++ "L3")%string;
      ("L4" ++ Example.nl ++ "L5" ++ Example.nl ++ "L6")%string;
      ("L7" ++ Example.nl ++ "L8" ++ Example.nl ++ "L9")%string;
      "L10" ].
Proof. vm_compute. reflexivity. Qed.

(* ===================================================================== *)
(** * C3 and C5: the container follower                                  *)
(* ===================================================================== *)



(** C3.  Streams that end because the pod is gone, each followed by the
    goroutine while its pod ["pod"] is in the active set.

    The first ends with [io.EOF]: [scanner.Err] turns [io.EOF] into nil,
    so [IsPodDeletedError] is never asked; the pod stays in the active set.
    The second ends with an error that says "pod not found": the pod is
    removed and nothing is reported.  In both cases [processLogStream]
    returns nil and the loop of the follower goes round again: the stream
    is opened a second time, and the goroutine has not ended.  In the
    third the cluster refuses that second opening, as it does for a pod
    that is gone: the refusal goes to [OnError], and with no retries left
    so does a permanent error. *)
Theorem follower_reconnects_when_pod_is_gone :
  (let r := follower Example.never_merge Example.clock
              [inr [Example.line "x"; ([], Some io_EOF)]; inr []]
              "pod" "app" "default" None
              (active_Store "pod" (Example.streamer (@None unit) 0 3)) in
   fst (fst (fst r)) = Continue
   /\ active (snd r) = ["pod"]
   /\ count is_open (trace (snd r)) = 2
   /\ count is_error (trace (snd r)) = 0)
  /\
  (let r := follower Example.never_merge Example.clock
              [inr [Example.line "x";
                    ([], Some (errorString "pod not found"))];
               inr []]
              "pod" "app" "default" None
              (active_Store "pod" (Example.streamer (@None unit) 0 3)) in
   fst (fst (fst r)) = Continue
   /\ active (snd r) = []
   /\ count is_open (trace (snd r)) = 2
   /\ count is_error (trace (snd r)) = 0)
  /\
  (let r := follower Example.never_merge Example.clock
              [inr [Example.line "x";
                    ([], Some (errorString "pod not found"))];
               inl (errorString "pods pod not found")]
              "pod" "app" "default" None
              (active_Store "pod" (Example.streamer (@None unit) 0 0)) in
   fst (fst (fst r)) = Returned
   /\ count is_open (trace (snd r)) = 2
   /\ count is_error (trace (snd r)) = 2
   /\ count is_permanent_error (trace (snd r)) = 1).
Proof. repeat split; vm_compute; reflexivity. Qed.

(** The part of the behaviour that is there: a read error of the pod-gone
    class is not returned, and the pod leaves the active set. *)
Lemma pod_gone_read_error_is_swallowed
  {M : Type} (sc : scanner) (podName : string) (s : @Streamer M) e :
  Err sc = Some e ->
  IsPodDeletedError (Some e) = true ->
  after_scan sc podName s = (None, active_Delete podName s)
  /\ active_Load podName (active_Delete podName s) = false.
Proof.
  intros HErr Hgone. unfold after_scan. rewrite HErr, Hgone.
  split; [reflexivity|].
  unfold active_Load, active_Delete. simpl.
  induction (active s) as [|k a IH]; simpl; [reflexivity|].
  destruct (String.eqb podName k) eqn:Hk; simpl; [exact IH|].
  rewrite Hk. exact IH.
Qed.

(** [scanner.Err] never returns [io.EOF]. *)
Lemma Err_is_never_EOF (sc : scanner) : Err sc <> Some io_EOF.
Proof.
  unfold Err. destruct (err sc) as [e|]; [|discriminate].
  destruct e; simpl; discriminate.
Qed.

(** C5.  With [MaxRetries = 0], a follower whose first attempt to open the
    stream fails (with a transient error: no error is classified as
    permanent) ends after that one attempt: it reports the failure, then
    one permanent error, and never sleeps.  And a successful open leaves
    the failure counter at zero, whatever it was. *)
Theorem follower_without_retries
  {M : Type} (ShouldMerge : M -> string -> string -> bool * M)
  (clock : nat -> Z) (err : error) (opens : list OpenResult)
  (podName containerName namespace : string) (ctx : signal)
  (s : @Streamer M) :
  MaxRetries (retryPolicy s) = 0%Z ->
  isPermError (Some err) = false ->
  fst (stop_requested ctx) = false ->
  (let r := follower ShouldMerge clock (inl err :: opens)
              podName containerName namespace ctx s in
   exists new,
     fst (fst (fst r)) = Returned
     /\ trace (snd r) = trace s ++ new
     /\ count is_open new = 1
     /\ count is_permanent_error new = 1
     /\ count is_sleep new = 0
     /\ new = [ GetLogsStream namespace podName containerName
                  (Since (filter s));
                OnError (LogStreamError err false
                  ("failed to stream logs for pod " ++ podName
                   ++ " container " ++ containerName)%string);
                OnError (LogStreamError
                  (errorString "exceeded maximum retries") true
                  ("log stream retries exceeded for pod " ++ podName
                   ++ " container " ++ containerName)%string) ])
  /\ (forall stream v,
        retry (snd (fst (fst (follower_turn ShouldMerge clock (inr stream)
                                podName containerName namespace v ctx s))))
        = 0%Z).
Proof.
  intros Hmax Hperm Hctx. split.
  - eexists. unfold follower. cbn [follower_loop].
    unfold follower_turn.
    destruct (stop_requested ctx) as [stop ctx'] eqn:Hstop.
    simpl in Hctx. subst stop. rewrite Hperm.
    cbn [retry backoff emit retryPolicy]. rewrite Hmax.
    change (Go.int_wrap (0 + 1) >? 0)%Z with true.
    cbn iota beta. cbn [fst snd trace set_wg emit].
    rewrite <- !app_assoc. cbn [app].
    repeat split.
  - intros stream v. unfold follower_turn.
    destruct (stop_requested ctx) as [stop ctx'] eqn:Hstop.
    simpl in Hctx. subst stop.
    destruct (processLogStream _ _ _ _ _ _ _ _) as [[e c1] s1].
    destruct (stop_requested c1) as [[|] c2]; [reflexivity|].
    destruct e as [[| |e0 [|] reason]|]; try reflexivity;
      unfold sleep_backoff; destruct (stop_requested c2) as [[|] c3];
      reflexivity.
Qed.

Lemma follower_without_retries_witness :
  MaxRetries (retryPolicy (Example.streamer (@None unit) 0 0)) = 0%Z
  /\ isPermError (Some (errorString "connection refused")) = false
  /\ fst (stop_requested None) = false
  /\ exists new,
       fst (fst (fst (follower Example.never_merge Example.clock
                        [inl (errorString "connection refused")]
                        "pod" "app" "default" None
                        (Example.streamer None 0 0)))) = Returned
       /\ trace (snd (follower Example.never_merge Example.clock
                        [inl (errorString "connection refused")]
                        "pod" "app" "default" None
                        (Example.streamer None 0 0)))
          = trace (Example.streamer (@None unit) 0 0) ++ new
       /\ count is_open new = 1
       /\ count is_permanent_error new = 1
       /\ count is_sleep new = 0.
Proof.
  split; [reflexivity|]. split; [reflexivity|]. split; [reflexivity|].
  destruct (follower_without_retries Example.never_merge Example.clock
              (errorString "connection refused") [] "pod" "app" "default"
              None (Example.streamer None 0 0) eq_refl eq_refl eq_refl)
    as [[new (H1 & H2 & H3 & H4 & H5 & _)] _].
  exists new. repeat split; assumption.
Defined.

(* ===================================================================== *)
(** * C2 and C6: Start and Stop                                          *)
(* ===================================================================== *)



Section Lifecycle.

Context {M : Type}.
Variable ShouldMerge : M -> string -> string -> bool * M.
Variable clock : nat -> Z.

Implicit Types s : @Streamer M.

Local Abbreviation do_call_ := (do_call ShouldMerge clock).
Local Abbreviation do_calls_ := (do_calls ShouldMerge clock).



Lemma quiet_refl s : quiet s s.
Proof. repeat split. Qed.

Lemma quiet_trans s1 s2 s3 : quiet s1 s2 -> quiet s2 s3 -> quiet s1 s3.
Proof.
  intros (A1 & A2 & A3) (B1 & B2 & B3).
  repeat split; congruence.
Qed.

Lemma quiet_emit e s : is_OnEnd e = false -> quiet s (emit e s).
Proof.
  intros He. repeat split. unfold count. simpl.
  rewrite filter_app, length_app. simpl. rewrite He. simpl. lia.
Qed.

Lemma quiet_time_Now s : quiet s (snd (time_Now clock s)).
Proof. repeat split. Qed.

Lemma quiet_set_matcher x s : quiet s (set_matcher x s).
Proof. repeat split. Qed.

Lemma quiet_set_active a s : quiet s (set_active a s).
Proof. repeat split. Qed.

Lemma quiet_set_wg n s : quiet s (set_wg n s).
Proof. repeat split. Qed.

Lemma quiet_active_Store name s : quiet s (active_Store name s).
Proof.
  unfold active_Store. destruct (active_Load name s);
    [apply quiet_refl | apply quiet_set_active].
Qed.

Lemma quiet_active_Delete name s : quiet s (active_Delete name s).
Proof. apply quiet_set_active. Qed.

Section Worker.

Variables podName containerName namespace : string.

Lemma quiet_single_line sc s0 s :
  quiet s0 s ->
  quiet s0 (single_line clock podName containerName namespace sc s).
Proof.
  intros H. unfold single_line. destruct (excluded s (Text sc)); [exact H|].
  eapply quiet_trans; [exact H|]. simpl.
  eapply quiet_trans; [apply quiet_time_Now|].
  apply quiet_emit. reflexivity.
Qed.

Lemma quiet_flush p s0 s :
  quiet s0 s ->
  quiet s0 (snd (flush clock podName containerName namespace p s)).
Proof.
  intros H. unfold flush. destruct (buffer p) as [|first others]; [exact H|].
  destruct (excluded s _); [exact H|].
  eapply quiet_trans; [exact H|]. simpl.
  eapply quiet_trans; [apply quiet_time_Now|].
  apply quiet_emit. reflexivity.
Qed.

Lemma quiet_multi_line sc s0 st :
  quiet s0 (snd st) ->
  quiet s0 (snd (multi_line ShouldMerge clock podName containerName
                   namespace sc st)).
Proof.
  destruct st as [p s]. simpl. intros H. unfold multi_line.
  destruct (Nat.eqb _ 0); [exact H|].
  assert (Hm : quiet s0 (snd (matcher_ShouldMerge ShouldMerge (lastLine p)
                                (Text sc) s))).
  { unfold matcher_ShouldMerge. destruct (matcher s) as [m|]; [|exact H].
    destruct (ShouldMerge m (lastLine p) (Text sc)) as [b m']. simpl.
    eapply quiet_trans; [exact H | apply quiet_set_matcher]. }
  destruct (matcher_ShouldMerge ShouldMerge (lastLine p) (Text sc) s)
    as [[|] s1]; simpl in Hm.
  - destruct (_ >=? _)%Z; [apply quiet_flush; exact Hm | exact Hm].
  - pose proof (quiet_flush p s0 s1 Hm) as Hf.
    destruct (flush clock podName containerName namespace p s1) as [p' s2].
    exact Hf.
Qed.

Lemma quiet_after_scan sc s0 s :
  quiet s0 s -> quiet s0 (snd (after_scan sc podName s)).
Proof.
  intros H. unfold after_scan. destruct (Err sc) as [e|]; [|exact H].
  destruct (IsPodDeletedError (Some e)).
  - eapply quiet_trans; [exact H | apply quiet_active_Delete].
  - destruct (isPermError (Some e)); exact H.
Qed.

Lemma quiet_processLogStream stream ctx s0 s :
  quiet s0 s ->
  quiet s0 (snd (processLogStream ShouldMerge clock stream podName
                   containerName namespace ctx s)).
Proof.
  intros H. unfold processLogStream. destruct (matcher s) as [m|].
  - unfold processMultilineLogStream.
    pose proof (scan_for_invariant (fun st => quiet s0 (snd st))
                  (multi_line ShouldMerge clock podName containerName
                     namespace)
                  (fun sc st => quiet_multi_line sc s0 st)
                  (NewScanner stream) ctx (no_pending, s) H) as Hloop.
    destruct (scan_for _ (NewScanner stream) ctx (no_pending, s))
      as [[[ex sc'] ctx'] [p' s']].
    simpl in Hloop. destruct ex; [|exact Hloop].
    pose proof (quiet_flush p' s0 s' Hloop) as Hf.
    destruct (flush clock podName containerName namespace p' s')
      as [p'' s''].
    simpl in Hf. pose proof (quiet_after_scan sc' s0 s'' Hf) as Ha.
    destruct (after_scan sc' podName s'') as [e s3]. exact Ha.
  - pose proof (scan_for_invariant (fun st => quiet s0 st)
                  (single_line clock podName containerName namespace)
                  (fun sc st => quiet_single_line sc s0 st)
                  (NewScanner stream) ctx s H) as Hloop.
    destruct (scan_for _ (NewScanner stream) ctx s)
      as [[[ex sc'] ctx'] s'].
    simpl in Hloop. destruct ex; [|exact Hloop].
    pose proof (quiet_after_scan sc' s0 s' Hloop) as Ha.
    destruct (after_scan sc' podName s') as [e s3]. exact Ha.
Qed.

Lemma quiet_sleep_backoff v ctx s0 s :
  quiet s0 s -> quiet s0 (snd (sleep_backoff v ctx s)).
Proof.
  intros H. unfold sleep_backoff.
  destruct (stop_requested ctx) as [[|] ctx']; [exact H|].
  simpl. eapply quiet_trans; [exact H | apply quiet_emit; reflexivity].
Qed.

Lemma quiet_follower_turn open v ctx s0 s :
  quiet s0 s ->
  quiet s0 (snd (follower_turn ShouldMerge clock open podName containerName
                   namespace v ctx s)).
Proof.
  intros H. unfold follower_turn.
  destruct (stop_requested ctx) as [[|] ctx']; [exact H|].
  assert (H1 : quiet s0 (emit (GetLogsStream namespace podName containerName
                                 (Since (filter s))) s))
    by (eapply quiet_trans; [exact H | apply quiet_emit; reflexivity]).
  destruct open as [e|stream].
  - destruct (isPermError (Some e)).
    + eapply quiet_trans; [exact H1 | apply quiet_emit; reflexivity].
    + match goal with
      | |- context [if ?b then _ else _] => destruct b
      end.
      * simpl. eapply quiet_trans; [exact H1|].
        eapply quiet_trans; apply quiet_emit; reflexivity.
      * apply quiet_sleep_backoff.
        eapply quiet_trans; [exact H1 | apply quiet_emit; reflexivity].
  - pose proof (quiet_processLogStream stream ctx' s0 _ H1) as Hp.
    destruct (processLogStream _ _ stream _ _ _ ctx' _) as [[e c1] s1].
    simpl in Hp.
    assert (Hc : quiet s0 (emit StreamClose s1))
      by (eapply quiet_trans; [exact Hp | apply quiet_emit; reflexivity]).
    destruct (stop_requested c1) as [[|] c2]; [exact Hc|].
    destruct e as [e|]; [|exact Hc].
    assert (He : quiet s0 (emit (OnError e) (emit StreamClose s1)))
      by (eapply quiet_trans; [exact Hc | apply quiet_emit; reflexivity]).
    destruct e as [| |e0 [|] reason]; try exact He;
      apply quiet_sleep_backoff; exact He.
Qed.

Lemma quiet_follower_loop opens : forall v ctx s0 s,
  quiet s0 s ->
  quiet s0 (snd (follower_loop ShouldMerge clock opens podName containerName
                   namespace v ctx s)).
Proof.
  induction opens as [|open opens IH]; intros v ctx s0 s H; simpl;
    [exact H|].
  pose proof (quiet_follower_turn open v ctx s0 s H) as Ht.
  destruct (follower_turn _ _ open _ _ _ v ctx s) as [[[t v'] ctx'] s'].
  simpl in Ht. destruct t; [exact Ht | apply IH; exact Ht].
Qed.

Lemma quiet_follower opens ctx s :
  quiet s (snd (follower ShouldMerge clock opens podName containerName
                  namespace ctx s)).
Proof.
  unfold follower.
  pose proof (quiet_follower_loop opens
                {| retry := 0; backoff := InitialInterval (retryPolicy s) |}
                ctx s s (quiet_refl s)) as Hl.
  destruct (follower_loop _ _ opens _ _ _ _ ctx s) as [[[t v'] ctx'] s'].
  simpl in Hl. destruct t; simpl; [|exact Hl].
  eapply quiet_trans; [exact Hl | apply quiet_set_wg].
Qed.

End Worker.

Lemma quiet_launch_followers pod containers : forall s0 s,
  quiet s0 s -> quiet s0 (launch_followers pod containers s).
Proof.
  induction containers as [|container rest IH]; intros s0 s H; simpl;
    [exact H|].
  assert (Hgo : quiet s0
                  (emit (go_follower (pod_Name pod) container
                           (pod_Namespace pod)) (set_wg (wg s + 1) s))).
  { eapply quiet_trans; [exact H|].
    eapply quiet_trans; [apply quiet_set_wg | apply quiet_emit; reflexivity]. }
  destruct (ContainerRegex (filter s)) as [re|].
  - destruct (negb (MatchString re container)); apply IH; assumption.
  - apply IH. exact Hgo.
Qed.

Lemma quiet_startPodLogStreamer pod s0 s :
  quiet s0 s -> quiet s0 (startPodLogStreamer pod s).
Proof.
  intros H. unfold startPodLogStreamer. apply quiet_launch_followers.
  eapply quiet_trans; [exact H | apply quiet_active_Store].
Qed.

Lemma quiet_stream_pods pods : forall s0 s,
  quiet s0 s ->
  quiet s0
    (fold_left
       (fun s pod =>
          if shouldStreamPod s pod then startPodLogStreamer pod s else s)
       pods s).
Proof.
  induction pods as [|pod pods IH]; intros s0 s H; simpl; [exact H|].
  apply IH. destruct (shouldStreamPod s pod);
    [apply quiet_startPodLogStreamer|]; exact H.
Qed.

Lemma quiet_watch_namespaces list_pods namespaces : forall s0 s,
  quiet s0 s -> quiet s0 (snd (watch_namespaces list_pods namespaces s)).
Proof.
  induction namespaces as [|ns rest IH]; intros s0 s H; simpl; [exact H|].
  set (sel := match LabelSelector (filter s) with
              | Some sel => sel | None => "" end).
  assert (Hl : quiet s0 (emit (ListPods ns sel) s))
    by (eapply quiet_trans; [exact H | apply quiet_emit; reflexivity]).
  destruct (list_pods ns sel) as [e|pods]; [exact Hl|].
  apply IH.
  eapply quiet_trans; [apply quiet_stream_pods; exact Hl|].
  eapply quiet_trans; [apply quiet_set_wg | apply quiet_emit; reflexivity].
Qed.

Lemma quiet_Start list_pods s : quiet s (snd (Start list_pods s)).
Proof.
  unfold Start. destruct (stopped s); [apply quiet_refl|].
  unfold startPodWatcher. apply quiet_watch_namespaces.
  apply quiet_emit. reflexivity.
Qed.



Lemma gate_ok_quiet s s' : quiet s s' -> gate_ok s -> gate_ok s'.
Proof.
  intros (Q1 & Q2 & Q3) (G1 & G2). unfold gate_ok.
  rewrite Q1, Q2, Q3. split; assumption.
Qed.

Lemma quiet_do_call c s : is_Stop c = false -> quiet s (do_call_ c s).
Proof.
  destruct c; simpl; intros H; [apply quiet_Start | discriminate |
                                apply quiet_follower].
Qed.

Lemma Stop_gate s :
  gate_ok s ->
  gate_ok (Stop s) /\ stopOnce (Stop s) = true
  /\ (stopOnce s = false ->
      trace (Stop s) = trace s ++ [OnEnd] /\ wg (Stop s) = 0%Z).
Proof.
  intros (G1 & G2). unfold Stop, gate_ok.
  destruct (stopOnce s) eqn:Honce.
  - rewrite Honce. repeat split; try assumption; discriminate.
  - simpl. repeat split.
    unfold count in *. rewrite filter_app, length_app. simpl. lia.
Qed.

Lemma do_calls_gate calls : forall s,
  gate_ok s ->
  gate_ok (do_calls_ calls s)
  /\ stopOnce (do_calls_ calls s) = stopOnce s || existsb is_Stop calls.
Proof.
  induction calls as [|c calls IH]; intros s G; simpl.
  - split; [exact G | now rewrite orb_false_r].
  - destruct (is_Stop c) eqn:Hc.
    + destruct c; try discriminate. simpl.
      destruct (Stop_gate s G) as (G' & Honce & _).
      destruct (IH (Stop s) G') as (G'' & Hs).
      split; [exact G''|]. rewrite Hs, Honce.
      now rewrite orb_true_r.
    + pose proof (quiet_do_call c s Hc) as Hq.
      destruct (IH (do_call_ c s) (gate_ok_quiet _ _ Hq G)) as (G' & Hs).
      split; [exact G'|]. rewrite Hs.
      destruct Hq as (_ & Q2 & _). rewrite Q2. reflexivity.
Qed.

Lemma NewStreamer_gate config s : NewStreamer config = inr s -> gate_ok s
                                  /\ stopOnce s = false.
Proof.
  unfold NewStreamer.
  destruct (KubeClientProvider config) as [[e|]|]; try discriminate.
  destruct (Filter config); try discriminate.
  destruct (negb (Handler config)); try discriminate.
  intros H. inversion H. subst s. repeat split.
Qed.

Lemma existsb_is_Stop calls : In call_Stop calls -> existsb is_Stop calls = true.
Proof.
  intros H. apply existsb_exists. exists call_Stop. split; [exact H|reflexivity].
Qed.

Lemma no_Stop_existsb calls :
  ~ In call_Stop calls -> existsb is_Stop calls = false.
Proof.
  intros H. destruct (existsb is_Stop calls) eqn:E; [|reflexivity].
  apply existsb_exists in E. destruct E as (c & Hin & Hc).
  destruct c; try discriminate. contradiction.
Qed.

End Lifecycle.

(** C2.  On a Streamer as [NewStreamer] returns it, after any sequence of
    calls of [Start] and [Stop] and runs of followers that holds at least
    one [Stop], [OnEnd] has been called exactly once; it was called by the
    first [Stop], as the last thing that [Stop] did, with the wait group at
    zero, and not before.  Whether a [Start] comes before the first [Stop]
    or not makes no difference. *)
Theorem Stop_calls_OnEnd_exactly_once
  {M : Type} (ShouldMerge : M -> string -> string -> bool * M)
  (clock : nat -> Z) (config : @StreamerConfig M) (s : @Streamer M)
  (calls : list call) :
  NewStreamer config = inr s ->
  In call_Stop calls ->
  count is_OnEnd (trace (do_calls ShouldMerge clock calls s)) = 1
  /\ forall before after,
       calls = before ++ call_Stop :: after ->
       ~ In call_Stop before ->
       count is_OnEnd (trace (do_calls ShouldMerge clock before s)) = 0
       /\ trace (do_calls ShouldMerge clock (before ++ [call_Stop]) s)
          = trace (do_calls ShouldMerge clock before s) ++ [OnEnd]
       /\ wg (do_calls ShouldMerge clock (before ++ [call_Stop]) s) = 0%Z.
Proof.
  intros Hnew Hin.
  destruct (NewStreamer_gate config s Hnew) as (G & Honce).
  split.
  - destruct (do_calls_gate ShouldMerge clock calls s G) as ((_ & Hc) & Hs).
    rewrite Hs, (existsb_is_Stop calls Hin), orb_true_r in Hc. exact Hc.
  - intros before after _ Hbefore.
    destruct (do_calls_gate ShouldMerge clock before s G) as (G' & Hs).
    rewrite Honce, (no_Stop_existsb before Hbefore) in Hs. simpl in Hs.
    split.
    + destruct G' as (_ & Hc). rewrite Hs in Hc. exact Hc.
    + unfold do_calls at 1 3. rewrite fold_left_app. simpl.
      fold (do_calls ShouldMerge clock before s).
      destruct (Stop_gate _ G') as (_ & _ & Hfirst).
      apply Hfirst. exact Hs.
Qed.

Lemma Stop_calls_OnEnd_exactly_once_witness :
  NewStreamer (Example.config (@None unit) 0 0)
  = inr (Example.streamer None 0 0)
  /\ In call_Stop [call_Stop; call_Start Example.no_pods; call_Stop]
  /\ count is_OnEnd
       (trace (do_calls Example.never_merge Example.clock
                 [call_Stop; call_Start Example.no_pods; call_Stop]
                 (Example.streamer None 0 0))) = 1.
Proof.
  split; [reflexivity|]. split; [left; reflexivity|].
  apply (Stop_calls_OnEnd_exactly_once Example.never_merge Example.clock
           (Example.config None 0 0) (Example.streamer None 0 0)
           [call_Stop; call_Start Example.no_pods; call_Stop]).
  - reflexivity.
  - left. reflexivity.
Defined.

(** C6, as the specification has it, fails: [Start] looks at [stopped]
    only.  On a fresh Streamer a second [Start] returns nil like the first
    and launches the watcher of the namespace a second time. *)
Lemma second_Start_succeeds :
  fst (Start Example.no_pods (Example.streamer (@None unit) 0 0)) = None
  /\ fst (Start Example.no_pods
            (snd (Start Example.no_pods (Example.streamer (@None unit) 0 0))))
     = None
  /\ trace (snd (Start Example.no_pods
                   (snd (Start Example.no_pods
                           (Example.streamer (@None unit) 0 0)))))
     = [ go_supervisor; ListPods "default" ""; go_watcher "default";
         go_supervisor; ListPods "default" ""; go_watcher "default" ].
Proof. repeat split. Qed.

(** C6, amended.  Once [Stop] has been called on a Streamer, [Start]
    returns the permanent error "streamer stopped" and leaves the Streamer
    as it is: nothing is listed and no watcher or follower is launched. *)
Theorem Start_after_Stop_is_refused
  {M : Type} (ShouldMerge : M -> string -> string -> bool * M)
  (clock : nat -> Z) (config : @StreamerConfig M) (s : @Streamer M)
  (calls : list call) (list_pods : Lister) :
  NewStreamer config = inr s ->
  In call_Stop calls ->
  Start list_pods (do_calls ShouldMerge clock calls s)
  = (Some (LogStreamError (errorString "streamer is stopped") true
             "streamer stopped"),
     do_calls ShouldMerge clock calls s).
Proof.
  intros Hnew Hin.
  destruct (NewStreamer_gate config s Hnew) as (G & Honce).
  destruct (do_calls_gate ShouldMerge clock calls s G) as ((Hst & _) & Hs).
  rewrite (existsb_is_Stop calls Hin), orb_true_r in Hs.
  unfold Start. rewrite Hst, Hs. reflexivity.
Qed.

Lemma Start_after_Stop_is_refused_witness :
  NewStreamer (Example.config (@None unit) 0 0)
  = inr (Example.streamer None 0 0)
  /\ In call_Stop [call_Start Example.no_pods; call_Stop]
  /\ Start Example.no_pods
       (do_calls Example.never_merge Example.clock
          [call_Start Example.no_pods; call_Stop]
          (Example.streamer None 0 0))
     = (Some (LogStreamError (errorString "streamer is stopped") true
                "streamer stopped"),
        do_calls Example.never_merge Example.clock
          [call_Start Example.no_pods; call_Stop]
          (Example.streamer None 0 0)).
Proof.
  split; [reflexivity|]. split; [right; left; reflexivity|].
  apply (Start_after_Stop_is_refused Example.never_merge Example.clock
           (Example.config None 0 0) (Example.streamer None 0 0)
           [call_Start Example.no_pods; call_Stop] Example.no_pods).
  - reflexivity.
  - right. left. reflexivity.
Defined.

(* ===================================================================== *)
(** * Strings, white space and the expressions of package matcher        *)
(* ===================================================================== *)



Lemma string_app_nil_r (s : string) : (s ++ "")%string = s.
Proof. induction s as [|c s IH]; simpl; [reflexivity | now rewrite IH]. Qed.

Lemma string_length_app (a b : string) :
  String.length (a ++ b) = String.length a + String.length b.
Proof. induction a as [|c a IH]; simpl; [reflexivity | now rewrite IH]. Qed.

Lemma CutPrefix_spec s p r :
  Go.CutPrefix s p = Some r <-> s = (p ++ r)%string.
Proof.
  revert s. induction p as [|c p IH]; intros s; simpl.
  - split; [intros H; inversion H; reflexivity | intros ->; reflexivity].
  - destruct s as [|d s]; [split; discriminate|].
    destruct (Ascii.eqb d c) eqn:E.
    + apply Ascii.eqb_eq in E. subst d. rewrite IH.
      split; [intros ->; reflexivity | intros H; inversion H; reflexivity].
    + split; [discriminate|]. intros H. inversion H. subst d.
      rewrite Ascii.eqb_refl in E. discriminate.
Qed.

Lemma HasPrefix_spec s p : Go.HasPrefix s p = true <-> starts_with s p.
Proof.
  unfold Go.HasPrefix, starts_with.
  destruct (Go.CutPrefix s p) as [r|] eqn:E.
  - apply CutPrefix_spec in E. split; [exists r; exact E | reflexivity].
  - split; [discriminate|]. intros [r Hr].
    apply CutPrefix_spec in Hr. congruence.
Qed.

Lemma rev_string_app acc s :
  Go.rev_string acc s = (Go.reverse s ++ acc)%string.
Proof.
  unfold Go.reverse. revert acc.
  induction s as [|c s IH]; intros acc; simpl; [reflexivity|].
  rewrite (IH (String c acc)), (IH (String c "")).
  rewrite string_app_assoc. reflexivity.
Qed.

Lemma reverse_cons c s :
  Go.reverse (String c s) = (Go.reverse s ++ String c "")%string.
Proof. unfold Go.reverse at 1. simpl. apply rev_string_app. Qed.

Lemma reverse_app a b :
  Go.reverse (a ++ b) = (Go.reverse b ++ Go.reverse a)%string.
Proof.
  induction a as [|c a IH]; simpl.
  - symmetry. apply string_app_nil_r.
  - rewrite !reverse_cons, IH, string_app_assoc. reflexivity.
Qed.

Lemma reverse_involutive s : Go.reverse (Go.reverse s) = s.
Proof.
  induction s as [|c s IH]; [reflexivity|].
  rewrite reverse_cons, reverse_app, IH. reflexivity.
Qed.

Lemma CutSuffix_spec s p r :
  Go.CutSuffix s p = Some r <-> s = (r ++ p)%string.
Proof.
  unfold Go.CutSuffix.
  destruct (Go.CutPrefix (Go.reverse s) (Go.reverse p)) as [r'|] eqn:E.
  - apply CutPrefix_spec in E.
    assert (Hs : s = (Go.reverse r' ++ p)%string).
    { rewrite <- (reverse_involutive s), E, reverse_app,
        reverse_involutive. reflexivity. }
    split.
    + intros H. inversion H. subst r. exact Hs.
    + intros H. f_equal. rewrite Hs in H.
      assert (Go.reverse (Go.reverse r' ++ p) = Go.reverse (r ++ p))
        by (now rewrite H).
      rewrite !reverse_app, reverse_involutive in H0.
      apply (f_equal (fun x => Go.CutPrefix x (Go.reverse p))) in H0.
      rewrite (proj2 (CutPrefix_spec _ _ r') eq_refl) in H0.
      rewrite (proj2 (CutPrefix_spec _ _ (Go.reverse r)) eq_refl) in H0.
      inversion H0. apply reverse_involutive.
  - split; [discriminate|]. intros H.
    assert (Go.CutPrefix (Go.reverse s) (Go.reverse p)
            = Some (Go.reverse r)).
    { apply CutPrefix_spec. rewrite H. apply reverse_app. }
    congruence.
Qed.

Lemma HasSuffix_spec s p : Go.HasSuffix s p = true <-> ends_with s p.
Proof.
  unfold Go.HasSuffix, ends_with.
  destruct (Go.CutSuffix s p) as [r|] eqn:E.
  - apply CutSuffix_spec in E. split; [exists r; exact E | reflexivity].
  - split; [discriminate|]. intros [r Hr].
    apply CutSuffix_spec in Hr. congruence.
Qed.

(** *** TrimSpace leaves nothing exactly of the white-space-only strings *)

Lemma spaceRunes_nonempty p : In p Go.spaceRunes -> p <> "".
Proof.
  intros H. vm_compute in H.
  repeat (destruct H as [<-|H]; [discriminate|]). contradiction.
Qed.

Lemma first_cut_Some cut ps r :
  Go.first_cut cut ps = Some r -> exists p, In p ps /\ cut p = Some r.
Proof.
  induction ps as [|p ps IH]; simpl; [discriminate|].
  destruct (cut p) as [r'|] eqn:E.
  - intros H. inversion H. subst r'. exists p. split; [now left | exact E].
  - intros H. destruct (IH H) as (q & Hq & Hc).
    exists q. split; [now right | exact Hc].
Qed.

Lemma cutLeadingSpace_Some s r :
  Go.cutLeadingSpace s = Some r ->
  exists p, In p Go.spaceRunes /\ s = (p ++ r)%string.
Proof.
  intros H. apply first_cut_Some in H. destruct H as (p & Hp & Hc).
  exists p. split; [exact Hp | apply CutPrefix_spec; exact Hc].
Qed.

Lemma cutTrailingSpace_Some s r :
  Go.cutTrailingSpace s = Some r ->
  exists p, In p Go.spaceRunes /\ s = (r ++ p)%string.
Proof.
  intros H. apply first_cut_Some in H. destruct H as (p & Hp & Hc).
  exists p. split; [exact Hp | apply CutSuffix_spec; exact Hc].
Qed.

(** No white-space rune is the prefix of another: the first one that
    fits is the one that is there. *)
Lemma cutLeadingSpace_app p r :
  In p Go.spaceRunes -> Go.cutLeadingSpace (p ++ r) = Some r.
Proof.
  intros H. vm_compute in H.
  repeat (destruct H as [<-|H]; [reflexivity|]). contradiction.
Qed.

Lemma trim_leading n : forall s,
  String.length s <= n ->
  exists runes,
    Forall (fun r => In r Go.spaceRunes) runes
    /\ s = (concat_runes runes
            ++ Go.trim_loop Go.cutLeadingSpace n s)%string
    /\ Go.cutLeadingSpace (Go.trim_loop Go.cutLeadingSpace n s) = None.
Proof.
  induction n as [|n IH]; intros s Hlen.
  - destruct s; [|simpl in Hlen; lia].
    exists []. repeat split. constructor.
  - simpl. destruct (Go.cutLeadingSpace s) as [r|] eqn:E.
    + destruct (cutLeadingSpace_Some s r E) as (p & Hp & Hs).
      assert (Hr : String.length r <= n).
      { pose proof (spaceRunes_nonempty p Hp) as Hne.
        rewrite Hs, string_length_app in Hlen.
        destruct p; [congruence | simpl in Hlen; lia]. }
      destruct (IH r Hr) as (runes & Hall & Heq & Hnone).
      exists (p :: runes). split; [constructor; assumption|].
      split; [|exact Hnone].
      simpl. rewrite string_app_assoc, <- Heq. exact Hs.
    + exists []. repeat split; [constructor | exact E].
Qed.

Lemma trim_trailing n : forall s,
  exists runes,
    Forall (fun r => In r Go.spaceRunes) runes
    /\ s = (Go.trim_loop Go.cutTrailingSpace n s
            ++ concat_runes runes)%string.
Proof.
  induction n as [|n IH]; intros s; simpl.
  - exists []. split; [constructor | now rewrite string_app_nil_r].
  - destruct (Go.cutTrailingSpace s) as [r|] eqn:E.
    + destruct (cutTrailingSpace_Some s r E) as (p & Hp & Hs).
      destruct (IH r) as (runes & Hall & Heq).
      exists (runes ++ [p]). split.
      * apply Forall_app. split; [exact Hall | now constructor].
      * rewrite Hs. rewrite Heq at 1. rewrite string_app_assoc.
        f_equal. unfold concat_runes. rewrite fold_right_app. simpl.
        rewrite string_app_nil_r.
        clear. induction runes as [|x l IH]; simpl;
          [reflexivity | now rewrite string_app_assoc, IH].
    + exists []. split; [constructor | now rewrite string_app_nil_r].
Qed.

Lemma trim_leading_whitespace runes : forall n,
  Forall (fun r => In r Go.spaceRunes) runes ->
  List.length runes <= n ->
  Go.trim_loop Go.cutLeadingSpace n (concat_runes runes) = "".
Proof.
  induction runes as [|p runes IH]; intros n Hall Hn.
  - destruct n; reflexivity.
  - destruct n as [|n]; [simpl in Hn; lia|].
    inversion Hall; subst. simpl.
    rewrite cutLeadingSpace_app by assumption.
    apply IH; [assumption | simpl in Hn; lia].
Qed.

Lemma runes_length runes :
  Forall (fun r => In r Go.spaceRunes) runes ->
  List.length runes <= String.length (concat_runes runes).
Proof.
  induction 1 as [|p runes Hp Hall IH]; simpl; [lia|].
  rewrite string_length_app.
  pose proof (spaceRunes_nonempty p Hp).
  destruct p; [congruence | simpl; lia].
Qed.

Lemma TrimSpace_empty_iff s : Go.TrimSpace s = "" <-> whitespace_only s.
Proof.
  unfold Go.TrimSpace, whitespace_only. split.
  - intros H.
    destruct (trim_leading (String.length s) s (le_n _))
      as (runes & Hall & Heq & Hnone).
    set (s1 := Go.trim_loop Go.cutLeadingSpace (String.length s) s) in *.
    destruct (trim_trailing (String.length s1) s1) as (runes' & Hall' & Heq').
    cbv zeta in H. fold s1 in H. rewrite H in Heq'. simpl in Heq'.
    destruct runes' as [|p runes'].
    + exists runes. split; [exact Hall|].
      rewrite Heq, Heq'. simpl. now rewrite string_app_nil_r.
    + inversion Hall' as [|? ? Hp Hrest]. simpl in Heq'.
      rewrite Heq', cutLeadingSpace_app in Hnone by exact Hp.
      discriminate.
  - intros (runes & Hall & ->). cbv zeta.
    rewrite trim_leading_whitespace;
      [reflexivity | exact Hall | apply runes_length; exact Hall].
Qed.

(** *** What the expressions match *)

Lemma matchStar_spec a k s :
  matchStar a k s = true <->
  exists ws rest,
    s = (ws ++ rest)%string
    /\ Forall (fun c => atomMatches a c = true) (list_ascii_of_string ws)
    /\ k rest = true.
Proof.
  split.
  - induction s as [|c s IH]; simpl.
    + rewrite orb_false_r. intros H. exists "", "". repeat split; auto.
    + intros H. apply orb_true_iff in H. destruct H as [H|H].
      * exists "", (String c s). repeat split; auto.
      * apply andb_true_iff in H. destruct H as [Hc Hs].
        destruct (IH Hs) as (ws & rest & -> & Hall & Hk).
        exists (String c ws), rest. repeat split; auto.
        simpl. constructor; assumption.
  - intros (ws & rest & -> & Hall & Hk).
    induction ws as [|c ws IH]; simpl.
    + destruct rest; simpl; rewrite Hk; reflexivity.
    + simpl in Hall. inversion Hall; subst.
      apply orb_true_iff. right. apply andb_true_iff. split; auto.
Qed.

Lemma matchHere_lits atEnd w r s :
  matchHere atEnd (lits w ++ r) s = true <->
  exists rest, s = (w ++ rest)%string /\ matchHere atEnd r rest = true.
Proof.
  unfold lits. revert s. induction w as [|c w IH]; intros s; simpl.
  - split; [intros H; exists s; auto | intros (rest & -> & H); exact H].
  - destruct s as [|d s].
    + split; [discriminate | intros (rest & H & _); discriminate].
    + rewrite andb_true_iff, IH, Ascii.eqb_eq. split.
      * intros (-> & rest & -> & H). exists rest. auto.
      * intros (rest & H & Hm). inversion H; subst. eauto.
Qed.

Lemma matchHere_literal w s :
  matchHere false (lits w) s = true <-> starts_with s w.
Proof.
  rewrite <- (app_nil_r (lits w)), matchHere_lits. unfold starts_with.
  split; [intros (rest & H & _); eauto | intros (rest & H); eauto].
Qed.

Lemma in_class cs c :
  atomMatches (Class false cs) c = true <-> In c cs.
Proof.
  simpl. rewrite existsb_exists. split.
  - intros (d & Hd & E). apply Ascii.eqb_eq in E. now subst.
  - intros H. exists c. split; [exact H | apply Ascii.eqb_refl].
Qed.

(** [^\s+at ]: one or more of tab, newline, form feed, carriage return and
    space, then "at ". *)
Lemma AtRegex_spec next :
  MatchString (matcher.AtRegex matcher.NewJavaStackMatcher) next = true <->
  exists ws,
    ws <> "" /\ all_in perl_space ws /\ starts_with next (ws ++ "at ").
Proof.
  cbn [MatchString matcher.AtRegex matcher.NewJavaStackMatcher MustCompile
       matchPattern anchorStart items anchorEnd matchHere].
  split.
  - destruct next as [|c s]; [discriminate|].
    rewrite andb_true_iff, matchStar_spec.
    intros (Hc & ws & rest & -> & Hall & Hk).
    apply matchHere_literal in Hk. destruct Hk as [tail ->].
    exists (String c ws). split; [discriminate|]. split.
    + unfold all_in. cbn [list_ascii_of_string].
      constructor; [apply in_class; exact Hc|].
      eapply Forall_impl; [|exact Hall]. intros a. apply in_class.
    + exists tail. simpl. now rewrite !string_app_assoc.
  - intros (ws & Hne & Hall & tail & ->).
    destruct ws as [|c ws]; [congruence|].
    unfold all_in in Hall. cbn [list_ascii_of_string] in Hall.
    inversion Hall as [|? ? Hc Hws]; subst.
    cbn [String.append]. rewrite andb_true_iff.
    split; [apply in_class; exact Hc|].
    apply matchStar_spec. exists ws, ("at " ++ tail)%string.
    split; [now rewrite !string_app_assoc|]. split.
    + eapply Forall_impl; [|eassumption]. intros a. apply in_class.
    + apply matchHere_literal. exists tail. reflexivity.
Qed.

Lemma TabIndentationRegex_spec next :
  MatchString (matcher.TabIndentationRegex matcher.NewJavaStackMatcher) next
  = true
  <-> starts_with next (String (Go.byte_of 9) "").
Proof.
  change (MatchString
            (matcher.TabIndentationRegex matcher.NewJavaStackMatcher) next)
    with (matchHere false (lits (String (Go.byte_of 9) "")) next).
  apply matchHere_literal.
Qed.

Lemma CausedByRegex_spec next :
  MatchString (matcher.CausedByRegex matcher.NewJavaStackMatcher) next = true
  <-> starts_with next "Caused by:".
Proof.
  change (MatchString (matcher.CausedByRegex matcher.NewJavaStackMatcher)
            next)
    with (matchHere false (lits "Caused by:") next).
  apply matchHere_literal.
Qed.

(* ===================================================================== *)
(** * C8: the Java stack matcher                                         *)
(* ===================================================================== *)





(** C8, as the specification has it, fails: a line that starts with
    "at " without indentation is not merged. *)
Lemma unindented_at_is_not_merged :
  merge_as_specified "x" "at com.example.A.m(A.java:1)"
  /\ fst (matcher.JavaStackMatcher_ShouldMerge matcher.NewJavaStackMatcher
            "x" "at com.example.A.m(A.java:1)") = false.
Proof.
  split; [|vm_compute; reflexivity].
  split.
  - rewrite <- TrimSpace_empty_iff. vm_compute. discriminate.
  - right. left. exists 0. eexists. reflexivity.
Qed.

Lemma JavaStackMatcher_merges_iff (previous next : string) :
  fst (matcher.JavaStackMatcher_ShouldMerge matcher.NewJavaStackMatcher
         previous next) = true
  <-> merge_as_coded previous next.
Proof.
  unfold matcher.JavaStackMatcher_ShouldMerge, merge_as_coded.
  rewrite <- TrimSpace_empty_iff, <- TabIndentationRegex_spec,
    <- AtRegex_spec, <- CausedByRegex_spec, <- HasSuffix_spec.
  destruct (String.eqb_spec (Go.TrimSpace next) "") as [Hws|Hws].
  - simpl. split; [discriminate | intros [H _]; contradiction].
  - repeat match goal with
           | |- context [if ?b then _ else _] =>
               destruct b; simpl; [tauto|]
           end.
    split; [discriminate|].
    intros [_ [H|[H|[H|H]]]]; discriminate.
Qed.

(** An empty or white-space-only [next] is never merged. *)
Lemma JavaStackMatcher_keeps_blank_lines_apart (previous next : string) :
  whitespace_only next ->
  fst (matcher.JavaStackMatcher_ShouldMerge matcher.NewJavaStackMatcher
         previous next) = false.
Proof.
  intros Hws. apply not_true_is_false. intros E.
  apply JavaStackMatcher_merges_iff in E.
  destruct E as [Hn _]. contradiction.
Qed.

(** C8, amended.  [ShouldMerge] of the Java stack matcher returns true
    exactly when [next] is not white space only and starts with a tab, or
    with one or more characters of [\s] and then "at ", or with
    "Caused by:", or the trimmed [previous] ends with a backslash.  So it
    returns false whenever [next] is empty or white space only. *)
Theorem JavaStackMatcher_ShouldMerge_spec (previous next : string) :
  fst (matcher.JavaStackMatcher_ShouldMerge matcher.NewJavaStackMatcher
         previous next) = true
  <-> merge_as_coded previous next.
Proof. apply JavaStackMatcher_merges_iff. Qed.

(* ===================================================================== *)
(** * C9: are the shipped predicates pure?                               *)
(* ===================================================================== *)



(** C9, as the specification has it, fails for the JSON matcher: after a
    call whose [previous] opens a brace, the pair ("a", "b") is merged; on
    a new matcher it is not. *)
Lemma JSONMatcher_depends_on_earlier_calls :
  fst (matcher.JSONMatcher_ShouldMerge
         (calls_after matcher.JSONMatcher_ShouldMerge []
            matcher.NewJSONMatcher) "a" "b") = false
  /\ fst (matcher.JSONMatcher_ShouldMerge
            (calls_after matcher.JSONMatcher_ShouldMerge [("{", "a")]
               matcher.NewJSONMatcher) "a" "b") = true
  /\ ~ pure_predicate matcher.JSONMatcher_ShouldMerge matcher.NewJSONMatcher.
Proof.
  split; [vm_compute; reflexivity|]. split; [vm_compute; reflexivity|].
  intros Hpure. specialize (Hpure [] [("{", "a")] "a" "b").
  vm_compute in Hpure. discriminate.
Qed.

Lemma JavaStackMatcher_unchanged m previous next :
  snd (matcher.JavaStackMatcher_ShouldMerge m previous next) = m.
Proof.
  unfold matcher.JavaStackMatcher_ShouldMerge.
  repeat match goal with
         | |- context [if ?b then _ else _] => destruct b
         end; reflexivity.
Qed.

Lemma JavaStackMatcher_calls_after history : forall m,
  calls_after matcher.JavaStackMatcher_ShouldMerge history m = m.
Proof.
  induction history as [|call history IH]; intros m; simpl;
    [reflexivity|].
  rewrite JavaStackMatcher_unchanged. apply IH.
Qed.

(** A call of the JSON matcher changes nothing but the bracket count. *)
Lemma JSONMatcher_changes_count_only m previous next :
  exists n,
    snd (matcher.JSONMatcher_ShouldMerge m previous next)
    = matcher.setBracketCount m n.
Proof.
  unfold matcher.JSONMatcher_ShouldMerge.
  destruct (Go.HasSuffix _ _);
    [exists (matcher.BracketCount m); destruct m; reflexivity|].
  destruct (negb (matcher.BracketMode m));
    [exists (matcher.BracketCount m); destruct m; reflexivity|].
  cbv zeta.
  destruct (MatchString (matcher.StartObjectRegex m) previous
            && (matcher.BracketCount m =? 0)%Z);
    match goal with
    | |- context [if ?b then _ else _] => destruct b
    end; eexists; reflexivity.
Qed.

Lemma JSONMatcher_calls_after history : forall m,
  exists n,
    calls_after matcher.JSONMatcher_ShouldMerge history m
    = matcher.setBracketCount m n.
Proof.
  induction history as [|call history IH]; intros m; simpl.
  - exists (matcher.BracketCount m). destruct m; reflexivity.
  - destruct (JSONMatcher_changes_count_only m (fst call) (snd call))
      as [n Hn].
    rewrite Hn. destruct (IH (matcher.setBracketCount m n)) as [n' Hn'].
    exists n'. rewrite Hn'. reflexivity.
Qed.

(** C9, amended.  The Java stack matcher is pure: a call leaves the
    matcher as it was, and its result is the same after any history of
    calls.  The JSON matcher is not; what is true of it is that the result
    of a call is determined by [previous] and by the bracket count that
    the earlier calls have left ([next] is not looked at). *)
Theorem shipped_matchers_purity :
  (forall m : matcher.JavaStackMatcher,
     pure_predicate matcher.JavaStackMatcher_ShouldMerge m)
  /\ (forall (m : matcher.JSONMatcher) history1 history2
             previous next1 next2,
        matcher.BracketCount
          (calls_after matcher.JSONMatcher_ShouldMerge history1 m)
        = matcher.BracketCount
            (calls_after matcher.JSONMatcher_ShouldMerge history2 m) ->
        fst (matcher.JSONMatcher_ShouldMerge
               (calls_after matcher.JSONMatcher_ShouldMerge history1 m)
               previous next1)
        = fst (matcher.JSONMatcher_ShouldMerge
                 (calls_after matcher.JSONMatcher_ShouldMerge history2 m)
                 previous next2)).
Proof.
  split.
  - intros m history1 history2 previous next.
    rewrite !JavaStackMatcher_calls_after. reflexivity.
  - intros m history1 history2 previous next1 next2.
    destruct (JSONMatcher_calls_after history1 m) as [n1 ->].
    destruct (JSONMatcher_calls_after history2 m) as [n2 ->].
    simpl. intros ->. reflexivity.
Qed.

(* ===================================================================== *)
(** * Further properties: the line scanner                               *)
(* ===================================================================== *)

Lemma index_newline_None buf : forall i,
  index_newline buf i = None <-> ~ In newline buf.
Proof.
  induction buf as [|b buf IH]; intros i; simpl.
  - split; [intros _ [] | reflexivity].
  - destruct (Byte.eqb b newline) eqn:E.
    + apply Byte.byte_dec_bl in E. subst b.
      split; [discriminate | intros H; exfalso; apply H; now left].
    + rewrite IH. split.
      * intros H [Hb|Hin]; [|contradiction].
        subst b. cbv in E. discriminate.
      * intros H Hin. apply H. now right.
Qed.

Lemma index_newline_Some buf : forall i j,
  index_newline buf i = Some j ->
  i <= j /\ ~ In newline (firstn (j - i) buf)
  /\ nth_error buf (j - i) = Some newline.
Proof.
  induction buf as [|b buf IH]; intros i j; simpl; [discriminate|].
  destruct (Byte.eqb b newline) eqn:E.
  - intros H. inversion H. subst j. rewrite Nat.sub_diag.
    apply Byte.byte_dec_bl in E. subst b. simpl. repeat split; auto.
  - intros H. destruct (IH (S i) j H) as (Hle & Hnot & Hnth).
    split; [lia|].
    replace (j - i) with (S (j - S i)) by lia. simpl. split; [|exact Hnth].
    intros [Hb|Hin]; [|contradiction].
    subst b. cbv in E. discriminate.
Qed.

Lemma Scan_loop_token_no_newline s r : forall tok s',
  ~ In newline tok ->
  Scan_loop s r tok = (true, s') ->
  ~ In newline (token s').
Proof.
  assert (Hturn : forall res rest tok s',
            ~ In newline tok ->
            Scan_turn s res rest tok = Return true s' ->
            ~ In newline (token s')).
  { intros [buf e] rest tok s' Htok. unfold Scan_turn.
    destruct (index_newline buf 0) as [i|] eqn:Hi.
    - intros H. inversion H. subst s'. simpl.
      apply index_newline_Some in Hi. destruct Hi as (_ & Hnot & _).
      rewrite Nat.sub_0_r in Hnot. rewrite in_app_iff. tauto.
    - apply index_newline_None in Hi. destruct e as [e'|]; [|discriminate].
      destruct (is_EOF e' && negb (Nat.eqb (List.length (tok ++ buf)) 0));
        intros H; inversion H. subst s'. simpl.
      rewrite in_app_iff. tauto. }
  induction r as [|res rest IH]; intros tok s' Htok;
    cbn [Scan_loop Read fst snd].
  - destruct (Scan_turn s ([], Some io_EOF) [] tok) as [found s1|t] eqn:E;
      [|discriminate].
    intros H. inversion H. subst. eapply Hturn; eassumption.
  - destruct (Scan_turn s res rest tok) as [found s1|t] eqn:E.
    + intros H. inversion H. subst. eapply Hturn; eassumption.
    + apply IH. destruct res as [buf e]. unfold Scan_turn in E.
      destruct (index_newline buf 0) eqn:Hi; [discriminate|].
      apply index_newline_None in Hi.
      destruct e as [e'|]; [destruct (_ && _); discriminate|].
      inversion E. rewrite in_app_iff. tauto.
Qed.

Lemma scan_states_no_newline sc :
  Forall (fun sc' => ~ In newline (token sc')) (scan_states sc).
Proof.
  remember (List.length (reader sc)) as n eqn:Hn.
  revert sc Hn. induction n as [n IH] using lt_wf_ind; intros sc Hn.
  rewrite scan_states_eq. destruct (Scan sc) as [[|] sc'] eqn:HS;
    [|constructor].
  constructor.
  - unfold Scan in HS. destruct (err sc); [discriminate|].
    eapply Scan_loop_token_no_newline; [|exact HS]. intros [].
  - apply (IH (List.length (reader sc'))); [|reflexivity].
    subst n. apply Scan_consumes. exact HS.
Qed.

(** X1.  No line that the scanner yields holds a newline, however the
    reader cuts the stream and whatever error ends it. *)
Theorem scanned_lines_hold_no_newline (stream : Reader) :
  Forall (fun l => ~ In newline l) (scanned_lines stream).
Proof.
  unfold scanned_lines. apply Forall_map. apply scan_states_no_newline.
Qed.

(** *** Readers that end every line with the end of a Read *)

Lemma scan_end_eq sc :
  scan_end sc
  = match Scan sc with
    | (true, sc') => scan_end sc'
    | (false, sc') => sc'
    end.
Proof.
  unfold scan_end at 1. rewrite scan_for_eq.
  destruct (Scan sc) as [[|] sc']; reflexivity.
Qed.

Lemma split_lines_no_newline buf : forall cur src,
  ~ In newline buf ->
  split_lines cur (buf ++ src) = split_lines (cur ++ buf) src.
Proof.
  induction buf as [|b buf IH]; intros cur src Hnot; simpl.
  - now rewrite app_nil_r.
  - destruct (Byte.eqb b newline) eqn:E.
    + apply Byte.byte_dec_bl in E. subst b. exfalso. apply Hnot. now left.
    + rewrite IH by (intros H; apply Hnot; now right).
      rewrite <- app_assoc. reflexivity.
Qed.

Lemma split_last_newline (buf : list byte) i :
  index_newline buf 0 = Some i ->
  ~ In newline (removelast buf) ->
  buf = firstn i buf ++ [newline].
Proof.
  intros Hi Hnot. apply index_newline_Some in Hi.
  destruct Hi as (_ & Hfirst & Hnth). rewrite Nat.sub_0_r in *.
  destruct (exists_last (l := buf)) as (front & last & Hbuf).
  { intros ->. destruct i; discriminate. }
  subst buf. rewrite removelast_last in Hnot.
  assert (Hi : i = List.length front).
  { destruct (Nat.lt_ge_cases i (List.length front)) as [Hlt|Hge].
    - rewrite nth_error_app1 in Hnth by exact Hlt.
      apply nth_error_In in Hnth. contradiction.
    - assert (i < List.length (front ++ [last]))
        by (apply nth_error_Some; congruence).
      rewrite length_app in H. simpl in H. lia. }
  subst i. rewrite nth_error_app2, Nat.sub_diag in Hnth by lia.
  simpl in Hnth. inversion Hnth. subst last.
  rewrite firstn_app, firstn_all, Nat.sub_diag. simpl.
  now rewrite app_nil_r.
Qed.

Lemma Scan_loop_lines s r : forall tok,
  err s = None ->
  newlines_end_reads r ->
  (let '(found, s') := Scan_loop s r tok in
   if found then token s' :: map token (scan_states s') else [])
  = split_lines tok (source_bytes r).
Proof.
  remember (List.length r) as n eqn:Hn. revert s r Hn.
  induction n as [n IH] using lt_wf_ind; intros s r Hn tok Herr Hgood.
  destruct r as [|[buf e] rest]; simpl.
  - rewrite app_nil_r. destruct tok as [|b tok]; simpl; [reflexivity|].
    rewrite scan_states_eq. reflexivity.
  - inversion Hgood as [|? ? [He Hlast] Hrest]; subst. simpl in He, Hlast.
    subst e. unfold source_bytes. simpl.
    fold (source_bytes rest).
    destruct (index_newline buf 0) as [i|] eqn:Hi.
    + replace (split_lines tok (buf ++ source_bytes rest))
        with (split_lines tok
                ((firstn i buf ++ [newline]) ++ source_bytes rest))
        by (rewrite <- (split_last_newline buf i Hi Hlast); reflexivity).
      rewrite <- app_assoc. simpl.
      rewrite split_lines_no_newline.
      2:{ apply index_newline_Some in Hi. destruct Hi as (_ & H & _).
          now rewrite Nat.sub_0_r in H. }
      simpl. f_equal.
      rewrite scan_states_eq. unfold Scan at 1. simpl. rewrite Herr.
      specialize (IH (List.length rest) ltac:(simpl; lia)
                    {| reader := rest; token := tok ++ firstn i buf;
                       err := None |} rest eq_refl [] eq_refl Hrest).
      destruct (Scan_loop _ rest []) as [[|] s'']; exact IH.
    + apply index_newline_None in Hi.
      rewrite split_lines_no_newline by exact Hi.
      apply (IH (List.length rest)); [simpl; lia | reflexivity
                                     | exact Herr | exact Hrest].
Qed.

(** X2.  When every [Read] succeeds and a newline is only ever the last
    byte of what a [Read] returns, the scanner yields exactly the lines of
    the source, wherever else the reads cut it. *)
Theorem scanner_yields_lines_when_newlines_end_reads (stream : Reader) :
  newlines_end_reads stream ->
  scanned_lines stream = source_lines (source_bytes stream).
Proof.
  intros Hgood. unfold scanned_lines, source_lines.
  rewrite scan_states_eq. unfold Scan. simpl.
  pose proof (Scan_loop_lines (NewScanner stream) stream [] eq_refl Hgood)
    as H.
  destruct (Scan_loop (NewScanner stream) stream []) as [[|] s']; exact H.
Qed.

Lemma scanner_yields_lines_when_newlines_end_reads_witness :
  newlines_end_reads Example.cut_reads
  /\ scanned_lines Example.cut_reads
     = source_lines (source_bytes Example.cut_reads).
Proof.
  assert (H : newlines_end_reads Example.cut_reads).
  { repeat constructor; simpl; intros H;
      repeat (destruct H as [H|H]; [discriminate|]); exact H. }
  split; [exact H|].
  apply (scanner_yields_lines_when_newlines_end_reads Example.cut_reads H).
Defined.

(** *** A read that fails *)

Lemma scan_whole_lines_then_failure (ls : list (list byte)) buf e rest :
  Forall (fun l => ~ In newline l) ls ->
  ~ In newline buf ->
  is_EOF e = false ->
  forall tok,
    let sc := {| reader := map (fun l => (l ++ [newline], None)) ls
                           ++ (buf, Some e) :: rest;
                 token := tok; err := None |} in
    map token (scan_states sc) = ls /\ Err (scan_end sc) = Some e.
Proof.
  intros Hall Hbuf He.
  induction ls as [|l ls IH]; intros tok sc; subst sc.
  - rewrite scan_states_eq, scan_end_eq. unfold Scan. cbn [err reader app map].
    cbn [Scan_loop]. unfold Scan_turn.
    rewrite (proj2 (index_newline_None buf 0) Hbuf). rewrite He.
    cbn [andb]. split; [reflexivity|].
    unfold Err. cbn [err]. rewrite He. reflexivity.
  - inversion Hall as [|? ? Hl Hls]; subst.
    rewrite scan_states_eq, scan_end_eq. cbn [map app].
    rewrite Scan_whole_line by exact Hl.
    destruct (IH Hls l) as [H1 H2]. cbn zeta in H1, H2.
    split; [cbn [map token]; f_equal; exact H1 | exact H2].
Qed.

Section ReadErrors.

Context {M : Type}.
Variable ShouldMerge : M -> string -> string -> bool * M.
Variable clock : nat -> Z.
Variables podName containerName namespace : string.

(** What [processLogStream] returns at the end of a stream depends on the
    error of the scanner alone. *)
Lemma processLogStream_result stream (s : @Streamer M) :
  fst (fst (processLogStream ShouldMerge clock stream podName containerName
              namespace None s))
  = match Err (scan_end (NewScanner stream)) with
    | Some e =>
        if IsPodDeletedError (Some e) then None
        else Some (LogStreamError e false "log stream read error")
    | None => None
    end.
Proof.
  assert (Hafter : forall sc (s' : @Streamer M),
            fst (after_scan sc podName s')
            = match Err sc with
              | Some e =>
                  if IsPodDeletedError (Some e) then None
                  else Some (LogStreamError e false "log stream read error")
              | None => None
              end).
  { intros sc s'. unfold after_scan. destruct (Err sc) as [e|]; [|reflexivity].
    destruct (IsPodDeletedError (Some e)); reflexivity. }
  destruct (matcher s) as [m|] eqn:Hm.
  - destruct (processLogStream_multi ShouldMerge clock podName containerName
                namespace stream s m Hm) as [m' H].
    rewrite H. cbn [fst]. apply Hafter.
  - rewrite (processLogStream_single ShouldMerge clock podName containerName
               namespace stream s Hm).
    cbn [fst]. apply Hafter.
Qed.

End ReadErrors.

(** X3.  When a [Read] fails with an error other than [io.EOF] after some
    bytes of an unfinished line, those bytes are dropped: the scanner has
    yielded the whole lines before them and nothing else.  The error comes
    back from [processLogStream] as a transient "log stream read error",
    unless it is of the pod-gone class, and is not lost. *)
Theorem read_error_drops_unfinished_line
  {M : Type} (ShouldMerge : M -> string -> string -> bool * M)
  (clock : nat -> Z) (podName containerName namespace : string)
  (s : @Streamer M) (ls : list (list byte)) (buf : list byte) (e : error)
  (rest : Reader) :
  Forall (fun l => ~ In newline l) ls ->
  ~ In newline buf ->
  is_EOF e = false ->
  let stream := map (fun l => (l ++ [newline], None)) ls
                ++ (buf, Some e) :: rest in
  scanned_lines stream = ls
  /\ fst (fst (processLogStream ShouldMerge clock stream podName
                 containerName namespace None s))
     = (if IsPodDeletedError (Some e) then None
        else Some (LogStreamError e false "log stream read error")).
Proof.
  intros Hall Hbuf He stream.
  destruct (scan_whole_lines_then_failure ls buf e rest Hall Hbuf He [])
    as [H1 H2].
  split; [exact H1|].
  rewrite processLogStream_result. unfold NewScanner. fold stream in H2.
  rewrite H2. reflexivity.
Qed.

Lemma read_error_drops_unfinished_line_witness :
  Forall (fun l => ~ In newline l) [list_byte_of_string "a"]
  /\ ~ In newline (list_byte_of_string "part")
  /\ is_EOF (errorString "connection reset") = false
  /\ scanned_lines Example.failing_reads = [list_byte_of_string "a"]
  /\ fst (fst (processLogStream Example.never_merge Example.clock
                 Example.failing_reads "pod" "app" "default" None
                 (Example.streamer None 0 0)))
     = Some (LogStreamError (errorString "connection reset") false
               "log stream read error").
Proof.
  assert (H1 : Forall (fun l => ~ In newline l) [list_byte_of_string "a"]).
  { repeat constructor. simpl. intros [H|H]; [discriminate | exact H]. }
  assert (H2 : ~ In newline (list_byte_of_string "part")).
  { simpl. intros H.
    repeat (destruct H as [H|H]; [discriminate|]). exact H. }
  split; [exact H1|]. split; [exact H2|]. split; [reflexivity|].
  apply (read_error_drops_unfinished_line Example.never_merge Example.clock
           "pod" "app" "default" (Example.streamer None 0 0)
           [list_byte_of_string "a"] (list_byte_of_string "part")
           (errorString "connection reset") [] H1 H2 eq_refl).
Defined.

(* ===================================================================== *)
(** * Further properties: the two processors                             *)
(* ===================================================================== *)

Section ProcessorFrames.

Context {M : Type}.
Variable ShouldMerge : M -> string -> string -> bool * M.
Variable clock : nat -> Z.
Variables podName containerName namespace : string.

Implicit Types s : @Streamer M.

Local Abbreviation only_ :=
  (delivered_only namespace podName containerName).

Lemma grows_by_refl P s : grows_by P s s.
Proof. exists []. split; [now rewrite app_nil_r | constructor]. Qed.

Lemma grows_by_trans P s1 s2 s3 :
  grows_by P s1 s2 -> grows_by P s2 s3 -> grows_by P s1 s3.
Proof.
  intros (n1 & H1 & F1) (n2 & H2 & F2). exists (n1 ++ n2). split.
  - rewrite H2, H1, app_assoc. reflexivity.
  - apply Forall_app. split; assumption.
Qed.

Lemma grows_by_emit (P : event -> Prop) e s : P e -> grows_by P s (emit e s).
Proof. intros H. exists [e]. split; [reflexivity | now constructor]. Qed.

Lemma same_settings_refl s : same_settings s s.
Proof. repeat split; auto. Qed.

Lemma same_settings_trans s1 s2 s3 :
  same_settings s1 s2 -> same_settings s2 s3 -> same_settings s1 s3.
Proof.
  intros (A1 & A2 & A3 & A4 & A5) (B1 & B2 & B3 & B4 & B5).
  repeat split; try congruence; intros H; [apply A5, B5 | apply B5, A5];
    exact H.
Qed.

Lemma delivered_only_refl s : only_ s s.
Proof.
  split; [apply grows_by_refl|]. split; [apply same_settings_refl|].
  repeat split. apply incl_refl.
Qed.

Lemma delivered_only_trans s1 s2 s3 : only_ s1 s2 -> only_ s2 s3 -> only_ s1 s3.
Proof.
  intros (G1 & S1 & A1 & B1 & C1 & D1 & I1) (G2 & S2 & A2 & B2 & C2 & D2 & I2).
  split; [eapply grows_by_trans; eassumption|].
  split; [eapply same_settings_trans; eassumption|].
  repeat split; try congruence. eapply incl_tran; eassumption.
Qed.

Lemma delivered_only_record s timestamp message raw :
  only_ s (emit (OnLog {| Namespace := namespace; PodName := podName;
                          ContainerName := containerName;
                          Timestamp := timestamp; Message := message;
                          Raw := raw |})
             (snd (time_Now clock s))).
Proof.
  split.
  - eexists. split; [reflexivity|].
    constructor; [|constructor]. eexists. repeat split.
  - split; [repeat split; auto|]. repeat split. apply incl_refl.
Qed.

Lemma delivered_only_single_line sc s0 s :
  only_ s0 s ->
  only_ s0 (single_line clock podName containerName namespace sc s).
Proof.
  intros H. unfold single_line. destruct (excluded s (Text sc)); [exact H|].
  eapply delivered_only_trans; [exact H|]. apply delivered_only_record.
Qed.

Lemma delivered_only_flush p s0 s :
  only_ s0 s ->
  only_ s0 (snd (flush clock podName containerName namespace p s)).
Proof.
  intros H. unfold flush. destruct (buffer p) as [|first others]; [exact H|].
  destruct (excluded s _); [exact H|].
  eapply delivered_only_trans; [exact H|]. apply delivered_only_record.
Qed.

Lemma delivered_only_ShouldMerge previous next s0 s :
  only_ s0 s ->
  only_ s0 (snd (matcher_ShouldMerge ShouldMerge previous next s)).
Proof.
  intros H. unfold matcher_ShouldMerge.
  destruct (matcher s) as [m|] eqn:Hm; [|exact H].
  destruct (ShouldMerge m previous next) as [b m']. cbn [snd].
  eapply delivered_only_trans; [exact H|].
  split; [exists []; split; [symmetry; apply app_nil_r | constructor]|].
  split.
  - repeat split; auto; cbn [matcher set_matcher]; intros Hn; congruence.
  - repeat split. apply incl_refl.
Qed.

Lemma delivered_only_multi_line sc s0 st :
  only_ s0 (snd st) ->
  only_ s0 (snd (multi_line ShouldMerge clock podName containerName
                   namespace sc st)).
Proof.
  destruct st as [p s]. cbn [snd]. intros H. unfold multi_line.
  destruct (Nat.eqb _ 0); [exact H|].
  pose proof (delivered_only_ShouldMerge (lastLine p) (Text sc) s0 s H) as Hm.
  destruct (matcher_ShouldMerge ShouldMerge (lastLine p) (Text sc) s)
    as [[|] s1]; cbn [snd] in Hm.
  - destruct (_ >=? _)%Z; [apply delivered_only_flush; exact Hm | exact Hm].
  - pose proof (delivered_only_flush p s0 s1 Hm) as Hf.
    destruct (flush clock podName containerName namespace p s1) as [p' s2].
    exact Hf.
Qed.

Lemma delivered_only_after_scan sc s0 s :
  only_ s0 s -> only_ s0 (snd (after_scan sc podName s)).
Proof.
  intros H. unfold after_scan. destruct (Err sc) as [e|]; [|exact H].
  destruct (IsPodDeletedError (Some e)).
  - eapply delivered_only_trans; [exact H|].
    split; [exists []; split; [symmetry; apply app_nil_r | constructor]|].
    split; [repeat split; auto|].
    repeat split. unfold active_Delete. cbn [active set_active].
    intros x Hx. apply filter_In in Hx. tauto.
  - destruct (isPermError (Some e)); exact H.
Qed.

Lemma delivered_only_processLogStream stream ctx s0 s :
  only_ s0 s ->
  only_ s0 (snd (processLogStream ShouldMerge clock stream podName
                   containerName namespace ctx s)).
Proof.
  intros H. unfold processLogStream. destruct (matcher s) as [m|].
  - unfold processMultilineLogStream.
    pose proof (scan_for_invariant (fun st => only_ s0 (snd st))
                  (multi_line ShouldMerge clock podName containerName
                     namespace)
                  (fun sc st => delivered_only_multi_line sc s0 st)
                  (NewScanner stream) ctx (no_pending, s) H) as Hloop.
    destruct (scan_for _ (NewScanner stream) ctx (no_pending, s))
      as [[[ex sc'] ctx'] [p' s']].
    cbn [snd] in Hloop. destruct ex; [|exact Hloop].
    pose proof (delivered_only_flush p' s0 s' Hloop) as Hf.
    destruct (flush clock podName containerName namespace p' s')
      as [p'' s''].
    cbn [snd] in Hf. pose proof (delivered_only_after_scan sc' s0 s'' Hf) as Ha.
    destruct (after_scan sc' podName s'') as [e s3]. exact Ha.
  - pose proof (scan_for_invariant (fun st => only_ s0 st)
                  (single_line clock podName containerName namespace)
                  (fun sc st => delivered_only_single_line sc s0 st)
                  (NewScanner stream) ctx s H) as Hloop.
    destruct (scan_for _ (NewScanner stream) ctx s)
      as [[[ex sc'] ctx'] s'].
    cbn [snd] in Hloop. destruct ex; [|exact Hloop].
    pose proof (delivered_only_after_scan sc' s0 s' Hloop) as Ha.
    destruct (after_scan sc' podName s') as [e s3]. exact Ha.
Qed.

End ProcessorFrames.

(** X4.  Whatever the stream and whenever it is cancelled,
    [processLogStream] does nothing to the outside but hand records to
    [OnLog], each with the namespace, pod and container it was called
    for: it never calls [OnError] or [OnEnd] (read errors are returned),
    keeps the configuration, the stop flags and the wait group, and adds
    no pod to the active set. *)
Theorem processLogStream_only_delivers_its_records
  {M : Type} (ShouldMerge : M -> string -> string -> bool * M)
  (clock : nat -> Z) (stream : Reader)
  (podName containerName namespace : string) (ctx : signal)
  (s : @Streamer M) :
  delivered_only namespace podName containerName s
    (snd (processLogStream ShouldMerge clock stream podName containerName
            namespace ctx s)).
Proof.
  apply delivered_only_processLogStream. apply delivered_only_refl.
Qed.

(** *** Cancellation *)

Lemma scan_for_cancelled {St : Type} (body : scanner -> St -> St) sc :
  forall k st,
    let scs := scan_states sc in
    if Nat.ltb k (List.length scs)
    then exists sc',
           scan_for body sc (Some k) st
           = (Cancelled, sc', Some 0,
              fold_left (fun a x => body x a) (firstn k scs) st)
    else scan_for body sc (Some k) st
         = (Exhausted, scan_end sc, Some (k - List.length scs),
            fold_left (fun a x => body x a) scs st).
Proof.
  remember (List.length (reader sc)) as n eqn:Hn. revert sc Hn.
  induction n as [n IH] using lt_wf_ind; intros sc Hn k st. cbv zeta.
  rewrite scan_states_eq, scan_end_eq, scan_for_eq.
  destruct (Scan sc) as [[|] sc1] eqn:HS.
  - destruct k as [|k]; cbn [stop_requested].
    + cbn [List.length Nat.ltb Nat.leb firstn fold_left]. eexists. reflexivity.
    + specialize (IH (List.length (reader sc1))
                    ltac:(subst n; apply Scan_consumes; exact HS)
                    sc1 eq_refl k (body sc1 st)).
      cbv zeta in IH. cbn [List.length firstn fold_left].
      change (Nat.ltb (S k) (S (List.length (scan_states sc1))))
        with (Nat.ltb k (List.length (scan_states sc1))).
      destruct (Nat.ltb k (List.length (scan_states sc1))); exact IH.
  - cbn [List.length Nat.ltb Nat.leb fold_left]. rewrite Nat.sub_0_r.
    reflexivity.
Qed.

Section Cancellation.

Context {M : Type}.
Variable ShouldMerge : M -> string -> string -> bool * M.
Variable clock : nat -> Z.
Variables podName containerName namespace : string.

Local Abbreviation flush_ := (flush clock podName containerName namespace).
Local Abbreviation multi_line_ :=
  (multi_line ShouldMerge clock podName containerName namespace).
Local Abbreviation deliver_ := (deliver clock podName containerName namespace).

Lemma reassemble_open_close max lines : forall m cur last,
  reassemble ShouldMerge max m cur last lines
  = fst (reassemble_open ShouldMerge max m cur last lines)
    ++ match snd (reassemble_open ShouldMerge max m cur last lines) with
       | [] => []
       | pending => [pending]
       end.
Proof.
  induction lines as [|l rest IH]; intros m cur last; simpl.
  - destruct cur; reflexivity.
  - destruct cur as [|c0 cur'].
    + apply IH.
    + destruct (ShouldMerge m last (string_of_list_byte l)) as [[|] m'].
      * destruct (Z.of_nat _ >=? max)%Z.
        -- rewrite IH. destruct (reassemble_open _ _ _ _ _ rest).
           reflexivity.
        -- apply IH.
      * rewrite IH. destruct (reassemble_open _ _ _ _ _ rest). reflexivity.
Qed.

Lemma reassemble_open_concat max lines : forall m cur last,
  List.concat (fst (reassemble_open ShouldMerge max m cur last lines))
  ++ snd (reassemble_open ShouldMerge max m cur last lines)
  = cur ++ lines.
Proof.
  induction lines as [|l rest IH]; intros m cur last; simpl.
  - now rewrite app_nil_r.
  - destruct cur as [|c0 cur'].
    + rewrite IH. reflexivity.
    + destruct (ShouldMerge m last (string_of_list_byte l)) as [[|] m'].
      * destruct (Z.of_nat _ >=? max)%Z.
        -- specialize (IH m' [] (string_of_list_byte l)).
           destruct (reassemble_open _ _ _ _ _ rest) as [runs pending].
           simpl in *. rewrite <- !app_assoc, IH. reflexivity.
        -- rewrite IH. simpl. rewrite <- app_assoc. reflexivity.
      * specialize (IH m' [l] (string_of_list_byte l)).
        destruct (reassemble_open _ _ _ _ _ rest) as [runs pending].
        simpl in *. rewrite <- !app_assoc, IH. reflexivity.
Qed.

(** The multi-line loop, before any last flush: the flushed runs have been
    delivered and the pending run is in the buffer. *)
Lemma multi_line_fold_open scs : forall p (s : @Streamer M) m,
  matcher s = Some m ->
  buffer p = map string_of_list_byte (rawBuffer p) ->
  exists m',
    let '(p', s') := fold_left (fun a x => multi_line_ x a) scs (p, s) in
    s' = set_matcher (Some m')
           (fold_left deliver_
              (fst (reassemble_open ShouldMerge (maxMultilines s) m
                      (rawBuffer p) (lastLine p) (map token scs))) s)
    /\ rawBuffer p'
       = snd (reassemble_open ShouldMerge (maxMultilines s) m
                (rawBuffer p) (lastLine p) (map token scs))
    /\ buffer p' = map string_of_list_byte (rawBuffer p').
Proof.
  induction scs as [|sc scs IH]; intros p s m Hm Hbuf.
  - exists m. simpl. rewrite <- Hm, set_matcher_same. auto.
  - cbn [fold_left map].
    unfold multi_line at 2. cbn iota beta. unfold Text, Bytes.
    assert (Happ : buffer (append_line p (string_of_list_byte (token sc))
                             (token sc))
                   = map string_of_list_byte
                       (rawBuffer (append_line p
                                     (string_of_list_byte (token sc))
                                     (token sc)))).
    { unfold append_line; simpl. rewrite Hbuf, map_app. reflexivity. }
    destruct (rawBuffer p) as [|r l] eqn:Hraw.
    + rewrite Hbuf. cbn [map List.length Nat.eqb].
      destruct (IH (append_line p (string_of_list_byte (token sc))
                      (token sc)) s m Hm Happ) as [m' Hm'].
      exists m'. destruct (fold_left _ scs _) as [p' s'].
      unfold append_line in Hm'; simpl in Hm'.
      rewrite Hraw in Hm'. exact Hm'.
    + assert (Hlen : Nat.eqb (List.length (buffer p)) 0 = false)
        by (rewrite Hbuf; reflexivity).
      rewrite Hlen. unfold matcher_ShouldMerge. rewrite Hm.
      cbn [reassemble_open].
      destruct (ShouldMerge m (lastLine p) (string_of_list_byte (token sc)))
        as [merge m1].
      destruct merge.
      * replace (List.length
                   (buffer (append_line p (string_of_list_byte (token sc))
                              (token sc))))
          with (List.length ((r :: l) ++ [token sc]))
          by (rewrite Happ, length_map; unfold append_line; simpl;
              rewrite Hraw; reflexivity).
        cbn [maxMultilines set_matcher].
        destruct (Z.of_nat (List.length ((r :: l) ++ [token sc]))
                  >=? maxMultilines s)%Z.
        -- rewrite flush_deliver; [|exact Happ|].
           2:{ unfold append_line; simpl. rewrite Hraw. discriminate. }
           destruct (IH (reset (append_line p
                                  (string_of_list_byte (token sc))
                                  (token sc)))
                       (deliver_ (set_matcher (Some m1) s)
                          (rawBuffer (append_line p
                                        (string_of_list_byte (token sc))
                                        (token sc))))
                       m1) as [m' Hm'].
           { rewrite deliver_set_matcher. reflexivity. }
           { reflexivity. }
           exists m'.
           destruct (fold_left _ scs _) as [p' s'].
           rewrite deliver_set_matcher in Hm'.
           destruct (deliver_frame clock podName containerName namespace s
                       ((r :: l) ++ [token sc])) as (_ & _ & _ & Hmax & _).
           unfold append_line in Hm'; simpl in Hm'. rewrite Hraw in Hm'.
           cbn [maxMultilines set_matcher] in Hm'. rewrite Hmax in Hm'.
           destruct (reassemble_open ShouldMerge (maxMultilines s) m1 []
                       (string_of_list_byte (token sc)) (map token scs))
             as [runs pending].
           cbn [fst snd fold_left] in *.
           rewrite fold_deliver_set_matcher in Hm'. exact Hm'.
        -- destruct (IH (append_line p (string_of_list_byte (token sc))
                          (token sc))
                       (set_matcher (Some m1) s) m1 eq_refl Happ)
             as [m' Hm'].
           exists m'. destruct (fold_left _ scs _) as [p' s'].
           rewrite fold_deliver_set_matcher in Hm'.
           unfold append_line in Hm'; simpl in Hm'. rewrite Hraw in Hm'.
           exact Hm'.
      * rewrite flush_deliver;
          [|rewrite Hraw; exact Hbuf|rewrite Hraw; discriminate].
        destruct (IH (append_line (reset p) (string_of_list_byte (token sc))
                        (token sc))
                    (deliver_ (set_matcher (Some m1) s) (rawBuffer p))
                    m1) as [m' Hm'].
        { rewrite deliver_set_matcher. reflexivity. }
        { reflexivity. }
        exists m'. destruct (fold_left _ scs _) as [p' s'].
        rewrite deliver_set_matcher in Hm'. rewrite Hraw in Hm'.
        destruct (deliver_frame clock podName containerName namespace s
                    (r :: l)) as (_ & _ & _ & Hmax & _).
        cbn [maxMultilines set_matcher] in Hm'. rewrite Hmax in Hm'.
        unfold append_line, reset in Hm'; simpl in Hm'.
        destruct (reassemble_open ShouldMerge (maxMultilines s) m1
                    [token sc] (string_of_list_byte (token sc))
                    (map token scs)) as [runs pending].
        cbn [fst snd fold_left] in *.
        rewrite fold_deliver_set_matcher in Hm'. exact Hm'.
Qed.

End Cancellation.

Section CancelledRuns.

Context {M : Type}.
Variable ShouldMerge : M -> string -> string -> bool * M.
Variable clock : nat -> Z.
Variables podName containerName namespace : string.

Local Abbreviation deliver_ := (deliver clock podName containerName namespace).

Lemma processLogStream_single_cancelled stream (s : @Streamer M) k :
  matcher s = None ->
  k < List.length (scanned_lines stream) ->
  processLogStream ShouldMerge clock stream podName containerName namespace
    (Some k) s
  = (None, Some 0,
     fold_left deliver_
       (map (fun l => [l]) (firstn k (scanned_lines stream))) s).
Proof.
  intros Hm Hk. unfold processLogStream. rewrite Hm.
  pose proof (scan_for_cancelled
                (single_line clock podName containerName namespace)
                (NewScanner stream) k s) as H.
  cbv zeta in H. unfold scanned_lines in Hk. rewrite length_map in Hk.
  apply Nat.ltb_lt in Hk. rewrite Hk in H. destruct H as [sc' H].
  cbv zeta. rewrite H.
  rewrite (single_line_fold clock podName containerName namespace).
  unfold scanned_lines. rewrite firstn_map, map_map. reflexivity.
Qed.

Lemma processLogStream_multi_cancelled stream (s : @Streamer M) m k :
  matcher s = Some m ->
  k < List.length (scanned_lines stream) ->
  exists m',
    processLogStream ShouldMerge clock stream podName containerName
      namespace (Some k) s
    = (None, Some 0,
       set_matcher (Some m')
         (fold_left deliver_
            (fst (reassemble_open ShouldMerge (maxMultilines s) m [] ""
                    (firstn k (scanned_lines stream)))) s)).
Proof.
  intros Hm Hk. unfold processLogStream. rewrite Hm.
  unfold processMultilineLogStream.
  pose proof (scan_for_cancelled
                (multi_line ShouldMerge clock podName containerName
                   namespace)
                (NewScanner stream) k (no_pending, s)) as H.
  cbv zeta in H. unfold scanned_lines in Hk. rewrite length_map in Hk.
  apply Nat.ltb_lt in Hk. rewrite Hk in H. destruct H as [sc' H].
  cbv zeta. rewrite H.
  destruct (multi_line_fold_open ShouldMerge clock podName containerName
              namespace (firstn k (scan_states (NewScanner stream)))
              no_pending s m Hm eq_refl) as [m' Hm'].
  exists m'. destruct (fold_left _ _ (no_pending, s)) as [p' s'].
  destruct Hm' as (Hs & _). rewrite Hs.
  unfold scanned_lines. rewrite firstn_map. reflexivity.
Qed.

Lemma reassemble_open_never_merging max :
  (forall m previous next, fst (ShouldMerge m previous next) = false) ->
  forall lines m c last,
    reassemble_open ShouldMerge max m [c] last lines
    = (map (fun l => [l]) (removelast (c :: lines)),
       [List.last lines c]).
Proof.
  intros Hnever. induction lines as [|l rest IH]; intros m c last.
  - reflexivity.
  - cbn [reassemble_open].
    specialize (Hnever m last (string_of_list_byte l)).
    destruct (ShouldMerge m last (string_of_list_byte l)) as [merge m'].
    cbn [fst] in Hnever. subst merge. rewrite IH.
    change (removelast (c :: l :: rest)) with (c :: removelast (l :: rest)).
    cbn [map]. f_equal. f_equal.
    clear. revert l c. induction rest as [|l' rest IH]; intros l c;
      [reflexivity|].
    change (List.last (l :: l' :: rest) c) with (List.last (l' :: rest) c).
    rewrite <- (IH l' l), <- (IH l' c). reflexivity.
Qed.

End CancelledRuns.

(** X5.  Cancelled when it looks at the signal for the [k+1]-th time, the
    single-line path has delivered the records of the first [k] scanned
    lines that pass the include regex and nothing else; it returns nil,
    whatever the rest of the stream holds.  (The line scanned just before
    the cancellation is seen is not delivered.) *)
Theorem cancelled_single_line_delivers_first_lines
  {M : Type} (ShouldMerge : M -> string -> string -> bool * M)
  (clock : nat -> Z) (stream : Reader)
  (podName containerName namespace : string) (s : @Streamer M) (k : nat) :
  matcher s = None ->
  k < List.length (scanned_lines stream) ->
  let r := processLogStream ShouldMerge clock stream podName containerName
             namespace (Some k) s in
  fst (fst r) = None
  /\ trace (snd r)
     = trace s
       ++ map OnLog
            (records clock podName containerName namespace (formatter s)
               (ticks s)
               (List.filter (included (filter s))
                  (map (fun l => [l]) (firstn k (scanned_lines stream))))).
Proof.
  intros Hm Hk r. subst r.
  rewrite (processLogStream_single_cancelled ShouldMerge clock podName
             containerName namespace stream s k Hm Hk).
  cbn [fst snd]. split; [reflexivity | apply fold_deliver_trace].
Qed.

Lemma cancelled_single_line_delivers_first_lines_witness :
  matcher (Example.streamer (@None unit) 0 0) = None
  /\ 1 < List.length (scanned_lines Example.two_lines)
  /\ Example.messages
       (trace (snd (processLogStream Example.never_merge Example.clock
                      Example.two_lines "pod" "app" "default" (Some 1)
                      (Example.streamer None 0 0))))
     = ["a"].
Proof.
  split; [reflexivity|]. split; [vm_compute; lia|].
  destruct (cancelled_single_line_delivers_first_lines Example.never_merge
              Example.clock Example.two_lines "pod" "app" "default"
              (Example.streamer None 0 0) 1 eq_refl)
    as [_ H]; [vm_compute; lia|].
  rewrite H. reflexivity.
Defined.

(** X6.  Cancelled when it looks at the signal for the [k+1]-th time, the
    multi-line path has delivered the runs that were flushed while the
    first [k] lines were read, and returns nil without flushing: the
    lines of the pending run are delivered in no record.  The flushed runs
    and the pending run make up the first [k] lines, and the flushed runs
    followed by the pending one (when it is not empty) are the runs that
    would have been delivered had the stream ended after [k] lines. *)
Theorem cancelled_multiline_drops_pending_run
  {M : Type} (ShouldMerge : M -> string -> string -> bool * M)
  (clock : nat -> Z) (stream : Reader)
  (podName containerName namespace : string) (s : @Streamer M) (m : M)
  (k : nat) :
  matcher s = Some m ->
  k < List.length (scanned_lines stream) ->
  let r := processLogStream ShouldMerge clock stream podName containerName
             namespace (Some k) s in
  let lines := firstn k (scanned_lines stream) in
  let open := reassemble_open ShouldMerge (maxMultilines s) m [] "" lines in
  fst (fst r) = None
  /\ trace (snd r)
     = trace s
       ++ map OnLog
            (records clock podName containerName namespace (formatter s)
               (ticks s) (List.filter (included (filter s)) (fst open)))
  /\ List.concat (fst open) ++ snd open = lines
  /\ reassemble ShouldMerge (maxMultilines s) m [] "" lines
     = fst open ++ match snd open with [] => [] | pending => [pending] end.
Proof.
  intros Hm Hk r lines open. subst r.
  destruct (processLogStream_multi_cancelled ShouldMerge clock podName
              containerName namespace stream s m k Hm Hk) as [m' H].
  rewrite H. cbn [fst snd set_matcher trace].
  split; [reflexivity|]. split; [apply fold_deliver_trace|].
  split; [apply (reassemble_open_concat ShouldMerge)
         | apply (reassemble_open_close ShouldMerge)].
Qed.

Lemma cancelled_multiline_drops_pending_run_witness :
  matcher (Example.streamer (Some tt) 0 0) = Some tt
  /\ 1 < List.length (scanned_lines Example.two_lines)
  /\ trace (snd (processLogStream Example.always_merge Example.clock
                   Example.two_lines "pod" "app" "default" (Some 1)
                   (Example.streamer (Some tt) 0 0)))
     = []
  /\ snd (reassemble_open Example.always_merge
            (maxMultilines (Example.streamer (Some tt) 0 0)) tt [] ""
            (firstn 1 (scanned_lines Example.two_lines)))
     = [list_byte_of_string "a"].
Proof.
  split; [reflexivity|]. split; [vm_compute; lia|].
  destruct (cancelled_multiline_drops_pending_run Example.always_merge
              Example.clock Example.two_lines "pod" "app" "default"
              (Example.streamer (Some tt) 0 0) tt 1 eq_refl)
    as (_ & H & _); [vm_compute; lia|].
  rewrite H. split; reflexivity.
Defined.

(** X7.  With a predicate that never merges, a multi-line path cancelled
    at its [k+1]-th look at the signal ([k >= 1]) has delivered the first
    [k-1] lines only: the [k]-th line, which the single-line path would
    have delivered, is still in the buffer and is lost. *)
Theorem cancelled_never_merging_multiline_is_one_line_short
  {M : Type} (ShouldMerge : M -> string -> string -> bool * M)
  (clock : nat -> Z) (stream : Reader)
  (podName containerName namespace : string) (s : @Streamer M) (m : M)
  (k : nat) :
  matcher s = Some m ->
  (forall m previous next, fst (ShouldMerge m previous next) = false) ->
  1 <= k ->
  k < List.length (scanned_lines stream) ->
  trace (snd (processLogStream ShouldMerge clock stream podName
                containerName namespace (Some k) s))
  = trace s
    ++ map OnLog
         (records clock podName containerName namespace (formatter s)
            (ticks s)
            (List.filter (included (filter s))
               (map (fun l => [l])
                  (firstn (k - 1) (scanned_lines stream))))).
Proof.
  intros Hm Hnever Hk1 Hk.
  destruct (processLogStream_multi_cancelled ShouldMerge clock podName
              containerName namespace stream s m k Hm Hk) as [m' H].
  rewrite H. cbn [fst snd set_matcher trace]. rewrite fold_deliver_trace.
  do 4 f_equal.
  destruct k as [|k]; [lia|]. replace (S k - 1) with k by lia.
  destruct (scanned_lines stream) as [|l0 rest] eqn:Hl; [simpl in Hk; lia|].
  cbn [firstn reassemble_open].
  rewrite (reassemble_open_never_merging ShouldMerge _ Hnever). cbn [fst].
  f_equal. change (l0 :: firstn k rest) with (firstn (S k) (l0 :: rest)).
  apply removelast_firstn. simpl in Hk. simpl. lia.
Qed.

Lemma cancelled_never_merging_multiline_is_one_line_short_witness :
  matcher (Example.streamer (Some tt) 0 0) = Some tt
  /\ (forall m previous next,
        fst (Example.never_merge m previous next) = false)
  /\ 1 <= 1
  /\ 1 < List.length (scanned_lines Example.two_lines)
  /\ trace (snd (processLogStream Example.never_merge Example.clock
                   Example.two_lines "pod" "app" "default" (Some 1)
                   (Example.streamer (Some tt) 0 0)))
     = [].
Proof.
  split; [reflexivity|]. split; [reflexivity|]. split; [lia|].
  split; [vm_compute; lia|].
  rewrite (cancelled_never_merging_multiline_is_one_line_short
             Example.never_merge Example.clock Example.two_lines
             "pod" "app" "default" (Example.streamer (Some tt) 0 0) tt 1
             eq_refl (fun _ _ _ => eq_refl) (le_n 1));
    [reflexivity | vm_compute; lia].
Defined.

(* ===================================================================== *)
(** * The retry loop of the follower                                     *)
(* ===================================================================== *)

Lemma int_wrap_small z :
  (- 2 ^ 63 <= z < 2 ^ 63)%Z -> Go.int_wrap z = z.
Proof. intros H. unfold Go.int_wrap. rewrite Z.mod_small; lia. Qed.

Section Retries.

Context {M : Type}.
Variable ShouldMerge : M -> string -> string -> bool * M.
Variable clock : nat -> Z.
Variables podName containerName namespace : string.

Implicit Types s : @Streamer M.

Local Abbreviation follower_turn_ :=
  (follower_turn ShouldMerge clock).
Local Abbreviation follower_loop_ :=
  (follower_loop ShouldMerge clock).

Lemma emits_trace new s : trace (emits new s) = trace s ++ new.
Proof.
  revert s. induction new as [|e new IH]; intros s.
  - symmetry. apply app_nil_r.
  - change (emits (e :: new) s) with (emits new (emit e s)).
    rewrite IH. simpl. rewrite <- app_assoc. reflexivity.
Qed.

Lemma emits_frame new s :
  retryPolicy (emits new s) = retryPolicy s
  /\ filter (emits new s) = filter s
  /\ wg (emits new s) = wg s.
Proof.
  revert s. induction new as [|e new IH]; intros s.
  - repeat split.
  - change (emits (e :: new) s) with (emits new (emit e s)).
    destruct (IH (emit e s)) as (A & B & C).
    rewrite A, B, C. repeat split.
Qed.

Lemma emits_app new1 new2 s :
  emits (new1 ++ new2) s = emits new2 (emits new1 s).
Proof. apply fold_left_app. Qed.

(** One turn in which the stream cannot be opened. *)
Lemma follower_turn_failed e v s :
  (0 <= retry v)%Z ->
  (retry v < 2 ^ 63 - 1)%Z ->
  follower_turn_ (inl e) podName containerName namespace v None s
  = if (retry v + 1 >? MaxRetries (retryPolicy s))%Z
    then
      (Returned, {| retry := retry v + 1; backoff := backoff v |}, None,
       emits [GetLogsStream namespace podName containerName
                (Since (filter s));
              open_failed podName containerName e;
              retries_exceeded podName containerName] s)
    else
      (Continue,
       {| retry := retry v + 1;
          backoff := next_backoff (retryPolicy s) (backoff v) |}, None,
       emits [GetLogsStream namespace podName containerName
                (Since (filter s));
              open_failed podName containerName e;
              TimeAfter (backoff v)] s).
Proof.
  intros H0 H1. unfold follower_turn.
  cbn [stop_requested isPermError retry backoff emit retryPolicy].
  rewrite (int_wrap_small (retry v + 1)) by lia.
  destruct (retry v + 1 >? MaxRetries (retryPolicy s))%Z; reflexivity.
Qed.

Lemma grows_by_weaken (P Q : event -> Prop) s s' :
  (forall e, P e -> Q e) -> grows_by P s s' -> grows_by Q s s'.
Proof.
  intros H (new & Ht & Hf). exists new. split; [exact Ht|].
  eapply Forall_impl; eassumption.
Qed.

Lemma processLogStream_never_cancelled stream s :
  snd (fst (processLogStream ShouldMerge clock stream podName containerName
              namespace None s)) = None.
Proof.
  destruct (matcher s) as [m|] eqn:Hm.
  - destruct (processLogStream_multi ShouldMerge clock podName containerName
                namespace stream s m Hm) as [m' H].
    rewrite H. reflexivity.
  - rewrite (processLogStream_single ShouldMerge clock podName containerName
               namespace stream s Hm).
    reflexivity.
Qed.

(** The error that [processLogStream] returns, if any, is a read error
    that is not permanent. *)
Lemma processLogStream_error_shape stream ctx s :
  match fst (fst (processLogStream ShouldMerge clock stream podName
                    containerName namespace ctx s)) with
  | Some err =>
      exists e0, err = LogStreamError e0 false "log stream read error"
  | None => True
  end.
Proof.
  assert (Hafter : forall sc s',
            match fst (after_scan sc podName s') with
            | Some err =>
                exists e0,
                  err = LogStreamError e0 false "log stream read error"
            | None => True
            end).
  { intros sc s'. unfold after_scan.
    destruct (Err sc) as [e|]; [|exact I].
    destruct (IsPodDeletedError (Some e)); [exact I|].
    cbn. exists e. reflexivity. }
  unfold processLogStream. destruct (matcher s) as [m|].
  - unfold processMultilineLogStream.
    destruct (scan_for _ (NewScanner stream) ctx (no_pending, s))
      as [[[[|] sc] c] [p s1]]; [|exact I].
    destruct (flush clock podName containerName namespace p s1) as [p2 s2].
    specialize (Hafter sc s2).
    destruct (after_scan sc podName s2) as [err s3]. exact Hafter.
  - destruct (scan_for _ (NewScanner stream) ctx s)
      as [[[[|] sc] c] s1]; [|exact I].
    specialize (Hafter sc s1).
    destruct (after_scan sc podName s1) as [err s3]. exact Hafter.
Qed.

Lemma is_record_reconnect policy e :
  is_record_of namespace podName containerName e ->
  reconnect_event policy e.
Proof. intros (msg & -> & _). exact I. Qed.

(** One turn in which the stream is opened, with no cancellation. *)
Lemma follower_turn_opened stream v s :
  exists b' s',
    follower_turn_ (inr stream) podName containerName namespace v None s
    = (Continue, {| retry := 0; backoff := b' |}, None, s')
    /\ grows_by (reconnect_event (retryPolicy s)) s s'
    /\ retryPolicy s' = retryPolicy s /\ filter s' = filter s
    /\ wg s' = wg s.
Proof.
  unfold follower_turn. cbn [stop_requested]. cbv zeta.
  set (s0 := emit (GetLogsStream namespace podName containerName
                     (Since (filter s))) s).
  pose proof (delivered_only_processLogStream ShouldMerge clock podName
                containerName namespace stream None s0 s0
                (delivered_only_refl podName containerName namespace s0))
    as (Hg & (Hf & _ & Hr & _) & _ & _ & _ & Hw & _).
  pose proof (processLogStream_never_cancelled stream s0) as Hc.
  pose proof (processLogStream_error_shape stream None s0) as He.
  destruct (processLogStream ShouldMerge clock stream podName containerName
              namespace None s0) as [[err c1] s1].
  cbn [fst snd] in Hg, Hf, Hr, Hw, Hc, He. subst c1.
  cbn [stop_requested].
  assert (G0 : grows_by (reconnect_event (retryPolicy s)) s s1).
  { apply (grows_by_trans _ s s0 s1).
    - apply grows_by_emit. exact I.
    - eapply grows_by_weaken; [apply is_record_reconnect | exact Hg]. }
  destruct err as [err|].
  - destruct He as [e0 ->]. unfold sleep_backoff. cbn [stop_requested].
    eexists. eexists. split; [reflexivity|].
    split; [|cbn; repeat split; assumption].
    apply (grows_by_trans _ s s1 _ G0).
    apply (grows_by_trans _ s1 (emit StreamClose s1) _);
      [apply grows_by_emit; exact I|].
    apply (grows_by_trans _ _ (emit (OnError (LogStreamError e0 false
                                     "log stream read error"))
                                 (emit StreamClose s1)) _);
      [apply grows_by_emit; exists e0; reflexivity|].
    apply grows_by_emit. cbn. reflexivity.
  - eexists. eexists. split; [reflexivity|].
    split; [|cbn; repeat split; assumption].
    apply (grows_by_trans _ s s1 _ G0). apply grows_by_emit. exact I.
Qed.

Lemma reconnect_not_permanent policy new :
  Forall (reconnect_event policy) new -> count is_permanent_error new = 0.
Proof.
  unfold count. induction 1 as [|e new He _ IH]; [reflexivity|].
  simpl. destruct e as [| err | | | | | | | |]; try exact IH.
  destruct He as [e0 ->]. exact IH.
Qed.

Lemma count_app f (t1 t2 : list event) :
  count f (t1 ++ t2) = count f t1 + count f t2.
Proof. unfold count. rewrite filter_app, length_app. reflexivity. Qed.

(** A run of failures that uses up the retries. *)
Lemma follower_loop_all_fail errs : forall last v s,
  (0 <= retry v)%Z ->
  (retry v + Z.of_nat (List.length errs) = MaxRetries (retryPolicy s))%Z ->
  (MaxRetries (retryPolicy s) < 2 ^ 63 - 1)%Z ->
  exists v',
    follower_loop_ (map inl (errs ++ [last])) podName containerName
      namespace v None s
    = (Returned, v', None,
       emits (failed_attempts namespace podName containerName
                (Since (filter s)) errs
                (backoffs (retryPolicy s) (backoff v) (List.length errs))
              ++ [GetLogsStream namespace podName containerName
                    (Since (filter s));
                  open_failed podName containerName last;
                  retries_exceeded podName containerName]) s).
Proof.
  induction errs as [|e errs IH]; intros last v s H0 Hn Hmax.
  - cbn [List.length Z.of_nat] in Hn. cbn [app map follower_loop].
    rewrite follower_turn_failed by lia.
    replace (retry v + 1 >? MaxRetries (retryPolicy s))%Z with true
      by (symmetry; apply Z.gtb_lt; lia).
    eexists. reflexivity.
  - cbn [List.length] in Hn. rewrite Nat2Z.inj_succ in Hn.
    cbn [app map follower_loop].
    rewrite follower_turn_failed by lia.
    replace (retry v + 1 >? MaxRetries (retryPolicy s))%Z with false
      by (symmetry; rewrite Z.gtb_ltb; apply Z.ltb_ge; lia).
    set (s1 := emits _ s).
    destruct (IH last {| retry := retry v + 1;
                         backoff := next_backoff (retryPolicy s) (backoff v) |}
                s1) as [v' Hv'].
    + cbn. lia.
    + cbn. lia.
    + exact Hmax.
    + exists v'. rewrite Hv'. reflexivity.
Qed.

(** Whether the follower gives up is told by [tolerated]. *)
Lemma follower_loop_tolerated opens : forall v s,
  (0 <= retry v)%Z ->
  (retry v <= MaxRetries (retryPolicy s) \/ retry v = 0)%Z ->
  (MaxRetries (retryPolicy s) < 2 ^ 63 - 1)%Z ->
  exists new v' s',
    follower_loop_ opens podName containerName namespace v None s
    = (if tolerated (MaxRetries (retryPolicy s)) (retry v) opens
       then Continue else Returned, v', None, s')
    /\ trace s' = trace s ++ new
    /\ count is_permanent_error new
       = (if tolerated (MaxRetries (retryPolicy s)) (retry v) opens
          then 0 else 1)
    /\ wg s' = wg s.
Proof.
  induction opens as [|[e|stream] opens IH]; intros v s H0 Hr Hmax.
  - exists [], v, s. cbn. rewrite app_nil_r. repeat split.
  - cbn [follower_loop tolerated].
    rewrite follower_turn_failed by lia.
    destruct (retry v + 1 >? MaxRetries (retryPolicy s))%Z eqn:Hgt.
    + replace (retry v + 1 <=? MaxRetries (retryPolicy s))%Z with false
        by (symmetry; apply Z.leb_gt; apply Z.gtb_lt in Hgt; lia).
      cbn [andb]. eexists. eexists. eexists.
      split; [reflexivity|]. rewrite emits_trace.
      split; [reflexivity|]. split; [reflexivity|].
      apply emits_frame.
    + replace (retry v + 1 <=? MaxRetries (retryPolicy s))%Z with true
        by (symmetry; apply Z.leb_le;
            rewrite Z.gtb_ltb in Hgt; apply Z.ltb_ge in Hgt; lia).
      cbn [andb].
      set (s1 := emits _ s).
      set (v1 := {| retry := retry v + 1;
                    backoff := next_backoff (retryPolicy s) (backoff v) |}).
      assert (Hp : retryPolicy s1 = retryPolicy s) by apply emits_frame.
      rewrite Z.gtb_ltb in Hgt. apply Z.ltb_ge in Hgt.
      destruct (IH v1 s1) as (new & v' & s' & Hl & Ht & Hc & Hw).
      * cbn. lia.
      * left. rewrite Hp. cbn. lia.
      * rewrite Hp. exact Hmax.
      * rewrite Hp in Hl, Hc. cbn [retry v1] in Hl, Hc.
        eexists. exists v', s'. split; [exact Hl|].
        split; [rewrite Ht; unfold s1; rewrite emits_trace;
                rewrite <- app_assoc; reflexivity|].
        split; [|rewrite Hw; apply emits_frame].
        rewrite count_app, Hc. reflexivity.
  - cbn [follower_loop tolerated].
    destruct (follower_turn_opened stream v s)
      as (b' & s1 & Hturn & (new1 & Ht1 & Hf1) & Hp & _ & Hw1).
    rewrite Hturn.
    destruct (IH {| retry := 0; backoff := b' |} s1)
      as (new & v' & s' & Hl & Ht & Hc & Hw).
    + cbn. lia.
    + right. reflexivity.
    + rewrite Hp. exact Hmax.
    + rewrite Hp in Hl, Hc. cbn [retry] in Hl, Hc.
      exists (new1 ++ new), v', s'. split; [exact Hl|].
      split; [rewrite Ht, Ht1, app_assoc; reflexivity|].
      split; [|congruence].
      rewrite count_app, Hc, (reconnect_not_permanent _ _ Hf1). reflexivity.
Qed.

(** As long as the stream can be opened the follower goes on. *)
Lemma follower_loop_all_opened streams : forall v s,
  exists v' s',
    follower_loop_ (map inr streams) podName containerName namespace v
      None s
    = (Continue, v', None, s')
    /\ grows_by (reconnect_event (retryPolicy s)) s s'
    /\ wg s' = wg s.
Proof.
  induction streams as [|stream streams IH]; intros v s.
  - exists v, s. split; [reflexivity|]. split; [apply grows_by_refl|].
    reflexivity.
  - cbn [map follower_loop].
    destruct (follower_turn_opened stream v s)
      as (b' & s1 & Hturn & Hg1 & Hp & _ & Hw1).
    rewrite Hturn.
    destruct (IH {| retry := 0; backoff := b' |} s1)
      as (v' & s' & Hl & Hg & Hw).
    exists v', s'. split; [exact Hl|]. rewrite Hp in Hg.
    split; [eapply grows_by_trans; eassumption | congruence].
Qed.

Lemma next_backoff_le policy b :
  (next_backoff policy b <= MaxInterval policy)%Z.
Proof.
  unfold next_backoff. cbv zeta.
  destruct (Multiplier policy b >? MaxInterval policy)%Z eqn:H; [lia|].
  rewrite Z.gtb_ltb in H. apply Z.ltb_ge in H. exact H.
Qed.

Lemma sleep_backoff_sleeps v ctx s :
  backoff v = InitialInterval (retryPolicy s)
  \/ (backoff v <= MaxInterval (retryPolicy s))%Z ->
  let r := sleep_backoff v ctx s in
  grows_by (sleeps_within (retryPolicy s)) s (snd r)
  /\ retryPolicy (snd r) = retryPolicy s
  /\ (backoff (snd (fst (fst r))) = InitialInterval (retryPolicy s)
      \/ (backoff (snd (fst (fst r))) <= MaxInterval (retryPolicy s))%Z).
Proof.
  intros Hb. unfold sleep_backoff.
  destruct (stop_requested ctx) as [[|] c0]; cbn [fst snd].
  - split; [apply grows_by_refl|]. split; [reflexivity | exact Hb].
  - split; [apply grows_by_emit; exact Hb|]. split; [reflexivity|].
    right. apply next_backoff_le.
Qed.

(** Every sleep of one turn is within the bounds, and so is the backoff
    that the turn leaves. *)
Lemma follower_turn_sleeps open v ctx s :
  backoff v = InitialInterval (retryPolicy s)
  \/ (backoff v <= MaxInterval (retryPolicy s))%Z ->
  let r := follower_turn_ open podName containerName namespace v ctx s in
  grows_by (sleeps_within (retryPolicy s)) s (snd r)
  /\ retryPolicy (snd r) = retryPolicy s
  /\ (backoff (snd (fst (fst r))) = InitialInterval (retryPolicy s)
      \/ (backoff (snd (fst (fst r))) <= MaxInterval (retryPolicy s))%Z).
Proof.
  intros Hb. unfold follower_turn.
  destruct (stop_requested ctx) as [[|] c0]; cbn [fst snd].
  { split; [apply grows_by_refl|]. split; [reflexivity | exact Hb]. }
  cbv zeta.
  set (s0 := emit (GetLogsStream namespace podName containerName
                     (Since (filter s))) s).
  assert (G0 : grows_by (sleeps_within (retryPolicy s)) s s0)
    by (apply grows_by_emit; exact I).
  destruct open as [e|stream].
  - cbn [isPermError].
    set (s1 := emit (OnError _) s0).
    assert (G1 : grows_by (sleeps_within (retryPolicy s)) s s1)
      by (apply (grows_by_trans _ s s0 s1 G0), grows_by_emit; exact I).
    cbn [retry backoff].
    destruct (Go.int_wrap (retry v + 1) >? MaxRetries (retryPolicy s1))%Z.
    + cbn [fst snd]. split; [|split; [reflexivity | exact Hb]].
      apply (grows_by_trans _ s s1 _ G1), grows_by_emit. exact I.
    + destruct (sleep_backoff_sleeps
                  {| retry := Go.int_wrap (retry v + 1);
                     backoff := backoff v |} c0 s1 Hb) as (A & B & C).
      split; [apply (grows_by_trans _ s s1 _ G1); exact A|].
      split; [exact B | exact C].
  - pose proof (delivered_only_processLogStream ShouldMerge clock podName
                  containerName namespace stream c0 s0 s0
                  (delivered_only_refl podName containerName namespace s0))
      as (Hg & (_ & _ & Hr & _) & _).
    pose proof (processLogStream_error_shape stream c0 s0) as He.
    destruct (processLogStream ShouldMerge clock stream podName
                containerName namespace c0 s0) as [[err c1] s1].
    cbn [fst snd] in Hg, Hr, He.
    assert (Hr' : retryPolicy s1 = retryPolicy s) by exact Hr.
    assert (G1 : grows_by (sleeps_within (retryPolicy s)) s
                   (emit StreamClose s1)).
    { apply (grows_by_trans _ s s0 _ G0).
      apply (grows_by_trans _ s0 s1 _).
      - eapply grows_by_weaken; [|exact Hg]. intros e (msg & -> & _). exact I.
      - apply grows_by_emit. exact I. }
    destruct (stop_requested c1) as [[|] c2]; cbn [fst snd].
    { split; [exact G1|]. split; [exact Hr'|]. left. reflexivity. }
    destruct err as [err|].
    + destruct He as [e0 ->].
      set (s2 := emit (OnError _) (emit StreamClose s1)).
      assert (Hi : backoff {| retry := 0;
                              backoff := InitialInterval (retryPolicy s0) |}
                   = InitialInterval (retryPolicy s2)
                   \/ (backoff {| retry := 0;
                                  backoff := InitialInterval (retryPolicy s0) |}
                       <= MaxInterval (retryPolicy s2))%Z).
      { left. change (retryPolicy s2) with (retryPolicy s1).
        rewrite Hr. reflexivity. }
      destruct (sleep_backoff_sleeps
                  {| retry := 0;
                     backoff := InitialInterval (retryPolicy s0) |} c2 s2
                  Hi) as (A & B & C).
      change (retryPolicy s2) with (retryPolicy s1) in A, B, C.
      rewrite Hr' in A, B, C.
      split; [|split; [exact B | exact C]].
      apply (grows_by_trans _ s (emit StreamClose s1) _ G1).
      apply (grows_by_trans _ _ s2 _); [apply grows_by_emit; exact I|].
      exact A.
    + cbn [fst snd]. split; [exact G1|]. split; [exact Hr'|].
      left. reflexivity.
Qed.

Lemma follower_loop_sleeps opens : forall v ctx s,
  backoff v = InitialInterval (retryPolicy s)
  \/ (backoff v <= MaxInterval (retryPolicy s))%Z ->
  grows_by (sleeps_within (retryPolicy s)) s
    (snd (follower_loop_ opens podName containerName namespace v ctx s)).
Proof.
  induction opens as [|open opens IH]; intros v ctx s Hb.
  - apply grows_by_refl.
  - cbn [follower_loop].
    destruct (follower_turn_sleeps open v ctx s Hb) as (A & B & C).
    destruct (follower_turn_ open podName containerName namespace v ctx s)
      as [[[[|] v1] c1] s1]; cbn [fst snd] in A, B, C |- *.
    + exact A.
    + rewrite <- B in C. specialize (IH v1 c1 s1 C). rewrite B in IH.
      eapply grows_by_trans; eassumption.
Qed.

End Retries.

(** X8.  A follower whose attempts to open the stream all fail, with
    [MaxRetries = n], makes [n + 1] attempts and then ends: each of the
    first [n] failures is reported to [OnError] and followed by a sleep,
    the sleeps being the initial interval and then each the multiple of
    the one before, capped at the maximum interval; the last failure is
    reported and followed by the one permanent error, and the wait group
    is released. *)
Theorem follower_gives_up_after_MaxRetries_failures
  {M : Type} (ShouldMerge : M -> string -> string -> bool * M)
  (clock : nat -> Z) (errs : list error) (last : error)
  (podName containerName namespace : string) (s : @Streamer M) :
  Z.of_nat (List.length errs) = MaxRetries (retryPolicy s) ->
  (MaxRetries (retryPolicy s) < 2 ^ 63 - 1)%Z ->
  let r := follower ShouldMerge clock (map inl (errs ++ [last]))
             podName containerName namespace None s in
  fst (fst (fst r)) = Returned
  /\ trace (snd r)
     = trace s
       ++ failed_attempts namespace podName containerName
            (Since (filter s)) errs
            (backoffs (retryPolicy s) (InitialInterval (retryPolicy s))
               (List.length errs))
       ++ [GetLogsStream namespace podName containerName
             (Since (filter s));
           open_failed podName containerName last;
           retries_exceeded podName containerName]
  /\ wg (snd r) = (wg s - 1)%Z.
Proof.
  intros Hn Hmax r. subst r. unfold follower.
  destruct (follower_loop_all_fail ShouldMerge clock podName containerName
              namespace errs last
              {| retry := 0; backoff := InitialInterval (retryPolicy s) |}
              s) as [v' H]; [cbn; lia | cbn; lia | exact Hmax |].
  rewrite H. cbn [fst snd set_wg trace wg backoff].
  split; [reflexivity|]. rewrite emits_trace.
  split; [reflexivity|].
  destruct (emits_frame
              (failed_attempts namespace podName containerName
                 (Since (filter s)) errs
                 (backoffs (retryPolicy s) (InitialInterval (retryPolicy s))
                    (List.length errs))
               ++ [GetLogsStream namespace podName containerName
                     (Since (filter s));
                   open_failed podName containerName last;
                   retries_exceeded podName containerName]) s)
    as (_ & _ & Hw).
  rewrite Hw. reflexivity.
Qed.

Lemma follower_gives_up_after_MaxRetries_failures_witness :
  Z.of_nat (List.length [errorString "refused"; errorString "reset"])
  = MaxRetries (retryPolicy (Example.streamer (@None unit) 0 2))
  /\ (MaxRetries (retryPolicy (Example.streamer (@None unit) 0 2))
      < 2 ^ 63 - 1)%Z
  /\ trace (snd (follower Example.never_merge Example.clock
                   (map inl ([errorString "refused"; errorString "reset"]
                             ++ [errorString "gone"]))
                   "pod" "app" "default" None
                   (Example.streamer None 0 2)))
     = [ GetLogsStream "default" "pod" "app" None;
         open_failed "pod" "app" (errorString "refused");
         TimeAfter 1000;
         GetLogsStream "default" "pod" "app" None;
         open_failed "pod" "app" (errorString "reset");
         TimeAfter 2000;
         GetLogsStream "default" "pod" "app" None;
         open_failed "pod" "app" (errorString "gone");
         retries_exceeded "pod" "app" ].
Proof.
  split; [reflexivity|]. split; [reflexivity|].
  destruct (follower_gives_up_after_MaxRetries_failures Example.never_merge
              Example.clock [errorString "refused"; errorString "reset"]
              (errorString "gone") "pod" "app" "default"
              (Example.streamer None 0 2) eq_refl eq_refl)
    as (_ & H & _).
  rewrite H. reflexivity.
Defined.

(** X9.  A follower that is never cancelled gives up exactly when the
    stream fails to open more than [MaxRetries] times in a row: every
    successful opening sets the count of failures back to zero, and a
    stream that opens and then fails while it is read does not count.  It
    reports one permanent error when it gives up, and none otherwise. *)
Theorem follower_gives_up_iff_too_many_failures_in_a_row
  {M : Type} (ShouldMerge : M -> string -> string -> bool * M)
  (clock : nat -> Z) (opens : list OpenResult)
  (podName containerName namespace : string) (s : @Streamer M) :
  (MaxRetries (retryPolicy s) < 2 ^ 63 - 1)%Z ->
  let r := follower ShouldMerge clock opens podName containerName
             namespace None s in
  let goes_on := tolerated (MaxRetries (retryPolicy s)) 0 opens in
  fst (fst (fst r)) = (if goes_on then Continue else Returned)
  /\ count is_permanent_error (trace (snd r))
     = count is_permanent_error (trace s) + (if goes_on then 0 else 1)
  /\ wg (snd r) = (if goes_on then wg s else wg s - 1)%Z.
Proof.
  intros Hmax r goes_on. subst r goes_on. unfold follower.
  destruct (follower_loop_tolerated ShouldMerge clock podName containerName
              namespace opens
              {| retry := 0; backoff := InitialInterval (retryPolicy s) |}
              s) as (new & v' & s' & Hl & Ht & Hc & Hw);
    [cbn; lia | right; reflexivity | exact Hmax |].
  rewrite Hl. cbn [retry] in Hc |- *.
  destruct (tolerated (MaxRetries (retryPolicy s)) 0 opens);
    cbn [fst snd set_wg trace wg]; rewrite Ht, count_app, Hc, Hw;
    repeat split.
Qed.

Lemma follower_gives_up_iff_too_many_failures_in_a_row_witness :
  (MaxRetries (retryPolicy (Example.streamer (@None unit) 0 1))
   < 2 ^ 63 - 1)%Z
  /\ fst (fst (fst (follower Example.never_merge Example.clock
                      [inl (errorString "refused"); inr Example.two_lines;
                       inl (errorString "refused");
                       inr Example.failing_reads;
                       inl (errorString "refused")]
                      "pod" "app" "default" None
                      (Example.streamer None 0 1))))
     = Continue
  /\ fst (fst (fst (follower Example.never_merge Example.clock
                      [inl (errorString "refused"); inr Example.two_lines;
                       inl (errorString "refused");
                       inl (errorString "refused")]
                      "pod" "app" "default" None
                      (Example.streamer None 0 1))))
     = Returned.
Proof.
  split; [reflexivity|]. split.
  - apply (follower_gives_up_iff_too_many_failures_in_a_row
             Example.never_merge Example.clock
             [inl (errorString "refused"); inr Example.two_lines;
              inl (errorString "refused"); inr Example.failing_reads;
              inl (errorString "refused")]
             "pod" "app" "default" (Example.streamer None 0 1) eq_refl).
  - apply (follower_gives_up_iff_too_many_failures_in_a_row
             Example.never_merge Example.clock
             [inl (errorString "refused"); inr Example.two_lines;
              inl (errorString "refused"); inl (errorString "refused")]
             "pod" "app" "default" (Example.streamer None 0 1) eq_refl).
Defined.

(** X10.  As long as the stream can be opened, a follower that is never
    cancelled does not end, whatever [MaxRetries] is and however the
    streams end: it is about to open the stream again after any number of
    them.  Between the openings it delivers records, closes the stream
    and, after a read error, reports that error as not permanent and
    sleeps for the initial interval: the backoff does not grow. *)
Theorem follower_reconnects_as_long_as_stream_opens
  {M : Type} (ShouldMerge : M -> string -> string -> bool * M)
  (clock : nat -> Z) (streams : list Reader)
  (podName containerName namespace : string) (s : @Streamer M) :
  fst (fst (fst (follower ShouldMerge clock (map inr streams) podName
                   containerName namespace None s)))
  = Continue
  /\ grows_by (reconnect_event (retryPolicy s)) s
       (snd (follower ShouldMerge clock (map inr streams) podName
               containerName namespace None s))
  /\ wg (snd (follower ShouldMerge clock (map inr streams) podName
                containerName namespace None s))
     = wg s.
Proof.
  unfold follower.
  destruct (follower_loop_all_opened ShouldMerge clock podName
              containerName namespace streams
              {| retry := 0; backoff := InitialInterval (retryPolicy s) |}
              s) as (v' & s' & Hl & Hg & Hw).
  rewrite Hl. cbn [fst snd]. repeat split; assumption.
Qed.

(** X11.  Whatever the cluster answers and whenever the follower is
    cancelled, each of its sleeps lasts the initial interval or at most
    the maximum interval of the retry policy, whatever the multiplier. *)
Theorem follower_sleeps_are_bounded
  {M : Type} (ShouldMerge : M -> string -> string -> bool * M)
  (clock : nat -> Z) (opens : list OpenResult)
  (podName containerName namespace : string) (ctx : signal)
  (s : @Streamer M) :
  grows_by (sleeps_within (retryPolicy s)) s
    (snd (follower ShouldMerge clock opens podName containerName
            namespace ctx s)).
Proof.
  unfold follower.
  pose proof (follower_loop_sleeps ShouldMerge clock podName containerName
                namespace opens
                {| retry := 0; backoff := InitialInterval (retryPolicy s) |}
                ctx s (or_introl eq_refl)) as H.
  destruct (follower_loop _ _ _ _ _ _ _ _ _) as [[[[|] v1] c1] s1];
    cbn [fst snd] in H |- *; exact H.
Qed.

(* ===================================================================== *)
(** * Pods, followers and the watcher                                    *)
(* ===================================================================== *)

Section Pods.

Context {M : Type}.

Implicit Types s : @Streamer M.

Lemma launch_followers_spec pod containers : forall s,
  let s' := launch_followers pod containers s in
  trace s'
  = trace s
    ++ map (fun container =>
              go_follower (pod_Name pod) container (pod_Namespace pod))
         (List.filter (container_passes (filter s)) containers)
  /\ wg s'
     = (wg s + Z.of_nat (List.length
                           (List.filter (container_passes (filter s))
                              containers)))%Z
  /\ filter s' = filter s /\ retryPolicy s' = retryPolicy s
  /\ stopped s' = stopped s /\ active s' = active s.
Proof.
  induction containers as [|c rest IH]; intros s.
  - cbn. rewrite app_nil_r, Z.add_0_r. repeat split.
  - assert (Hlaunch :
      let s1 := emit (go_follower (pod_Name pod) c (pod_Namespace pod))
                  (set_wg (wg s + 1) s) in
      let s' := launch_followers pod rest s1 in
      trace s'
      = trace s
        ++ go_follower (pod_Name pod) c (pod_Namespace pod)
           :: map (fun container =>
                     go_follower (pod_Name pod) container
                       (pod_Namespace pod))
                (List.filter (container_passes (filter s)) rest)
      /\ wg s'
         = (wg s + Z.of_nat (S (List.length
                                  (List.filter (container_passes (filter s))
                                     rest))))%Z
      /\ filter s' = filter s /\ retryPolicy s' = retryPolicy s
      /\ stopped s' = stopped s /\ active s' = active s).
    { intros s1 s'. destruct (IH s1) as (A & B & C & D & E & F).
      fold s' in A, B, C, D, E, F. cbn in A, B, C, D, E, F.
      rewrite <- app_assoc in A. cbn in A.
      repeat split; try assumption. rewrite B, Nat2Z.inj_succ. lia. }
    cbn [launch_followers List.filter].
    destruct (container_passes (filter s) c) eqn:Hp;
      unfold container_passes in Hp;
      destruct (ContainerRegex (filter s)) as [re|];
      try rewrite Hp; try discriminate; cbn [negb];
      [exact Hlaunch | exact Hlaunch | apply IH].
Qed.

Lemma active_Load_Store name s : active_Load name (active_Store name s) = true.
Proof.
  unfold active_Store. destruct (active_Load name s) eqn:H; [exact H|].
  unfold active_Load. cbn. rewrite String.eqb_refl. reflexivity.
Qed.

Lemma active_Load_Delete name s :
  active_Load name (active_Delete name s) = false.
Proof.
  unfold active_Load, active_Delete. cbn.
  induction (active s) as [|k l IH]; [reflexivity|].
  cbn. destruct (String.eqb name k) eqn:E; cbn; [exact IH|].
  rewrite E. exact IH.
Qed.

(** What [startPodLogStreamer] does. *)
Lemma startPodLogStreamer_spec pod s :
  let s' := startPodLogStreamer pod s in
  trace s' = trace s ++ followers_of (filter s) pod
  /\ wg s' = (wg s + Z.of_nat (List.length (followers_of (filter s) pod)))%Z
  /\ filter s' = filter s /\ retryPolicy s' = retryPolicy s
  /\ stopped s' = stopped s
  /\ active s' = active (active_Store (pod_Name pod) s).
Proof.
  unfold startPodLogStreamer. cbv zeta.
  destruct (launch_followers_spec pod (pod_Containers pod)
              (active_Store (pod_Name pod) s)) as (A & B & C & D & E & F).
  assert (Hs : trace (active_Store (pod_Name pod) s) = trace s
               /\ wg (active_Store (pod_Name pod) s) = wg s
               /\ filter (active_Store (pod_Name pod) s) = filter s
               /\ retryPolicy (active_Store (pod_Name pod) s) = retryPolicy s
               /\ stopped (active_Store (pod_Name pod) s) = stopped s).
  { unfold active_Store. destruct (active_Load (pod_Name pod) s);
      repeat split. }
  destruct Hs as (T & W & Fi & R & St).
  rewrite T, W, Fi in *. unfold followers_of. rewrite length_map.
  repeat split; try assumption; congruence.
Qed.

Lemma active_Load_active name s s' :
  active s' = active s -> active_Load name s' = active_Load name s.
Proof. unfold active_Load. intros ->. reflexivity. Qed.

Lemma shouldStreamPod_ext s s' pod pod' :
  filter s' = filter s -> pod_Name pod' = pod_Name pod ->
  shouldStreamPod s' pod' = shouldStreamPod s pod.
Proof. unfold shouldStreamPod. intros -> ->. reflexivity. Qed.

Lemma upsert_type t :
  In t ["ADDED"; "MODIFIED"] ->
  String.eqb t "ADDED" || String.eqb t "MODIFIED" = true.
Proof. intros [<- | [<- | []]]; reflexivity. Qed.

(** An added or modified pod that is not completed. *)
Lemma handle_event_running t pod s :
  In t ["ADDED"; "MODIFIED"] -> completed pod = false ->
  handle_event {| event_Type := t; event_Object := Some pod |} s
  = if shouldStreamPod s pod && negb (active_Load (pod_Name pod) s)
    then startPodLogStreamer pod s else s.
Proof.
  intros Ht Hc. unfold handle_event. cbn [event_Type event_Object].
  rewrite (upsert_type t Ht). unfold completed in Hc.
  destruct (shouldStreamPod s pod); cbn [andb];
    [destruct (negb (active_Load (pod_Name pod) s))|];
    cbv zeta; rewrite Hc; reflexivity.
Qed.

(** An added or modified pod that is completed. *)
Lemma handle_event_completed t pod s :
  In t ["ADDED"; "MODIFIED"] -> completed pod = true ->
  handle_event {| event_Type := t; event_Object := Some pod |} s
  = active_Delete (pod_Name pod)
      (if shouldStreamPod s pod && negb (active_Load (pod_Name pod) s)
       then startPodLogStreamer pod s else s).
Proof.
  intros Ht Hc. unfold handle_event. cbn [event_Type event_Object].
  rewrite (upsert_type t Ht). unfold completed in Hc.
  destruct (shouldStreamPod s pod); cbn [andb];
    [destruct (negb (active_Load (pod_Name pod) s))|];
    cbv zeta; rewrite Hc; reflexivity.
Qed.

Lemma launched_followers_refl s : launched_followers s s.
Proof.
  exists []. rewrite app_nil_r. cbn. rewrite Z.add_0_r.
  repeat split. constructor.
Qed.

Lemma launched_followers_trans s1 s2 s3 :
  launched_followers s1 s2 -> launched_followers s2 s3 ->
  launched_followers s1 s3.
Proof.
  intros (n1 & T1 & F1 & W1 & A1 & B1 & C1) (n2 & T2 & F2 & W2 & A2 & B2 & C2).
  exists (n1 ++ n2). rewrite T2, T1, app_assoc, W2, W1, length_app.
  repeat split; try congruence; [apply Forall_app; split; assumption | lia].
Qed.

Lemma launched_followers_startPodLogStreamer pod s :
  launched_followers s (startPodLogStreamer pod s).
Proof.
  destruct (startPodLogStreamer_spec pod s) as (A & B & C & D & E & _).
  exists (followers_of (filter s) pod). repeat split; try assumption.
  unfold followers_of. apply Forall_forall. intros e He.
  apply in_map_iff in He. destruct He as (c & <- & _). reflexivity.
Qed.

Lemma launched_followers_active_Delete name s :
  launched_followers s (active_Delete name s).
Proof.
  exists []. cbn. rewrite app_nil_r, Z.add_0_r. repeat split. constructor.
Qed.

Lemma launched_followers_handle_event ev s :
  launched_followers s (handle_event ev s).
Proof.
  unfold handle_event.
  destruct (String.eqb (event_Type ev) "ADDED"
            || String.eqb (event_Type ev) "MODIFIED").
  - destruct (event_Object ev) as [pod|]; [|apply launched_followers_refl].
    cbv zeta.
    assert (H : launched_followers s
                  (if shouldStreamPod s pod
                   then if negb (active_Load (pod_Name pod) s)
                        then startPodLogStreamer pod s else s
                   else s)).
    { destruct (shouldStreamPod s pod); [|apply launched_followers_refl].
      destruct (negb (active_Load (pod_Name pod) s));
        [apply launched_followers_startPodLogStreamer
        | apply launched_followers_refl]. }
    destruct (String.eqb (pod_Phase pod) "Succeeded"
              || String.eqb (pod_Phase pod) "Failed"); [|exact H].
    eapply launched_followers_trans;
      [exact H | apply launched_followers_active_Delete].
  - destruct (String.eqb (event_Type ev) "DELETED");
      [|apply launched_followers_refl].
    destruct (event_Object ev) as [pod|];
      [apply launched_followers_active_Delete | apply launched_followers_refl].
Qed.

Lemma launched_followers_watch_events events : forall ctx s,
  launched_followers s (snd (watch_events events ctx s)).
Proof.
  induction events as [|ev rest IH]; intros ctx s.
  - apply launched_followers_refl.
  - cbn [watch_events]. destruct (stop_requested ctx) as [[|] c0].
    + apply launched_followers_refl.
    + eapply launched_followers_trans;
        [apply launched_followers_handle_event | apply IH].
Qed.

Lemma watch_events_never_cancelled events : forall s,
  fst (watch_events events None s) = (Continue, None).
Proof.
  induction events as [|ev rest IH]; intros s; [reflexivity|].
  cbn [watch_events stop_requested]. apply IH.
Qed.

Lemma only_followers (new : list event) :
  Forall (fun e => is_go_follower e = true) new ->
  List.filter is_go_watcher new = []
  /\ count is_ListPods new = 0
  /\ count is_waited_for new = List.length new.
Proof.
  unfold count. induction 1 as [|e new He _ (A & B & C)]; [repeat split|].
  destruct e; try discriminate He. cbn. rewrite A, B, C. repeat split.
Qed.

Lemma launched_followers_pods pods : forall s,
  launched_followers s
    (fold_left
       (fun s pod =>
          if shouldStreamPod s pod then startPodLogStreamer pod s else s)
       pods s).
Proof.
  induction pods as [|pod pods IH]; intros s.
  - apply launched_followers_refl.
  - cbn [fold_left]. eapply launched_followers_trans; [|apply IH].
    destruct (shouldStreamPod s pod);
      [apply launched_followers_startPodLogStreamer
      | apply launched_followers_refl].
Qed.

(** What the loop of [startPodWatcher] does. *)
Lemma watch_namespaces_spec list_pods namespaces : forall s,
  let labelSelector :=
    match LabelSelector (filter s) with Some sel => sel | None => "" end in
  let r := watch_namespaces list_pods namespaces s in
  let listed := listed_namespaces list_pods labelSelector namespaces in
  fst r = option_map (fun err => LogStreamError err true "failed to list pods")
            (snd listed)
  /\ exists new,
       trace (snd r) = trace s ++ new
       /\ List.filter is_go_watcher new = map go_watcher (fst listed)
       /\ count is_ListPods new
          = List.length (fst listed)
            + (match snd listed with Some _ => 1 | None => 0 end)
       /\ wg (snd r) = (wg s + Z.of_nat (count is_waited_for new))%Z.
Proof.
  induction namespaces as [|ns rest IH]; intros s.
  - cbn. split; [reflexivity|]. exists []. rewrite app_nil_r, Z.add_0_r.
    repeat split.
  - cbn [watch_namespaces listed_namespaces]. cbv zeta.
    set (sel := match LabelSelector (filter s) with
                | Some sel => sel
                | None => ""
                end).
    destruct (list_pods ns sel) as [err|pods].
    + cbn [fst snd option_map]. split; [reflexivity|].
      exists [ListPods ns sel]. cbn. rewrite Z.add_0_r. repeat split.
    + set (s0 := emit (ListPods ns sel) s).
      destruct (launched_followers_pods pods s0)
        as (newf & T1 & F1 & W1 & Fi1 & _).
      destruct (only_followers newf F1) as (Hw & Hl & Hc).
      set (s1 := fold_left _ pods s0) in *.
      set (s2 := emit (go_watcher ns) (set_wg (wg s1 + 1) s1)).
      specialize (IH s2).
      assert (Hsel : match LabelSelector (filter s2) with
                     | Some sel => sel
                     | None => ""
                     end = sel).
      { change (filter s2) with (filter s1). rewrite Fi1. reflexivity. }
      cbv zeta in IH. rewrite Hsel in IH.
      destruct (listed_namespaces list_pods sel rest) as [ok e].
      destruct IH as (He & new' & T' & Hw' & Hl' & Hwg').
      cbn [fst snd] in *. split; [exact He|].
      exists (ListPods ns sel :: newf ++ go_watcher ns :: new').
      split.
      { rewrite T'. change (trace s2) with (trace s1 ++ [go_watcher ns]).
        rewrite T1. change (trace s0) with (trace s ++ [ListPods ns sel]).
        rewrite <- !app_assoc. reflexivity. }
      split.
      { cbn. rewrite filter_app, Hw. cbn. rewrite Hw'. reflexivity. }
      split.
      { change (ListPods ns sel :: newf ++ go_watcher ns :: new')
          with ([ListPods ns sel] ++ newf ++ [go_watcher ns] ++ new').
        rewrite !count_app, Hl, Hl'. cbn. lia. }
      rewrite Hwg'. change (wg s2) with (wg s1 + 1)%Z. rewrite W1.
      change (wg s0) with (wg s).
      change (ListPods ns sel :: newf ++ go_watcher ns :: new')
        with ([ListPods ns sel] ++ newf ++ [go_watcher ns] ++ new').
      rewrite !count_app, Hc. cbn. lia.
Qed.

End Pods.

(** X12.  [startPodLogStreamer] launches one follower for each container
    of the pod that the container regex lets through, in the order of
    the pod's containers, and registers each in the wait group; it marks
    the pod as active even when no container passes.  (The container
    state of the filter is not consulted.) *)
Theorem startPodLogStreamer_follows_passing_containers
  {M : Type} (pod : Pod) (s : @Streamer M) :
  trace (startPodLogStreamer pod s)
  = trace s
    ++ map (fun container =>
              go_follower (pod_Name pod) container (pod_Namespace pod))
         (List.filter (container_passes (filter s)) (pod_Containers pod))
  /\ wg (startPodLogStreamer pod s)
     = (wg s
        + Z.of_nat (List.length
                      (List.filter (container_passes (filter s))
                         (pod_Containers pod))))%Z
  /\ active_Load (pod_Name pod) (startPodLogStreamer pod s) = true.
Proof.
  destruct (startPodLogStreamer_spec pod s) as (A & B & _ & _ & _ & C).
  unfold followers_of in A, B. rewrite length_map in B.
  repeat split; try assumption.
  rewrite (active_Load_active _ _ _ C). apply active_Load_Store.
Qed.

(** X13.  Once the watcher has handled an ADDED or MODIFIED event for a
    pod that is not completed, a further such event for a pod of the same
    name changes nothing: no follower is launched twice.  The pods are
    told apart by name alone, so this holds as well when the second pod
    is in another namespace, whose logs are then not streamed. *)
Theorem repeated_pod_event_launches_nothing
  {M : Type} (t1 t2 : string) (pod1 pod2 : Pod) (s : @Streamer M) :
  In t1 ["ADDED"; "MODIFIED"] ->
  In t2 ["ADDED"; "MODIFIED"] ->
  pod_Name pod2 = pod_Name pod1 ->
  completed pod1 = false ->
  completed pod2 = false ->
  handle_event {| event_Type := t2; event_Object := Some pod2 |}
    (handle_event {| event_Type := t1; event_Object := Some pod1 |} s)
  = handle_event {| event_Type := t1; event_Object := Some pod1 |} s.
Proof.
  intros Ht1 Ht2 Hname Hc1 Hc2.
  rewrite (handle_event_running t1 pod1 s Ht1 Hc1).
  destruct (shouldStreamPod s pod1) eqn:Hs; cbn [andb].
  - destruct (active_Load (pod_Name pod1) s) eqn:Ha; cbn [negb].
    + rewrite (handle_event_running t2 pod2 s Ht2 Hc2).
      rewrite (shouldStreamPod_ext s s pod1 pod2 eq_refl Hname), Hs, Hname, Ha.
      reflexivity.
    + rewrite (handle_event_running t2 pod2 _ Ht2 Hc2).
      destruct (startPodLogStreamer_spec pod1 s) as (_ & _ & Hf & _ & _ & C).
      rewrite Hname, (active_Load_active _ _ _ C), active_Load_Store.
      rewrite andb_false_r. reflexivity.
  - rewrite (handle_event_running t2 pod2 s Ht2 Hc2).
    rewrite (shouldStreamPod_ext s s pod1 pod2 eq_refl Hname), Hs.
    reflexivity.
Qed.

Lemma repeated_pod_event_launches_nothing_witness :
  In "ADDED" ["ADDED"; "MODIFIED"]
  /\ In "ADDED" ["ADDED"; "MODIFIED"]
  /\ pod_Name (Example.pod "web" "staging" "Running")
     = pod_Name (Example.pod "web" "default" "Running")
  /\ completed (Example.pod "web" "default" "Running") = false
  /\ completed (Example.pod "web" "staging" "Running") = false
  /\ trace (handle_event
              {| event_Type := "ADDED";
                 event_Object := Some (Example.pod "web" "staging" "Running") |}
              (handle_event
                 {| event_Type := "ADDED";
                    event_Object :=
                      Some (Example.pod "web" "default" "Running") |}
                 (Example.streamer (@None unit) 0 0)))
     = [go_follower "web" "app" "default";
        go_follower "web" "sidecar" "default"].
Proof.
  split; [left; reflexivity|]. split; [left; reflexivity|].
  split; [reflexivity|]. split; [reflexivity|]. split; [reflexivity|].
  rewrite (repeated_pod_event_launches_nothing "ADDED" "ADDED"
             (Example.pod "web" "default" "Running")
             (Example.pod "web" "staging" "Running")
             (Example.streamer (@None unit) 0 0)
             (or_introl eq_refl) (or_introl eq_refl) eq_refl eq_refl eq_refl).
  reflexivity.
Defined.

(** X14.  A pod in phase [Succeeded] or [Failed] is taken out of the
    active set each time the watcher handles an ADDED or MODIFIED event
    for it, after its followers have been launched: so every such event
    launches all its followers again.  After [k] events the followers of
    the pod have been launched [k] times. *)
Theorem completed_pod_is_followed_again_at_every_event
  {M : Type} (t : string) (pod : Pod) (k : nat) (s : @Streamer M) :
  In t ["ADDED"; "MODIFIED"] ->
  completed pod = true ->
  shouldStreamPod s pod = true ->
  active_Load (pod_Name pod) s = false ->
  let r := watch_events
             (repeat {| event_Type := t; event_Object := Some pod |} k)
             None s in
  trace (snd r)
  = trace s ++ List.concat (repeat (followers_of (filter s) pod) k)
  /\ wg (snd r)
     = (wg s + Z.of_nat (k * List.length (followers_of (filter s) pod)))%Z
  /\ active_Load (pod_Name pod) (snd r) = false.
Proof.
  intros Ht Hc. revert s. induction k as [|k IH]; intros s Hs Ha r; subst r.
  - cbn. rewrite app_nil_r, Z.add_0_r. repeat split. exact Ha.
  - cbn [repeat watch_events stop_requested].
    rewrite (handle_event_completed t pod s Ht Hc), Hs, Ha. cbn [andb negb].
    destruct (startPodLogStreamer_spec pod s) as (A & B & Fi & _ & _ & _).
    set (s1 := active_Delete (pod_Name pod) (startPodLogStreamer pod s)).
    destruct (IH s1) as (T' & W' & A').
    + rewrite <- Hs. apply shouldStreamPod_ext; [exact Fi | reflexivity].
    + apply active_Load_Delete.
    + change (filter s1) with (filter (startPodLogStreamer pod s)) in T', W'.
      rewrite Fi in T', W'.
      change (trace s1) with (trace (startPodLogStreamer pod s)) in T'.
      change (wg s1) with (wg (startPodLogStreamer pod s)) in W'.
      rewrite T', W', A, B, <- app_assoc. cbn [List.concat repeat].
      repeat split; [lia | exact A'].
Qed.

Lemma completed_pod_is_followed_again_at_every_event_witness :
  In "MODIFIED" ["ADDED"; "MODIFIED"]
  /\ completed (Example.pod "job" "default" "Succeeded") = true
  /\ shouldStreamPod (Example.streamer (@None unit) 0 0)
       (Example.pod "job" "default" "Succeeded") = true
  /\ active_Load (pod_Name (Example.pod "job" "default" "Succeeded"))
       (Example.streamer (@None unit) 0 0) = false
  /\ trace (snd (watch_events
                   (repeat
                      {| event_Type := "MODIFIED";
                         event_Object :=
                           Some (Example.pod "job" "default" "Succeeded") |}
                      2)
                   None (Example.streamer (@None unit) 0 0)))
     = [go_follower "job" "app" "default";
        go_follower "job" "sidecar" "default";
        go_follower "job" "app" "default";
        go_follower "job" "sidecar" "default"].
Proof.
  split; [right; left; reflexivity|]. split; [reflexivity|].
  split; [reflexivity|]. split; [reflexivity|].
  destruct (completed_pod_is_followed_again_at_every_event "MODIFIED"
              (Example.pod "job" "default" "Succeeded") 2
              (Example.streamer (@None unit) 0 0)
              (or_intror (or_introl eq_refl)) eq_refl eq_refl eq_refl)
    as (H & _).
  rewrite H. reflexivity.
Defined.

(** X15.  [Start] adds to the wait group exactly the watchers and the
    followers that it launches, also when it returns an error: a start
    that fails at the listing of a namespace leaves the goroutines of the
    namespaces before it running and waited for.  (The goroutine that
    turns a stop into a cancellation is not waited for.) *)
Theorem Start_registers_what_it_launches
  {M : Type} (list_pods : Lister) (s : @Streamer M) :
  exists new,
    trace (snd (Start list_pods s)) = trace s ++ new
    /\ wg (snd (Start list_pods s))
       = (wg s + Z.of_nat (count is_waited_for new))%Z.
Proof.
  unfold Start. destruct (stopped s).
  - exists []. cbn. rewrite app_nil_r, Z.add_0_r. split; reflexivity.
  - unfold startPodWatcher.
    destruct (watch_namespaces_spec list_pods
                (Namespaces (filter (emit go_supervisor s)))
                (emit go_supervisor s)) as (_ & new & T & _ & _ & W).
    exists (go_supervisor :: new). split.
    + rewrite T. cbn. rewrite <- app_assoc. reflexivity.
    + rewrite W. reflexivity.
Qed.

(** X16.  On a Streamer that is not stopped, [Start] lists the pods of
    the namespaces of the filter in order and launches one watcher for
    each namespace whose listing succeeds, until a listing fails: it then
    returns that error as a permanent one ("failed to list pods") and
    neither lists nor watches the namespaces after it.  When every
    listing succeeds it returns nil. *)
Theorem Start_watches_namespaces_until_a_listing_fails
  {M : Type} (list_pods : Lister) (s : @Streamer M) :
  stopped s = false ->
  let listed :=
    listed_namespaces list_pods
      (match LabelSelector (filter s) with Some sel => sel | None => "" end)
      (Namespaces (filter s)) in
  fst (Start list_pods s)
  = option_map (fun err => LogStreamError err true "failed to list pods")
      (snd listed)
  /\ exists new,
       trace (snd (Start list_pods s)) = trace s ++ new
       /\ List.filter is_go_watcher new = map go_watcher (fst listed)
       /\ count is_ListPods new
          = List.length (fst listed)
            + (match snd listed with Some _ => 1 | None => 0 end).
Proof.
  intros Hs listed. subst listed. unfold Start. rewrite Hs.
  unfold startPodWatcher.
  destruct (watch_namespaces_spec list_pods
              (Namespaces (filter (emit go_supervisor s)))
              (emit go_supervisor s)) as (E & new & T & Wa & L & _).
  split; [exact E|]. exists (go_supervisor :: new).
  split; [rewrite T; cbn; rewrite <- app_assoc; reflexivity|].
  split; [exact Wa | exact L].
Qed.

Lemma Start_watches_namespaces_until_a_listing_fails_witness :
  stopped (Example.streamer (@None unit) 0 0) = false
  /\ fst (Start (fun _ _ => inl (errorString "forbidden"))
            (Example.streamer (@None unit) 0 0))
     = Some (LogStreamError (errorString "forbidden") true
               "failed to list pods").
Proof.
  split; [reflexivity|].
  apply (Start_watches_namespaces_until_a_listing_fails
           (fun _ _ => inl (errorString "forbidden"))
           (Example.streamer (@None unit) 0 0) eq_refl).
Defined.

Section WatcherRetries.

Context {M : Type}.

Implicit Types s : @Streamer M.

(** One turn in which [Watch] fails. *)
Lemma watcher_turn_failed e v s :
  (0 <= retry v)%Z ->
  (retry v < 2 ^ 63 - 1)%Z ->
  watcher_turn (inl e) v None s
  = if (retry v + 1 >? MaxRetries (retryPolicy s))%Z
    then
      (Returned, {| retry := retry v + 1; backoff := backoff v |}, None,
       emits [OnError (LogStreamError e false "failed to watch pods");
              OnError (LogStreamError
                         (errorString "exceeded maximum retries") true
                         "pod watch retries exceeded")] s)
    else
      (Continue,
       {| retry := retry v + 1;
          backoff := next_backoff (retryPolicy s) (backoff v) |}, None,
       emits [OnError (LogStreamError e false "failed to watch pods");
              TimeAfter (backoff v)] s).
Proof.
  intros H0 H1. unfold watcher_turn.
  cbn [stop_requested isPermError retry backoff emit retryPolicy].
  rewrite (int_wrap_small (retry v + 1)) by lia.
  destruct (retry v + 1 >? MaxRetries (retryPolicy s))%Z; reflexivity.
Qed.

(** One turn in which [Watch] succeeds, with no cancellation. *)
Lemma watcher_turn_watched events v s :
  watcher_turn (inr events) v None s
  = (Continue,
     {| retry := 0; backoff := InitialInterval (retryPolicy s) |}, None,
     snd (watch_events events None s)).
Proof.
  unfold watcher_turn. cbn [stop_requested].
  pose proof (watch_events_never_cancelled events s) as H.
  destruct (watch_events events None s) as [[t c] s'].
  cbn [fst snd] in H |- *. inversion H. reflexivity.
Qed.

Lemma watcher_loop_tolerated watches : forall v s,
  (0 <= retry v)%Z ->
  (retry v <= MaxRetries (retryPolicy s) \/ retry v = 0)%Z ->
  (MaxRetries (retryPolicy s) < 2 ^ 63 - 1)%Z ->
  exists new v' s',
    watcher_loop watches v None s
    = (if tolerated (MaxRetries (retryPolicy s)) (retry v) watches
       then Continue else Returned, v', None, s')
    /\ trace s' = trace s ++ new
    /\ count is_permanent_error new
       = (if tolerated (MaxRetries (retryPolicy s)) (retry v) watches
          then 0 else 1)
    /\ wg s' = (wg s + Z.of_nat (count is_go_follower new))%Z.
Proof.
  induction watches as [|[e|events] watches IH]; intros v s H0 Hr Hmax.
  - exists [], v, s. cbn. rewrite app_nil_r, Z.add_0_r. repeat split.
  - cbn [watcher_loop tolerated].
    rewrite watcher_turn_failed by lia.
    destruct (retry v + 1 >? MaxRetries (retryPolicy s))%Z eqn:Hgt.
    + replace (retry v + 1 <=? MaxRetries (retryPolicy s))%Z with false
        by (symmetry; apply Z.leb_gt; apply Z.gtb_lt in Hgt; lia).
      cbn [andb]. eexists. eexists. eexists.
      split; [reflexivity|]. rewrite emits_trace.
      split; [reflexivity|]. split; [reflexivity|].
      cbn. lia.
    + replace (retry v + 1 <=? MaxRetries (retryPolicy s))%Z with true
        by (symmetry; apply Z.leb_le;
            rewrite Z.gtb_ltb in Hgt; apply Z.ltb_ge in Hgt; lia).
      cbn [andb].
      set (s1 := emits _ s).
      set (v1 := {| retry := retry v + 1;
                    backoff := next_backoff (retryPolicy s) (backoff v) |}).
      assert (Hp : retryPolicy s1 = retryPolicy s) by apply emits_frame.
      rewrite Z.gtb_ltb in Hgt. apply Z.ltb_ge in Hgt.
      destruct (IH v1 s1) as (new & v' & s' & Hl & Ht & Hc & Hw).
      * cbn. lia.
      * left. rewrite Hp. cbn. lia.
      * rewrite Hp. exact Hmax.
      * rewrite Hp in Hl, Hc. cbn [retry v1] in Hl, Hc.
        eexists. exists v', s'. split; [exact Hl|].
        split; [rewrite Ht; unfold s1; rewrite emits_trace;
                rewrite <- app_assoc; reflexivity|].
        split; [rewrite count_app, Hc; reflexivity|].
        rewrite Hw, count_app. cbn. lia.
  - cbn [watcher_loop tolerated]. rewrite watcher_turn_watched.
    destruct (launched_followers_watch_events events None s)
      as (new1 & T1 & F1 & W1 & _ & Hp & _).
    destruct (only_followers new1 F1) as (_ & _ & Hc1).
    set (s1 := snd (watch_events events None s)) in *.
    destruct (IH {| retry := 0;
                    backoff := InitialInterval (retryPolicy s) |} s1)
      as (new & v' & s' & Hl & Ht & Hc & Hw).
    + cbn. lia.
    + right. reflexivity.
    + rewrite Hp. exact Hmax.
    + rewrite Hp in Hl, Hc. cbn [retry] in Hl, Hc.
      exists (new1 ++ new), v', s'. split; [exact Hl|].
      split; [rewrite Ht, T1, app_assoc; reflexivity|].
      split.
      * rewrite count_app, Hc.
        assert (H1 : count is_permanent_error new1 = 0).
        { clear -F1. unfold count.
          induction F1 as [|e l He _ IHl]; [reflexivity|].
          destruct e; try discriminate He. exact IHl. }
        rewrite H1. reflexivity.
      * rewrite Hw, W1, count_app.
        assert (H2 : count is_go_follower new1 = List.length new1).
        { clear -F1. unfold count.
          induction F1 as [|e l He _ IHl]; [reflexivity|].
          cbn. rewrite He. cbn. rewrite IHl. reflexivity. }
        rewrite H2. lia.
Qed.

End WatcherRetries.

(** X17.  A watcher that is never cancelled gives up exactly when [Watch]
    fails more than [MaxRetries] times in a row (a watch that succeeds
    sets the count of failures back to zero, and a watch channel that is
    closed is just reopened); it then reports one permanent error.  The
    wait group grows by the followers it launches and is released once
    when it gives up. *)
Theorem watcher_gives_up_iff_too_many_failures_in_a_row
  {M : Type} (watches : list WatchResult) (s : @Streamer M) :
  (MaxRetries (retryPolicy s) < 2 ^ 63 - 1)%Z ->
  let r := watcher watches None s in
  let goes_on := tolerated (MaxRetries (retryPolicy s)) 0 watches in
  fst (fst (fst r)) = (if goes_on then Continue else Returned)
  /\ exists new,
       trace (snd r) = trace s ++ new
       /\ count is_permanent_error new = (if goes_on then 0 else 1)
       /\ wg (snd r)
          = (wg s + Z.of_nat (count is_go_follower new)
             - (if goes_on then 0 else 1))%Z.
Proof.
  intros Hmax r goes_on. subst r goes_on. unfold watcher.
  destruct (watcher_loop_tolerated watches
              {| retry := 0; backoff := InitialInterval (retryPolicy s) |}
              s) as (new & v' & s' & Hl & Ht & Hc & Hw);
    [cbn; lia | right; reflexivity | exact Hmax |].
  rewrite Hl. cbn [retry] in Hc |- *.
  destruct (tolerated (MaxRetries (retryPolicy s)) 0 watches);
    cbn [fst snd set_wg trace wg]; (split; [reflexivity|]);
    exists new; rewrite Hw; repeat split; try assumption; lia.
Qed.

Lemma watcher_gives_up_iff_too_many_failures_in_a_row_witness :
  (MaxRetries (retryPolicy (Example.streamer (@None unit) 0 1))
   < 2 ^ 63 - 1)%Z
  /\ fst (fst (fst (watcher
                      [inl (errorString "timeout");
                       inr [{| event_Type := "ADDED";
                               event_Object :=
                                 Some (Example.pod "web" "default"
                                         "Running") |}];
                       inl (errorString "timeout")]
                      None (Example.streamer (@None unit) 0 1))))
     = Continue
  /\ fst (fst (fst (watcher
                      [inl (errorString "timeout");
                       inl (errorString "timeout")]
                      None (Example.streamer (@None unit) 0 1))))
     = Returned.
Proof.
  split; [reflexivity|]. split.
  - apply (watcher_gives_up_iff_too_many_failures_in_a_row
             [inl (errorString "timeout");
              inr [{| event_Type := "ADDED";
                      event_Object :=
                        Some (Example.pod "web" "default" "Running") |}];
              inl (errorString "timeout")]
             (Example.streamer (@None unit) 0 1) eq_refl).
  - apply (watcher_gives_up_iff_too_many_failures_in_a_row
             [inl (errorString "timeout"); inl (errorString "timeout")]
             (Example.streamer (@None unit) 0 1) eq_refl).
Defined.

(* ===================================================================== *)
(** * The JSON matcher                                                   *)
(* ===================================================================== *)

Lemma int_wrap_add_l a b :
  Go.int_wrap (Go.int_wrap a + b) = Go.int_wrap (a + b).
Proof.
  unfold Go.int_wrap. f_equal.
  replace ((a + 2 ^ 63) mod 2 ^ 64 - 2 ^ 63 + b + 2 ^ 63)%Z
    with ((a + 2 ^ 63) mod 2 ^ 64 + b)%Z by lia.
  rewrite Zplus_mod_idemp_l. f_equal. lia.
Qed.

Lemma int_wrap_idem a : Go.int_wrap (Go.int_wrap a) = Go.int_wrap a.
Proof.
  pose proof (int_wrap_add_l a 0) as H. rewrite !Z.add_0_r in H. exact H.
Qed.

(** The loop over the runes adds the balance of the text, in 64-bit
    arithmetic. *)
Lemma countBrackets_balance previous : forall count,
  Go.int_wrap count = count ->
  matcher.countBrackets previous count
  = Go.int_wrap (count + balance previous).
Proof.
  induction previous as [|c rest IH]; intros count Hc.
  - cbn. rewrite Z.add_0_r. symmetry. exact Hc.
  - cbn [matcher.countBrackets balance].
    destruct (Ascii.eqb c "{"); [|destruct (Ascii.eqb c "}")].
    + rewrite IH by apply int_wrap_idem. rewrite int_wrap_add_l.
      f_equal. lia.
    + rewrite IH by apply int_wrap_idem. rewrite int_wrap_add_l.
      f_equal. lia.
    + rewrite IH by exact Hc. reflexivity.
Qed.

(** A call of the JSON matcher in bracket mode, on a line that is not
    continued. *)
Lemma JSONMatcher_ShouldMerge_depth m previous next :
  matcher.BracketMode m = true ->
  continued previous = false ->
  (- 2 ^ 63 <= matcher.BracketCount m < 2 ^ 63)%Z ->
  (- 2 ^ 63 <= matcher.BracketCount m + balance previous < 2 ^ 63)%Z ->
  matcher.JSONMatcher_ShouldMerge m previous next
  = ((0 <? matcher.BracketCount m + balance previous)%Z,
     matcher.setBracketCount m
       (Z.max 0 (matcher.BracketCount m + balance previous))).
Proof.
  intros Hmode Hcont Hc Hd. unfold matcher.JSONMatcher_ShouldMerge.
  unfold continued in Hcont. rewrite Hcont, Hmode. cbn [negb]. cbv zeta.
  assert (Hcount :
    matcher.BracketCount
      (if MatchString (matcher.StartObjectRegex m) previous
          && (matcher.BracketCount m =? 0)%Z
       then
         matcher.setBracketCount
           (matcher.setBracketCount (matcher.setBracketCount m 1)
              (matcher.countBrackets previous
                 (matcher.BracketCount (matcher.setBracketCount m 1))))
           (Go.int_wrap
              (matcher.BracketCount
                 (matcher.setBracketCount (matcher.setBracketCount m 1)
                    (matcher.countBrackets previous
                       (matcher.BracketCount
                          (matcher.setBracketCount m 1)))) - 1))
       else
         matcher.setBracketCount m
           (matcher.countBrackets previous (matcher.BracketCount m)))
    = (matcher.BracketCount m + balance previous)%Z).
  { destruct (MatchString (matcher.StartObjectRegex m) previous); cbn [andb].
    - destruct (matcher.BracketCount m =? 0)%Z eqn:H0.
      + apply Z.eqb_eq in H0. cbn [matcher.BracketCount matcher.setBracketCount].
        rewrite countBrackets_balance by reflexivity.
        replace (Go.int_wrap (1 + balance previous) - 1)%Z
          with (Go.int_wrap (1 + balance previous) + -1)%Z by lia.
        rewrite int_wrap_add_l, H0.
        replace (1 + balance previous + -1)%Z with (0 + balance previous)%Z
          by lia.
        rewrite H0 in Hd. apply int_wrap_small. exact Hd.
      + cbn [matcher.BracketCount matcher.setBracketCount].
        rewrite countBrackets_balance by (apply int_wrap_small; exact Hc).
        apply int_wrap_small. exact Hd.
    - cbn [matcher.BracketCount matcher.setBracketCount].
      rewrite countBrackets_balance by (apply int_wrap_small; exact Hc).
      apply int_wrap_small. exact Hd. }
  set (m1 := if MatchString (matcher.StartObjectRegex m) previous
                && (matcher.BracketCount m =? 0)%Z
             then _ else _) in *.
  assert (Hm1 : m1 = matcher.setBracketCount m
                       (matcher.BracketCount m + balance previous)).
  { rewrite <- Hcount. subst m1.
    destruct (MatchString (matcher.StartObjectRegex m) previous
              && (matcher.BracketCount m =? 0)%Z); reflexivity. }
  rewrite Hcount.
  destruct (matcher.BracketCount m + balance previous <=? 0)%Z eqn:Hle.
  - apply Z.leb_le in Hle.
    replace (0 <? matcher.BracketCount m + balance previous)%Z with false
      by (symmetry; apply Z.ltb_ge; exact Hle).
    rewrite Z.max_l by exact Hle. rewrite Hm1. reflexivity.
  - apply Z.leb_gt in Hle.
    replace (0 <? matcher.BracketCount m + balance previous)%Z with true
      by (symmetry; apply Z.ltb_lt; exact Hle).
    rewrite Z.max_r by lia. rewrite Hm1. reflexivity.
Qed.

(** The lines of an object that is open are merged into the pending run,
    which is closed by the first line after them. *)
Lemma reassemble_object max m0 rest lines : forall cur last depth,
  matcher.BracketMode m0 = true ->
  cur <> [] ->
  (0 <= depth < 2 ^ 63)%Z ->
  object_lines depth (last :: lines) = true ->
  (Z.of_nat (List.length cur + List.length lines) < max)%Z ->
  reassemble matcher.JSONMatcher_ShouldMerge max
    (matcher.setBracketCount m0 depth) cur (string_of_list_byte last)
    (lines ++ rest)
  = (cur ++ lines)
    :: reassemble matcher.JSONMatcher_ShouldMerge max
         (matcher.setBracketCount m0 0) [] "" rest.
Proof.
  induction lines as [|l lines IH]; intros cur last depth Hmode Hcur Hd Ho Hmax.
  - cbn [object_lines] in Ho.
    apply andb_prop in Ho. destruct Ho as [Hc Ho].
    apply negb_true_iff in Hc.
    apply andb_prop in Ho. destruct Ho as [Hlo Hhi].
    apply Z.leb_le in Hlo, Hhi.
    rewrite app_nil_r. cbn [app].
    destruct rest as [|l' rest'].
    + destruct cur; [contradiction|reflexivity].
    + destruct cur as [|c0 cur']; [contradiction|].
      cbn [reassemble].
      rewrite (JSONMatcher_ShouldMerge_depth
                 (matcher.setBracketCount m0 depth)
                 (string_of_list_byte last) (string_of_list_byte l')
                 Hmode Hc); cbn [matcher.BracketCount matcher.setBracketCount];
        [|lia|lia].
      replace (0 <? depth + balance (string_of_list_byte last))%Z with false
        by (symmetry; apply Z.ltb_ge; exact Hhi).
      rewrite Z.max_l by exact Hhi. reflexivity.
  - cbn [object_lines] in Ho.
    apply andb_prop in Ho. destruct Ho as [Hc Ho].
    apply negb_true_iff in Hc.
    apply andb_prop in Ho. destruct Ho as [Ho Hrest].
    apply andb_prop in Ho. destruct Ho as [Hlo Hhi].
    apply Z.ltb_lt in Hlo, Hhi.
    destruct cur as [|c0 cur']; [contradiction|].
    change ((l :: lines) ++ rest) with (l :: (lines ++ rest)).
    cbn [reassemble].
    rewrite (JSONMatcher_ShouldMerge_depth
               (matcher.setBracketCount m0 depth)
               (string_of_list_byte last) (string_of_list_byte l)
               Hmode Hc); cbn [matcher.BracketCount matcher.setBracketCount];
      [|lia|lia].
    replace (0 <? depth + balance (string_of_list_byte last))%Z with true
      by (symmetry; apply Z.ltb_lt; exact Hlo).
    rewrite Z.max_r by lia.
    cbn [List.length] in Hmax.
    change (matcher.setBracketCount (matcher.setBracketCount m0 depth)
              (depth + balance (string_of_list_byte last)))
      with (matcher.setBracketCount m0
              (depth + balance (string_of_list_byte last))).
    replace (Z.of_nat (List.length ((c0 :: cur') ++ [l])) >=? max)%Z
      with false
      by (symmetry; rewrite Z.geb_leb; apply Z.leb_gt;
          rewrite length_app; cbn [List.length]; lia).
    rewrite (IH ((c0 :: cur') ++ [l]) l
               (depth + balance (string_of_list_byte last))%Z Hmode).
    + rewrite <- app_assoc. reflexivity.
    + destruct cur'; discriminate.
    + lia.
    + exact Hrest.
    + rewrite length_app. cbn [List.length]. lia.
Qed.

(** X18.  In bracket mode and on a previous line that does not end with a
    backslash, the JSON matcher adds to its count the number of opening
    braces of the previous line less that of its closing braces, merges
    exactly when the result is positive, and keeps the result, or zero
    when it is negative.  Neither [next] nor the two regular expressions
    of the matcher have any influence. *)
Theorem JSONMatcher_counts_braces_of_previous_line
  (m : matcher.JSONMatcher) (previous next : string) :
  matcher.BracketMode m = true ->
  continued previous = false ->
  (- 2 ^ 63 <= matcher.BracketCount m < 2 ^ 63)%Z ->
  (- 2 ^ 63 <= matcher.BracketCount m + balance previous < 2 ^ 63)%Z ->
  matcher.JSONMatcher_ShouldMerge m previous next
  = ((0 <? matcher.BracketCount m + balance previous)%Z,
     matcher.setBracketCount m
       (Z.max 0 (matcher.BracketCount m + balance previous))).
Proof. apply JSONMatcher_ShouldMerge_depth. Qed.

Lemma JSONMatcher_counts_braces_of_previous_line_witness :
  matcher.BracketMode matcher.NewJSONMatcher = true
  /\ continued "{ {" = false
  /\ (- 2 ^ 63 <= matcher.BracketCount matcher.NewJSONMatcher < 2 ^ 63)%Z
  /\ (- 2 ^ 63 <= matcher.BracketCount matcher.NewJSONMatcher
                  + balance "{ {" < 2 ^ 63)%Z
  /\ matcher.JSONMatcher_ShouldMerge matcher.NewJSONMatcher "{ {" "}"
     = (true, matcher.setBracketCount matcher.NewJSONMatcher 2).
Proof.
  split; [reflexivity|]. split; [reflexivity|].
  split; [split; cbn; lia|]. split; [split; cbn; lia|].
  apply (JSONMatcher_counts_braces_of_previous_line matcher.NewJSONMatcher
           "{ {" "}" eq_refl eq_refl);
    split; cbn; lia.
Defined.

(** The lines of an object make up one run, and the lines that follow
    are cut as from a fresh start. *)
Lemma reassemble_JSON_object
  (max : Z) (m : matcher.JSONMatcher) (lines rest : list (list byte)) :
  matcher.BracketMode m = true ->
  matcher.BracketCount m = 0%Z ->
  object_lines 0 lines = true ->
  (Z.of_nat (List.length lines) < max)%Z ->
  reassemble matcher.JSONMatcher_ShouldMerge max m [] "" (lines ++ rest)
  = lines :: reassemble matcher.JSONMatcher_ShouldMerge max m [] "" rest.
Proof.
  intros Hmode Hcount Ho Hmax.
  destruct lines as [|l lines]; [discriminate Ho|].
  assert (Hm : m = matcher.setBracketCount m 0)
    by (destruct m; cbn in Hcount; subst; reflexivity).
  rewrite Hm at 1 2. cbn [app reassemble].
  rewrite (reassemble_object max m rest lines [l] l 0 Hmode);
    [reflexivity | discriminate | lia | exact Ho |].
  cbn [List.length] in Hmax |- *. lia.
Qed.

(* ===================================================================== *)
(** * The filter and its builder                                         *)
(* ===================================================================== *)

Lemma Validate_None now f :
  filterpkg.Validate now f = None
  <-> Namespaces f <> []
      /\ valid_state (ContainerState f) = true
      /\ match Since f with Some t => (t <= now)%Z | None => True end.
Proof.
  unfold filterpkg.Validate, filterpkg.IsEmpty, valid_state.
  destruct (Namespaces f) as [|ns rest].
  - cbn [List.length Nat.eqb]. rewrite andb_true_r.
    split; [|intros (H & _); contradiction].
    match goal with |- (if ?b then _ else _) = _ -> _ => destruct b end;
      discriminate.
  - cbn [List.length Nat.eqb]. rewrite andb_false_r.
    destruct (String.eqb (ContainerState f) "");
      destruct (String.eqb (ContainerState f) "all");
      destruct (String.eqb (ContainerState f) "running");
      destruct (String.eqb (ContainerState f) "terminated");
      cbn [negb andb orb];
      try (split; [discriminate | intros (_ & H & _); discriminate H]);
      (destruct (Since f) as [t|];
       [destruct (t >? now)%Z eqn:Ht;
        [split; [discriminate|]; intros (_ & _ & H);
         apply Z.gtb_lt in Ht; lia
        |split; [intros _|reflexivity];
         rewrite Z.gtb_ltb in Ht; apply Z.ltb_ge in Ht;
         repeat split; [discriminate | exact Ht]]
       |split; [intros _; repeat split; discriminate | reflexivity]]).
Qed.

Section BuilderChains.

Variable Compile : string -> option Regexp.
Variable SelectorFromSet : string -> string -> string.

Local Abbreviation do_ := (do_builder_call Compile SelectorFromSet).

Lemma chain_fields calls : forall b,
  Namespaces (fold_left do_ calls b) = Namespaces b ++ named_namespaces calls
  /\ ContainerState (fold_left do_ calls b)
     = asked_state (ContainerState b) calls.
Proof.
  induction calls as [|c calls IH]; intros b.
  - cbn. rewrite app_nil_r. split; reflexivity.
  - cbn [fold_left]. destruct (IH (do_ b c)) as [A B]. rewrite A, B.
    unfold named_namespaces, asked_state. cbn [flat_map fold_left].
    destruct c as [p | p | k v | p | t d | st | ns]; cbn [do_builder_call].
    + unfold filterpkg.PodRegex.
      destruct (negb (String.eqb p "")); [destruct (Compile p)|];
        split; reflexivity.
    + unfold filterpkg.ContainerRegex_.
      destruct (negb (String.eqb p "")); [destruct (Compile p)|];
        split; reflexivity.
    + unfold filterpkg.Label.
      destruct (negb (String.eqb k "")); split; reflexivity.
    + unfold filterpkg.Include.
      destruct (negb (String.eqb p "")); [destruct (Compile p)|];
        split; reflexivity.
    + unfold filterpkg.Since_.
      destruct (d >=? 0)%Z; split; reflexivity.
    + unfold filterpkg.ContainerState_.
      destruct (String.eqb st ""); split; reflexivity.
    + unfold filterpkg.Namespace_.
      destruct (String.eqb ns ""); cbn [negb];
        [split; reflexivity|].
      cbn [Namespaces ContainerState]. rewrite <- app_assoc.
      split; reflexivity.
Qed.

Lemma chain_Since now calls : forall b,
  clock_reads_before now calls ->
  match Since b with Some t => (t <= now)%Z | None => True end ->
  match Since (fold_left do_ calls b) with
  | Some t => (t <= now)%Z
  | None => True
  end.
Proof.
  induction calls as [|c calls IH]; intros b Hc Hb; [exact Hb|].
  inversion Hc as [|c' calls' Hc1 Hc2]; subst.
  cbn [fold_left]. apply IH; [exact Hc2|].
  destruct c as [p | p | k v | p | t d | st | ns]; cbn [do_builder_call].
  - unfold filterpkg.PodRegex.
    destruct (negb (String.eqb p "")); [destruct (Compile p)|]; exact Hb.
  - unfold filterpkg.ContainerRegex_.
    destruct (negb (String.eqb p "")); [destruct (Compile p)|]; exact Hb.
  - unfold filterpkg.Label.
    destruct (negb (String.eqb k "")); exact Hb.
  - unfold filterpkg.Include.
    destruct (negb (String.eqb p "")); [destruct (Compile p)|]; exact Hb.
  - unfold filterpkg.Since_.
    destruct (d >=? 0)%Z eqn:Hd; [|exact Hb].
    cbn [Since]. rewrite Z.geb_leb in Hd. apply Z.leb_le in Hd. lia.
  - unfold filterpkg.ContainerState_.
    destruct (negb (String.eqb st "")); exact Hb.
  - unfold filterpkg.Namespace_.
    destruct (negb (String.eqb ns "")); exact Hb.
Qed.

End BuilderChains.

(** X20.  [Validate] accepts a filter exactly when it names at least one
    namespace, its container state is empty or one of "all", "running"
    and "terminated", and its since time, if any, is not after the
    present.  A filter without namespace is never accepted, whatever else
    it holds: whether it is "empty" only decides which error is
    returned. *)
Theorem Validate_accepts_iff (now : Z) (f : LogFilter) :
  filterpkg.Validate now f = None
  <-> Namespaces f <> []
      /\ valid_state (ContainerState f) = true
      /\ match Since f with Some t => (t <= now)%Z | None => True end.
Proof. apply Validate_None. Qed.

(** X21.  The filter that [Build] returns after a chain of calls on a new
    builder holds the non-empty namespaces named by the calls of
    [Namespace], in the order of the calls, and there is at least one;
    its container state is the last non-empty one asked for, or "all".
    Empty arguments, and patterns that do not compile, leave no trace. *)
Theorem Build_returns_what_the_chain_named
  (Compile : string -> option Regexp)
  (SelectorFromSet : string -> string -> string)
  (now : Z) (calls : list builder_call) (f : LogFilter) :
  filterpkg.Build now (chain Compile SelectorFromSet calls) = inr f ->
  Namespaces f = named_namespaces calls
  /\ named_namespaces calls <> []
  /\ ContainerState f = asked_state "all" calls
  /\ valid_state (asked_state "all" calls) = true.
Proof.
  unfold filterpkg.Build, chain.
  destruct (filterpkg.Validate now _) as [err|] eqn:Hv; [discriminate|].
  intros H. inversion H; subst f. clear H.
  apply Validate_None in Hv. destruct Hv as (Hn & Hs & _).
  destruct (chain_fields Compile SelectorFromSet calls
              filterpkg.NewLogFilterBuilder) as [A B].
  cbn [filterpkg.NewLogFilterBuilder filterpkg.NewLogFilter Namespaces
       ContainerState app] in A, B.
  rewrite A in Hn |- *. rewrite B in Hs |- *.
  repeat split; assumption.
Qed.

Lemma Build_returns_what_the_chain_named_witness :
  filterpkg.Build 100
    (chain (fun _ => None) (fun k v => (k ++ "=" ++ v)%string)
       [call_Namespace "default"; call_PodRegex "("; call_Namespace "";
        call_ContainerState "running"; call_Namespace "kube-system"])
  = inr {| PodNameRegex := None; ContainerRegex := None;
           LabelSelector := None; IncludeRegex := None; Since := None;
           ContainerState := "running";
           Namespaces := ["default"; "kube-system"] |}
  /\ Namespaces {| PodNameRegex := None; ContainerRegex := None;
                   LabelSelector := None; IncludeRegex := None;
                   Since := None; ContainerState := "running";
                   Namespaces := ["default"; "kube-system"] |}
     = named_namespaces
         [call_Namespace "default"; call_PodRegex "("; call_Namespace "";
          call_ContainerState "running"; call_Namespace "kube-system"].
Proof.
  split; [reflexivity|].
  apply (Build_returns_what_the_chain_named (fun _ => None)
           (fun k v => (k ++ "=" ++ v)%string) 100
           [call_Namespace "default"; call_PodRegex "("; call_Namespace "";
            call_ContainerState "running"; call_Namespace "kube-system"]
           _ eq_refl).
Defined.

(** X22.  When the clock does not go backwards between the calls of
    [Since] and [Build], a chain of calls on a new builder builds a filter
    exactly when it names a non-empty namespace and the container state
    it asks for is valid: the since time set through the builder is never
    refused, and no pattern, label or duration can make [Build] fail. *)
Theorem Build_succeeds_iff
  (Compile : string -> option Regexp)
  (SelectorFromSet : string -> string -> string)
  (now : Z) (calls : list builder_call) :
  clock_reads_before now calls ->
  (exists f,
     filterpkg.Build now (chain Compile SelectorFromSet calls) = inr f)
  <-> named_namespaces calls <> []
      /\ valid_state (asked_state "all" calls) = true.
Proof.
  intros Hclock. unfold filterpkg.Build, chain.
  destruct (chain_fields Compile SelectorFromSet calls
              filterpkg.NewLogFilterBuilder) as [A B].
  cbn [filterpkg.NewLogFilterBuilder filterpkg.NewLogFilter Namespaces
       ContainerState app] in A, B.
  pose proof (chain_Since Compile SelectorFromSet now calls
                filterpkg.NewLogFilterBuilder Hclock I) as Hs.
  destruct (filterpkg.Validate now _) as [err|] eqn:Hv.
  - split; [intros [f Hf]; discriminate|].
    intros (Hn & Hst).
    assert (Hnone : filterpkg.Validate now
                      (fold_left (do_builder_call Compile SelectorFromSet)
                         calls filterpkg.NewLogFilterBuilder) = None).
    { apply Validate_None. rewrite A, B. repeat split; assumption. }
    congruence.
  - apply Validate_None in Hv. destruct Hv as (Hn & Hst & _).
    rewrite A in Hn. rewrite B in Hst.
    split; [intros _; split; assumption|].
    intros _. eexists. reflexivity.
Qed.

Lemma Build_succeeds_iff_witness :
  clock_reads_before 100 [call_Since 90 30; call_Namespace "default"]
  /\ exists f,
       filterpkg.Build 100
         (chain (fun _ => None) (fun k v => (k ++ "=" ++ v)%string)
            [call_Since 90 30; call_Namespace "default"])
       = inr f.
Proof.
  assert (H : clock_reads_before 100
                [call_Since 90 30; call_Namespace "default"]).
  { repeat constructor. cbn. lia. }
  split; [exact H|].
  apply (Build_succeeds_iff (fun _ => None)
           (fun k v => (k ++ "=" ++ v)%string) 100
           [call_Since 90 30; call_Namespace "default"] H).
  split; [discriminate | reflexivity].
Defined.

(* ===================================================================== *)
(** * Errors that tell of a deleted pod                                  *)
(* ===================================================================== *)

Lemma Contains_spec s sub : Go.Contains s sub = true <-> occurs_in sub s.
Proof.
  unfold occurs_in. induction s as [|c s IH]; cbn [Go.Contains].
  - rewrite orb_false_r, HasPrefix_spec. unfold starts_with. split.
    + intros [r Hr]. exists ""%string, r. exact Hr.
    + intros (a & b & H). destruct a as [|x a]; [|discriminate H].
      exists b. exact H.
  - rewrite orb_true_iff, HasPrefix_spec, IH. unfold starts_with. split.
    + intros [[r Hr] | (a & b & H)].
      * exists ""%string, r. exact Hr.
      * exists (String c a), b. cbn. rewrite H. reflexivity.
    + intros (a & b & H). destruct a as [|x a].
      * left. exists b. exact H.
      * right. exists a, b. cbn in H. inversion H. reflexivity.
Qed.

(** X23.  [IsPodDeletedError] holds exactly of [io.EOF] itself and of the
    errors whose text holds one of the four phrases "container not
    found", "pod not found", "has been terminated" and "has been
    deleted", anywhere; it does not hold of nil.  An error that wraps
    [io.EOF] is told by its text alone. *)
Theorem IsPodDeletedError_iff (err : option error) :
  IsPodDeletedError err = true
  <-> exists e,
        err = Some e
        /\ (e = io_EOF
            \/ exists phrase,
                 In phrase pod_gone_phrases /\ occurs_in phrase (Error e)).
Proof.
  unfold IsPodDeletedError. destruct err as [e|].
  - destruct (is_EOF e) eqn:He.
    + split; [intros _|reflexivity]. exists e. split; [reflexivity|].
      left. destruct e; try discriminate He. reflexivity.
    + assert (Hne : e <> io_EOF) by (intros ->; discriminate He).
      destruct (Go.Contains (Error e) "container not found") eqn:H1;
        [|destruct (Go.Contains (Error e) "pod not found") eqn:H2;
          [|destruct (Go.Contains (Error e) "has been terminated") eqn:H3;
            [|destruct (Go.Contains (Error e) "has been deleted") eqn:H4]]];
        cbn [orb].
      * split; [intros _|reflexivity]. exists e. split; [reflexivity|].
        right. exists "container not found"%string.
        split; [cbn; tauto | apply Contains_spec; exact H1].
      * split; [intros _|reflexivity]. exists e. split; [reflexivity|].
        right. exists "pod not found"%string.
        split; [cbn; tauto | apply Contains_spec; exact H2].
      * split; [intros _|reflexivity]. exists e. split; [reflexivity|].
        right. exists "has been terminated"%string.
        split; [cbn; tauto | apply Contains_spec; exact H3].
      * split; [intros _|reflexivity]. exists e. split; [reflexivity|].
        right. exists "has been deleted"%string.
        split; [cbn; tauto | apply Contains_spec; exact H4].
      * split; [discriminate|].
        intros (e' & He' & [Heof | (phrase & Hin & Hocc)]);
          inversion He'; subst e'; [contradiction|].
        apply Contains_spec in Hocc.
        destruct Hin as [<- | [<- | [<- | [<- | []]]]]; congruence.
  - split; [discriminate|]. intros (e & He & _). discriminate He.
Qed.

(* ===================================================================== *)
(** * What is delivered, whenever the stream is cancelled                *)
(* ===================================================================== *)

Lemma string_of_list_byte_app (a b : list byte) :
  string_of_list_byte (a ++ b)
  = (string_of_list_byte a ++ string_of_list_byte b)%string.
Proof.
  induction a as [|x a IH]; [reflexivity|].
  cbn [app]. unfold string_of_list_byte in *. cbn [map string_of_list_ascii].
  rewrite IH. reflexivity.
Qed.

Lemma joined_raw_text (run : list (list byte)) :
  string_of_list_byte (joined_raw run) = joined_text run.
Proof.
  unfold joined_text. destruct run as [|raw rest]; [reflexivity|].
  cbn [joined_raw]. revert raw.
  induction rest as [|r rest IH]; intros raw.
  - cbn. rewrite app_nil_r. reflexivity.
  - cbn [flat_map].
    rewrite string_of_list_byte_app.
    change ((newline :: r) ++ flat_map (fun r0 => newline :: r0) rest)
      with ([newline] ++ (r ++ flat_map (fun r0 => newline :: r0) rest)).
    rewrite string_of_list_byte_app, IH. reflexivity.
Qed.

Lemma concat_singletons {A : Type} (l : list A) :
  List.concat (map (fun x => [x]) l) = l.
Proof. induction l as [|x l IH]; [reflexivity|]. cbn. rewrite IH. reflexivity. Qed.

Section Delivered.

Context {M : Type}.
Variable ShouldMerge : M -> string -> string -> bool * M.
Variable clock : nat -> Z.
Variables podName containerName namespace : string.

Implicit Types s : @Streamer M.

Local Abbreviation processLogStream_ :=
  (fun stream ctx s =>
     processLogStream ShouldMerge clock stream podName containerName
       namespace ctx s).
Local Abbreviation records_ :=
  (records clock podName containerName namespace).

(** A cancellation that comes after the end of the stream changes
    nothing. *)
Lemma processLogStream_exhausted stream k s :
  List.length (scanned_lines stream) <= k ->
  fst (fst (processLogStream_ stream (Some k) s))
  = fst (fst (processLogStream_ stream None s))
  /\ snd (processLogStream_ stream (Some k) s)
     = snd (processLogStream_ stream None s).
Proof.
  intros Hk. unfold scanned_lines in Hk. rewrite length_map in Hk.
  apply Nat.ltb_ge in Hk.
  unfold processLogStream. destruct (matcher s) as [m|].
  - unfold processMultilineLogStream. cbv zeta. rewrite scan_for_fold.
    pose proof (scan_for_cancelled
                  (multi_line ShouldMerge clock podName containerName
                     namespace)
                  (NewScanner stream) k (no_pending, s)) as H.
    cbv zeta in H. rewrite Hk in H. rewrite H.
    destruct (fold_left _ _ (no_pending, s)) as [p1 s1].
    destruct (flush clock podName containerName namespace p1 s1)
      as [p2 s2].
    destruct (after_scan _ podName s2) as [err s3]. split; reflexivity.
  - cbv zeta. rewrite scan_for_fold.
    pose proof (scan_for_cancelled
                  (single_line clock podName containerName namespace)
                  (NewScanner stream) k s) as H.
    cbv zeta in H. rewrite Hk in H. rewrite H.
    destruct (after_scan _ podName _) as [err s3]. split; reflexivity.
Qed.

Lemma reassemble_open_nonempty max m cur last lines :
  Forall (fun run => run <> [])
    (fst (reassemble_open ShouldMerge max m cur last lines)).
Proof.
  pose proof (reassemble_nonempty ShouldMerge max lines m cur last) as H.
  rewrite (reassemble_open_close ShouldMerge) in H.
  apply Forall_app in H. apply H.
Qed.

(** Whenever it is cancelled, what [processLogStream] has delivered are
    the records of runs that make up a prefix of the scanned lines. *)
Lemma processLogStream_runs stream ctx s :
  exists runs rest,
    trace (snd (processLogStream_ stream ctx s))
    = trace s
      ++ map OnLog
           (records_ (formatter s) (ticks s)
              (List.filter (included (filter s)) runs))
    /\ List.concat runs ++ rest = scanned_lines stream
    /\ Forall (fun run => run <> []) runs.
Proof.
  assert (Hend : exists runs rest,
            trace (snd (processLogStream_ stream None s))
            = trace s
              ++ map OnLog
                   (records_ (formatter s) (ticks s)
                      (List.filter (included (filter s)) runs))
            /\ List.concat runs ++ rest = scanned_lines stream
            /\ Forall (fun run => run <> []) runs).
  { destruct (matcher s) as [m|] eqn:Hm.
    - destruct (processLogStream_multi ShouldMerge clock podName
                  containerName namespace stream s m Hm) as [m' H].
      exists (reassemble ShouldMerge (maxMultilines s) m [] ""
                (scanned_lines stream)), [].
      rewrite H. cbn [snd set_matcher trace].
      rewrite after_scan_trace, fold_deliver_trace.
      split; [reflexivity|]. rewrite app_nil_r, reassemble_concat.
      split; [reflexivity | apply reassemble_nonempty].
    - exists (map (fun l => [l]) (scanned_lines stream)), [].
      rewrite (processLogStream_single ShouldMerge clock podName
                 containerName namespace stream s Hm).
      cbn [snd]. rewrite after_scan_trace, fold_deliver_trace.
      split; [reflexivity|]. rewrite app_nil_r, concat_singletons.
      split; [reflexivity|].
      apply Forall_forall. intros run Hrun. apply in_map_iff in Hrun.
      destruct Hrun as (l & <- & _). discriminate. }
  destruct ctx as [k|]; [|exact Hend].
  destruct (Nat.ltb k (List.length (scanned_lines stream))) eqn:Hk.
  - apply Nat.ltb_lt in Hk. destruct (matcher s) as [m|] eqn:Hm.
    + destruct (processLogStream_multi_cancelled ShouldMerge clock podName
                  containerName namespace stream s m k Hm Hk) as [m' H].
      exists (fst (reassemble_open ShouldMerge (maxMultilines s) m [] ""
                     (firstn k (scanned_lines stream)))),
        (snd (reassemble_open ShouldMerge (maxMultilines s) m [] ""
                (firstn k (scanned_lines stream)))
         ++ skipn k (scanned_lines stream)).
      rewrite H. cbn [snd set_matcher trace]. rewrite fold_deliver_trace.
      split; [reflexivity|].
      rewrite app_assoc, (reassemble_open_concat ShouldMerge).
      cbn [app]. rewrite firstn_skipn.
      split; [reflexivity | apply reassemble_open_nonempty].
    + exists (map (fun l => [l]) (firstn k (scanned_lines stream))),
        (skipn k (scanned_lines stream)).
      rewrite (processLogStream_single_cancelled ShouldMerge clock podName
                 containerName namespace stream s k Hm Hk).
      cbn [snd]. rewrite fold_deliver_trace.
      split; [reflexivity|]. rewrite concat_singletons, firstn_skipn.
      split; [reflexivity|].
      apply Forall_forall. intros run Hrun. apply in_map_iff in Hrun.
      destruct Hrun as (l & <- & _). discriminate.
  - apply Nat.ltb_ge in Hk.
    destruct (processLogStream_exhausted stream k s Hk) as [_ Hs].
    rewrite Hs. exact Hend.
Qed.

Lemma records_filtered s runs : forall k,
  Forall (is_filtered_record s)
    (map OnLog
       (records_ (formatter s) k (List.filter (included (filter s)) runs))).
Proof.
  induction runs as [|run runs IH]; intros k; [constructor|].
  cbn [List.filter]. destruct (included (filter s) run) eqn:Hi; [|apply IH].
  cbn [records map]. constructor; [|apply IH].
  eexists. split; [reflexivity|].
  unfold record_of. cbn [setMessage Raw Message Namespace PodName
                          ContainerName Timestamp].
  rewrite joined_raw_text. split.
  - unfold excluded. unfold included in Hi.
    destruct (IncludeRegex (filter s)) as [re|]; [|reflexivity].
    rewrite Hi. reflexivity.
  - reflexivity.
Qed.

End Delivered.

(** X24.  Whatever the stream and whenever it is cancelled, the records
    that [processLogStream] delivers are those of non-empty runs of
    consecutive lines that together make up a prefix of the lines
    scanned, less the runs that the include regex rejects: no line is
    delivered twice or out of order, and nothing is delivered that was
    not read. *)
Theorem processLogStream_delivers_runs_of_a_prefix
  {M : Type} (ShouldMerge : M -> string -> string -> bool * M)
  (clock : nat -> Z) (stream : Reader)
  (podName containerName namespace : string) (ctx : signal)
  (s : @Streamer M) :
  exists runs rest,
    trace (snd (processLogStream ShouldMerge clock stream podName
                  containerName namespace ctx s))
    = trace s
      ++ map OnLog
           (records clock podName containerName namespace (formatter s)
              (ticks s) (List.filter (included (filter s)) runs))
    /\ List.concat runs ++ rest = scanned_lines stream
    /\ Forall (fun run => run <> []) runs.
Proof. apply processLogStream_runs. Qed.

(** X25.  Whatever the stream and whenever it is cancelled, every record
    that [processLogStream] delivers passes the include regex of the
    filter, on the text of its raw bytes; and its message is what the
    formatter returns for the record with that text as message.  (The
    regex is applied before the formatter, to the whole record.) *)
Theorem delivered_records_pass_the_include_regex
  {M : Type} (ShouldMerge : M -> string -> string -> bool * M)
  (clock : nat -> Z) (stream : Reader)
  (podName containerName namespace : string) (ctx : signal)
  (s : @Streamer M) :
  grows_by (is_filtered_record s) s
    (snd (processLogStream ShouldMerge clock stream podName containerName
            namespace ctx s)).
Proof.
  destruct (processLogStream_runs ShouldMerge clock podName containerName
              namespace stream ctx s) as (runs & rest & Ht & _ & _).
  eexists. split; [exact Ht|]. apply records_filtered.
Qed.

(* ===================================================================== *)
(** * Followers and watchers end once they are cancelled                 *)
(* ===================================================================== *)

Section Ends.

Context {M : Type}.
Variable ShouldMerge : M -> string -> string -> bool * M.
Variable clock : nat -> Z.
Variables podName containerName namespace : string.

Implicit Types s : @Streamer M.

(** [processLogStream] uses up answers of the signal, and makes none. *)
Lemma processLogStream_signal stream k s :
  exists k',
    snd (fst (processLogStream ShouldMerge clock stream podName
                containerName namespace (Some k) s)) = Some k'
    /\ k' <= k.
Proof.
  unfold processLogStream. destruct (matcher s) as [m|].
  - unfold processMultilineLogStream. cbv zeta.
    pose proof (scan_for_cancelled
                  (multi_line ShouldMerge clock podName containerName
                     namespace)
                  (NewScanner stream) k (no_pending, s)) as H.
    cbv zeta in H.
    destruct (Nat.ltb k (List.length (scan_states (NewScanner stream)))).
    + destruct H as [sc' H]. rewrite H.
      destruct (fold_left _ _ (no_pending, s)) as [p1 s1].
      exists 0. split; [reflexivity | lia].
    + rewrite H. destruct (fold_left _ _ (no_pending, s)) as [p1 s1].
      destruct (flush clock podName containerName namespace p1 s1)
        as [p2 s2].
      destruct (after_scan _ podName s2) as [err s3].
      eexists. split; [reflexivity | lia].
  - cbv zeta.
    pose proof (scan_for_cancelled
                  (single_line clock podName containerName namespace)
                  (NewScanner stream) k s) as H.
    cbv zeta in H.
    destruct (Nat.ltb k (List.length (scan_states (NewScanner stream)))).
    + destruct H as [sc' H]. rewrite H. exists 0. split; [reflexivity | lia].
    + rewrite H. destruct (after_scan _ podName _) as [err s3].
      eexists. split; [reflexivity | lia].
Qed.

Lemma sleep_backoff_signal v k s :
  fst (fst (fst (sleep_backoff v (Some k) s))) = Returned
  \/ exists k',
       snd (fst (sleep_backoff v (Some k) s)) = Some k' /\ k' < k.
Proof.
  unfold sleep_backoff. destruct k as [|k]; cbn [stop_requested].
  - left. reflexivity.
  - right. exists k. split; [reflexivity | lia].
Qed.

(** A turn of the follower ends it or uses up an answer of the signal. *)
Lemma follower_turn_signal open v k s :
  fst (fst (fst (follower_turn ShouldMerge clock open podName
                   containerName namespace v (Some k) s))) = Returned
  \/ exists k',
       snd (fst (follower_turn ShouldMerge clock open podName
                   containerName namespace v (Some k) s)) = Some k'
       /\ k' < k.
Proof.
  unfold follower_turn. destruct k as [|k]; cbn [stop_requested].
  { left. reflexivity. }
  cbv zeta. destruct open as [e|stream].
  - cbn [isPermError].
    match goal with
    | |- context [if ?b then _ else _] => destruct b
    end; [left; reflexivity|].
    match goal with
    | |- context [sleep_backoff ?v0 (Some k) ?s0] =>
        destruct (sleep_backoff_signal v0 k s0) as [H | (k' & H & Hk)]
    end; [left; exact H | right; exists k'; split; [exact H | lia]].
  - match goal with
    | |- context [processLogStream ShouldMerge clock stream podName
                    containerName namespace (Some k) ?s0] =>
        destruct (processLogStream_signal stream k s0) as (k1 & H1 & Hk1);
        destruct (processLogStream ShouldMerge clock stream podName
                    containerName namespace (Some k) s0) as [[err c1] s1]
    end.
    cbn [fst snd] in H1. subst c1.
    destruct k1 as [|k1]; cbn [stop_requested]; [left; reflexivity|].
    destruct err as [[| text | e0 [|] reason]|];
      try (left; reflexivity);
      try (match goal with
           | |- context [sleep_backoff ?v0 (Some k1) ?s0] =>
               destruct (sleep_backoff_signal v0 k1 s0)
                 as [H | (k' & H & Hk)]
           end; [left; exact H | right; exists k'; split; [exact H | lia]]).
    right. exists k1. split; [reflexivity | lia].
Qed.

Lemma follower_loop_ends opens : forall k v s,
  k < List.length opens ->
  fst (fst (fst (follower_loop ShouldMerge clock opens podName
                   containerName namespace v (Some k) s))) = Returned.
Proof.
  induction opens as [|open opens IH]; intros k v s Hk;
    [cbn in Hk; lia|].
  cbn [follower_loop].
  destruct (follower_turn_signal open v k s) as [H | (k' & H & Hk')];
    destruct (follower_turn ShouldMerge clock open podName containerName
                namespace v (Some k) s) as [[[[|] v1] c1] s1];
    cbn [fst snd] in H |- *; try reflexivity; try discriminate H.
  subst c1. apply IH. cbn [List.length] in Hk. lia.
Qed.

(** The loop over the events of a watch uses up answers of the signal,
    and makes none. *)
Lemma watch_events_signal events : forall k s,
  exists k',
    snd (fst (watch_events events (Some k) s)) = Some k' /\ k' <= k.
Proof.
  induction events as [|ev events IH]; intros k s.
  - exists k. split; [reflexivity | lia].
  - cbn [watch_events]. destruct k as [|k]; cbn [stop_requested].
    + exists 0. split; [reflexivity | lia].
    + destruct (IH k (handle_event ev s)) as (k' & H & Hk).
      exists k'. split; [exact H | lia].
Qed.

Lemma watcher_turn_signal watch v k s :
  fst (fst (fst (watcher_turn watch v (Some k) s))) = Returned
  \/ exists k',
       snd (fst (watcher_turn watch v (Some k) s)) = Some k' /\ k' < k.
Proof.
  unfold watcher_turn. destruct k as [|k]; cbn [stop_requested].
  { left. reflexivity. }
  destruct watch as [e|events].
  - cbn [isPermError]. cbv zeta.
    match goal with
    | |- context [if ?b then _ else _] => destruct b
    end; [left; reflexivity|].
    match goal with
    | |- context [sleep_backoff ?v0 (Some k) ?s0] =>
        destruct (sleep_backoff_signal v0 k s0) as [H | (k' & H & Hk)]
    end; [left; exact H | right; exists k'; split; [exact H | lia]].
  - cbv zeta. destruct (watch_events_signal events k s) as (k' & H & Hk).
    destruct (watch_events events (Some k) s) as [[t c1] s1].
    cbn [fst snd] in H |- *. right. exists k'. split; [exact H | lia].
Qed.

Lemma watcher_loop_ends watches : forall k v s,
  k < List.length watches ->
  fst (fst (fst (watcher_loop watches v (Some k) s))) = Returned.
Proof.
  induction watches as [|watch watches IH]; intros k v s Hk;
    [cbn in Hk; lia|].
  cbn [watcher_loop].
  destruct (watcher_turn_signal watch v k s) as [H | (k' & H & Hk')];
    destruct (watcher_turn watch v (Some k) s) as [[[[|] v1] c1] s1];
    cbn [fst snd] in H |- *; try reflexivity; try discriminate H.
  subst c1. apply IH. cbn [List.length] in Hk. lia.
Qed.

End Ends.

(** X26.  A follower ends once it is cancelled, whatever the cluster
    answers: every turn of its loop looks at the signal at least once, so
    a follower that finds the signal raised at its [k+1]-th look has
    returned within [k+1] turns of its loop. *)
Theorem follower_ends_once_cancelled
  {M : Type} (ShouldMerge : M -> string -> string -> bool * M)
  (clock : nat -> Z) (opens : list OpenResult)
  (podName containerName namespace : string) (k : nat) (s : @Streamer M) :
  k < List.length opens ->
  fst (fst (fst (follower ShouldMerge clock opens podName containerName
                   namespace (Some k) s))) = Returned.
Proof.
  intros Hk. unfold follower.
  pose proof (follower_loop_ends ShouldMerge clock podName containerName
                namespace opens k
                {| retry := 0; backoff := InitialInterval (retryPolicy s) |}
                s Hk) as H.
  destruct (follower_loop _ _ _ _ _ _ _ _ _) as [[[[|] v1] c1] s1];
    cbn [fst] in H |- *; [reflexivity | discriminate H].
Qed.

Lemma follower_ends_once_cancelled_witness :
  1 < List.length [@inr error Reader Example.two_lines;
                   inr Example.two_lines]
  /\ fst (fst (fst (follower Example.never_merge Example.clock
                      [inr Example.two_lines; inr Example.two_lines]
                      "pod" "app" "default" (Some 1)
                      (Example.streamer None 0 5))))
     = Returned.
Proof.
  split; [cbn; lia|].
  apply (follower_ends_once_cancelled Example.never_merge Example.clock
           [inr Example.two_lines; inr Example.two_lines]
           "pod" "app" "default" 1 (Example.streamer None 0 5)).
  cbn. lia.
Defined.

(** X27.  A watcher ends once it is cancelled, whatever the cluster
    answers and whatever events it is sent: a watcher that finds the
    signal raised at its [k+1]-th look has returned within [k+1] turns of
    its loop. *)
Theorem watcher_ends_once_cancelled
  {M : Type} (watches : list WatchResult) (k : nat) (s : @Streamer M) :
  k < List.length watches ->
  fst (fst (fst (watcher watches (Some k) s))) = Returned.
Proof.
  intros Hk. unfold watcher.
  pose proof (watcher_loop_ends watches k
                {| retry := 0; backoff := InitialInterval (retryPolicy s) |}
                s Hk) as H.
  destruct (watcher_loop _ _ _ _) as [[[[|] v1] c1] s1];
    cbn [fst] in H |- *; [reflexivity | discriminate H].
Qed.

Lemma watcher_ends_once_cancelled_witness :
  1 < List.length [@inr error (list WatchEvent) [];
                   inl (errorString "timeout")]
  /\ fst (fst (fst (watcher [inr []; inl (errorString "timeout")] (Some 1)
                      (Example.streamer (@None unit) 0 5))))
     = Returned.
Proof.
  split; [cbn; lia|].
  apply (watcher_ends_once_cancelled
           [inr []; inl (errorString "timeout")] 1
           (Example.streamer (@None unit) 0 5)).
  cbn. lia.
Defined.

(* ===================================================================== *)
(** * Stack traces                                                       *)
(* ===================================================================== *)

Lemma last_cons {A : Type} (l : list A) : forall x d,
  List.last (x :: l) d = List.last l x.
Proof.
  induction l as [|y l IH]; intros x d; [reflexivity|].
  change (List.last (x :: y :: l) d) with (List.last (y :: l) d).
  rewrite (IH y d), (IH y x). reflexivity.
Qed.

Lemma JavaStackMatcher_call previous next :
  matcher.JavaStackMatcher_ShouldMerge matcher.NewJavaStackMatcher
    previous next
  = (true, matcher.NewJavaStackMatcher)
    /\ merge_as_coded previous next
  \/ matcher.JavaStackMatcher_ShouldMerge matcher.NewJavaStackMatcher
       previous next
     = (false, matcher.NewJavaStackMatcher)
     /\ ~ merge_as_coded previous next.
Proof.
  pose proof (JavaStackMatcher_merges_iff previous next) as Hiff.
  pose proof (JavaStackMatcher_unchanged matcher.NewJavaStackMatcher
                previous next) as Hm.
  destruct (matcher.JavaStackMatcher_ShouldMerge matcher.NewJavaStackMatcher
              previous next) as [[|] m'];
    cbn [fst snd] in Hiff, Hm; subst m'.
  - left. split; [reflexivity | apply Hiff; reflexivity].
  - right. split; [reflexivity|]. intros H. apply Hiff in H. discriminate H.
Qed.

Lemma reassemble_stack_trace max rest frames : forall cur last,
  cur <> [] ->
  merged_chain merge_as_coded last frames ->
  chain_ends merge_as_coded (List.last frames last) rest ->
  (Z.of_nat (List.length cur + List.length frames) < max)%Z ->
  reassemble matcher.JavaStackMatcher_ShouldMerge max
    matcher.NewJavaStackMatcher cur (string_of_list_byte last)
    (frames ++ rest)
  = (cur ++ frames)
    :: reassemble matcher.JavaStackMatcher_ShouldMerge max
         matcher.NewJavaStackMatcher [] "" rest.
Proof.
  induction frames as [|f frames IH]; intros cur last Hcur Hchain Hend Hmax.
  - rewrite app_nil_r. cbn [app].
    destruct cur as [|c0 cur']; [contradiction|].
    destruct rest as [|r rest']; [reflexivity|].
    cbn [reassemble]. cbn [List.last chain_ends] in Hend.
    destruct (JavaStackMatcher_call (string_of_list_byte last)
                (string_of_list_byte r)) as [[_ H] | [H _]];
      [contradiction|].
    rewrite H. reflexivity.
  - destruct Hchain as [Hf Hchain].
    destruct cur as [|c0 cur']; [contradiction|].
    change ((f :: frames) ++ rest) with (f :: (frames ++ rest)).
    cbn [reassemble].
    destruct (JavaStackMatcher_call (string_of_list_byte last)
                (string_of_list_byte f)) as [[H _] | [_ H]];
      [|contradiction].
    rewrite H. cbn [List.length] in Hmax.
    replace (Z.of_nat (List.length ((c0 :: cur') ++ [f])) >=? max)%Z
      with false
      by (symmetry; rewrite Z.geb_leb; apply Z.leb_gt;
          rewrite length_app; cbn [List.length]; lia).
    rewrite (IH ((c0 :: cur') ++ [f]) f).
    + rewrite <- app_assoc. reflexivity.
    + destruct cur'; discriminate.
    + exact Hchain.
    + rewrite last_cons in Hend. exact Hend.
    + rewrite length_app. cbn [List.length]. lia.
Qed.

(** A line and the lines merged after it make up one run, and the lines
    that follow are cut as from a fresh start. *)
Lemma reassemble_stack_trace_whole
  (max : Z) (first : list byte) (frames rest : list (list byte)) :
  merged_chain merge_as_coded first frames ->
  chain_ends merge_as_coded (List.last frames first) rest ->
  (Z.of_nat (List.length (first :: frames)) < max)%Z ->
  reassemble matcher.JavaStackMatcher_ShouldMerge max
    matcher.NewJavaStackMatcher [] "" ((first :: frames) ++ rest)
  = (first :: frames)
    :: reassemble matcher.JavaStackMatcher_ShouldMerge max
         matcher.NewJavaStackMatcher [] "" rest.
Proof.
  intros Hchain Hend Hmax.
  change ((first :: frames) ++ rest) with (first :: (frames ++ rest)).
  cbn [reassemble].
  rewrite (reassemble_stack_trace max rest frames [first] first);
    [reflexivity | discriminate | exact Hchain | exact Hend |].
  cbn [List.length] in Hmax |- *. lia.
Qed.

(* ===================================================================== *)
(** * C10: the records of the multi-line path                            *)
(* ===================================================================== *)

Section Discard.

Context {M : Type}.
Variable clock : nat -> Z.
Variables podName containerName namespace : string.

(** A record of [records] is the record of one of the runs. *)
Lemma records_In format msg runs : forall k,
  In msg (records clock podName containerName namespace format k runs) ->
  exists run timestamp,
    In run runs
    /\ msg = record_of podName containerName namespace format timestamp run.
Proof.
  induction runs as [|run runs IH]; intros k Hin; [contradiction|].
  cbn [records] in Hin. destruct Hin as [<- | Hin].
  - exists run, (clock k). split; [left; reflexivity | reflexivity].
  - destruct (IH (S k) Hin) as (run' & ts & Hrun & Hmsg).
    exists run', ts. split; [right; exact Hrun | exact Hmsg].
Qed.

(** The raw bytes of a run tell whether the include regex lets it
    through. *)
Lemma included_raw (f : LogFilter) run run' :
  joined_raw run' = joined_raw run -> included f run' = included f run.
Proof.
  intros H. unfold included.
  rewrite <- (joined_raw_text run'), <- (joined_raw_text run), H.
  reflexivity.
Qed.

(** No record delivered for the runs that pass the regex holds the bytes
    of a run that fails it. *)
Lemma rejected_run_not_delivered (f : LogFilter) format k runs run msg :
  included f run = false ->
  In msg (records clock podName containerName namespace format k
            (List.filter (included f) runs)) ->
  Raw msg <> joined_raw run.
Proof.
  intros Hrej Hin Hraw.
  destruct (records_In format msg _ k Hin) as (run' & ts & Hrun & ->).
  apply filter_In in Hrun. destruct Hrun as [_ Hinc].
  cbn in Hraw. rewrite (included_raw f run run' Hraw) in Hinc. congruence.
Qed.

End Discard.

(** C10.  The multi-line processor cuts the scanned lines into the runs
    that the merge predicate and the bound decide, whatever the include
    regex is: every line lies in exactly one run, the runs are non-empty,
    contiguous and in order (their concatenation is the sequence of
    scanned lines).  The records delivered are, in order, those of the
    runs whose newline-joined text passes the include regex, each with
    that text as message and the joined raw lines as raw bytes, and no
    others: a run that fails the regex is discarded whole, the runs
    around it are those that would be cut without the regex, and no
    record delivered holds its bytes.  (The run goes to the end of the
    stream: no cancellation is observed.) *)
Theorem multiline_records_partition_lines
  {M : Type} (ShouldMerge : M -> string -> string -> bool * M)
  (clock : nat -> Z) (stream : Reader)
  (podName containerName namespace : string) (s : @Streamer M) (m : M) :
  matcher s = Some m ->
  let runs :=
    reassemble ShouldMerge (maxMultilines s) m [] "" (scanned_lines stream) in
  let delivered :=
    records clock podName containerName namespace (formatter s) (ticks s)
      (List.filter (included (filter s)) runs) in
  List.concat runs = scanned_lines stream
  /\ Forall (fun run => run <> []) runs
  /\ trace (snd (processLogStream ShouldMerge clock stream podName
                   containerName namespace None s))
     = trace s ++ map OnLog delivered
  /\ (forall run msg,
        In run runs -> included (filter s) run = false ->
        In msg delivered -> Raw msg <> joined_raw run).
Proof.
  intros Hm runs delivered. subst runs delivered.
  split; [apply reassemble_concat|].
  split; [apply reassemble_nonempty|].
  split.
  - destruct (processLogStream_multi ShouldMerge clock podName containerName
                namespace stream s m Hm) as [m' Hmulti].
    rewrite Hmulti. cbn [fst snd set_matcher trace].
    rewrite after_scan_trace. apply fold_deliver_trace.
  - intros run msg _ Hrej Hin.
    exact (rejected_run_not_delivered clock podName containerName namespace
             (filter s) (formatter s) (ticks s) _ run msg Hrej Hin).
Qed.

Lemma multiline_records_partition_lines_witness :
  matcher (Example.streamer_including "c" (Some tt) 2) = Some tt
  /\ reassemble Example.always_merge
       (maxMultilines (Example.streamer_including "c" (Some tt) 2)) tt [] ""
       (scanned_lines Example.four_lines)
     = [ [list_byte_of_string "a"; list_byte_of_string "b"];
         [list_byte_of_string "c"; list_byte_of_string "d"] ]
  /\ map (included (filter (Example.streamer_including "c" (Some tt) 2)))
       [ [list_byte_of_string "a"; list_byte_of_string "b"];
         [list_byte_of_string "c"; list_byte_of_string "d"] ]
     = [false; true]
  /\ Example.messages
       (trace (snd (processLogStream Example.always_merge Example.clock
                      Example.four_lines "pod" "app" "default" None
                      (Example.streamer_including "c" (Some tt) 2))))
     = [("c" ++ Example.nl ++ "d")%string].
Proof.
  split; [reflexivity|]. split; [reflexivity|]. split; [reflexivity|].
  destruct (multiline_records_partition_lines Example.always_merge
              Example.clock Example.four_lines "pod" "app" "default"
              (Example.streamer_including "c" (Some tt) 2) tt eq_refl)
    as (_ & _ & H & _).
  rewrite H. reflexivity.
Defined.

(* ===================================================================== *)
(** * Objects and stack traces in the multi-line path                    *)
(* ===================================================================== *)

(** X19.  In the multi-line path with the JSON matcher in bracket mode
    and at count zero, a stream that starts with the lines of an object
    whose braces are open after each line but the last, and closed after
    the last (fewer lines than the bound, none ending with a backslash),
    delivers that object as its first record, whole and alone, when it
    passes the include regex; the records after it are those of the lines
    that follow, cut as from a fresh start. *)
Theorem JSON_object_is_one_record
  (clock : nat -> Z) (stream : Reader)
  (podName containerName namespace : string)
  (s : @Streamer matcher.JSONMatcher) (m : matcher.JSONMatcher)
  (lines rest : list (list byte)) :
  matcher s = Some m ->
  matcher.BracketMode m = true ->
  matcher.BracketCount m = 0%Z ->
  object_lines 0 lines = true ->
  (Z.of_nat (List.length lines) < maxMultilines s)%Z ->
  scanned_lines stream = lines ++ rest ->
  trace (snd (processLogStream matcher.JSONMatcher_ShouldMerge clock stream
                podName containerName namespace None s))
  = trace s
    ++ map OnLog
         (records clock podName containerName namespace (formatter s)
            (ticks s)
            (List.filter (included (filter s))
               (lines
                :: reassemble matcher.JSONMatcher_ShouldMerge
                     (maxMultilines s) m [] "" rest))).
Proof.
  intros Hm Hmode Hcount Ho Hmax Hlines.
  destruct (processLogStream_multi matcher.JSONMatcher_ShouldMerge clock
              podName containerName namespace stream s m Hm) as [m' Hmulti].
  rewrite Hmulti. cbn [fst snd set_matcher trace].
  rewrite after_scan_trace, fold_deliver_trace, Hlines.
  rewrite (reassemble_JSON_object (maxMultilines s) m lines rest
             Hmode Hcount Ho Hmax).
  reflexivity.
Qed.

Lemma JSON_object_is_one_record_witness :
  matcher (Example.streamer (Some matcher.NewJSONMatcher) 0 0)
  = Some matcher.NewJSONMatcher
  /\ matcher.BracketMode matcher.NewJSONMatcher = true
  /\ matcher.BracketCount matcher.NewJSONMatcher = 0%Z
  /\ object_lines 0 [list_byte_of_string "{"; list_byte_of_string " x: {}";
                     list_byte_of_string "}"] = true
  /\ (Z.of_nat (List.length [list_byte_of_string "{";
                             list_byte_of_string " x: {}";
                             list_byte_of_string "}"])
      < maxMultilines (Example.streamer (Some matcher.NewJSONMatcher) 0 0))%Z
  /\ scanned_lines Example.object_reads
     = [list_byte_of_string "{"; list_byte_of_string " x: {}";
        list_byte_of_string "}"]
       ++ [list_byte_of_string "done"]
  /\ Example.messages
       (trace (snd (processLogStream matcher.JSONMatcher_ShouldMerge
                      Example.clock Example.object_reads "pod" "app"
                      "default" None
                      (Example.streamer (Some matcher.NewJSONMatcher) 0 0))))
     = [("{" ++ Example.nl ++ " x: {}" ++ Example.nl ++ "}")%string; "done"].
Proof.
  split; [reflexivity|]. split; [reflexivity|]. split; [reflexivity|].
  split; [vm_compute; reflexivity|]. split; [reflexivity|].
  split; [vm_compute; reflexivity|].
  rewrite (JSON_object_is_one_record Example.clock Example.object_reads
             "pod" "app" "default"
             (Example.streamer (Some matcher.NewJSONMatcher) 0 0)
             matcher.NewJSONMatcher
             [list_byte_of_string "{"; list_byte_of_string " x: {}";
              list_byte_of_string "}"]
             [list_byte_of_string "done"]
             eq_refl eq_refl eq_refl);
    [reflexivity | vm_compute; reflexivity | reflexivity
    | vm_compute; reflexivity].
Defined.

(** X28.  In the multi-line path with the JVM-style matcher, a stream
    that starts with a line followed by lines that are each to be merged
    with the one before (frames indented by a tab or starting with white
    space and "at ", "Caused by:" lines, lines after a backslash), fewer
    than the bound, delivers them as its first record, whole and alone,
    when it passes the include regex: the record ends before the first
    line that is not to be merged, and the records after it are those of
    the lines that follow, cut as from a fresh start. *)
Theorem stack_trace_is_one_record
  (clock : nat -> Z) (stream : Reader)
  (podName containerName namespace : string)
  (s : @Streamer matcher.JavaStackMatcher)
  (first : list byte) (frames rest : list (list byte)) :
  matcher s = Some matcher.NewJavaStackMatcher ->
  merged_chain merge_as_coded first frames ->
  chain_ends merge_as_coded (List.last frames first) rest ->
  (Z.of_nat (List.length (first :: frames)) < maxMultilines s)%Z ->
  scanned_lines stream = (first :: frames) ++ rest ->
  trace (snd (processLogStream matcher.JavaStackMatcher_ShouldMerge clock
                stream podName containerName namespace None s))
  = trace s
    ++ map OnLog
         (records clock podName containerName namespace (formatter s)
            (ticks s)
            (List.filter (included (filter s))
               ((first :: frames)
                :: reassemble matcher.JavaStackMatcher_ShouldMerge
                     (maxMultilines s) matcher.NewJavaStackMatcher [] ""
                     rest))).
Proof.
  intros Hm Hchain Hend Hmax Hlines.
  destruct (processLogStream_multi matcher.JavaStackMatcher_ShouldMerge
              clock podName containerName namespace stream s
              matcher.NewJavaStackMatcher Hm) as [m' Hmulti].
  rewrite Hmulti. cbn [fst snd set_matcher trace].
  rewrite after_scan_trace, fold_deliver_trace, Hlines.
  rewrite (reassemble_stack_trace_whole (maxMultilines s) first frames rest
             Hchain Hend Hmax).
  reflexivity.
Qed.

Lemma stack_trace_is_one_record_witness :
  matcher (Example.streamer (Some matcher.NewJavaStackMatcher) 0 0)
  = Some matcher.NewJavaStackMatcher
  /\ merged_chain merge_as_coded
       (list_byte_of_string "java.lang.IllegalStateException: boom")
       [list_byte_of_string (String (Go.byte_of 9) "at a.B.c(B.java:1)");
        list_byte_of_string "Caused by: java.io.IOException"]
  /\ chain_ends merge_as_coded
       (List.last
          [list_byte_of_string (String (Go.byte_of 9) "at a.B.c(B.java:1)");
           list_byte_of_string "Caused by: java.io.IOException"]
          (list_byte_of_string "java.lang.IllegalStateException: boom"))
       [list_byte_of_string "INFO next"]
  /\ (Z.of_nat
        (List.length
           (list_byte_of_string "java.lang.IllegalStateException: boom"
            :: [list_byte_of_string
                  (String (Go.byte_of 9) "at a.B.c(B.java:1)");
                list_byte_of_string "Caused by: java.io.IOException"]))
      < maxMultilines
          (Example.streamer (Some matcher.NewJavaStackMatcher) 0 0))%Z
  /\ scanned_lines Example.trace_reads
     = (list_byte_of_string "java.lang.IllegalStateException: boom"
        :: [list_byte_of_string (String (Go.byte_of 9) "at a.B.c(B.java:1)");
            list_byte_of_string "Caused by: java.io.IOException"])
       ++ [list_byte_of_string "INFO next"]
  /\ Example.messages
       (trace (snd (processLogStream matcher.JavaStackMatcher_ShouldMerge
                      Example.clock Example.trace_reads "pod" "app"
                      "default" None
                      (Example.streamer (Some matcher.NewJavaStackMatcher)
                         0 0))))
     = [("java.lang.IllegalStateException: boom" ++ Example.nl
         ++ String (Go.byte_of 9) "at a.B.c(B.java:1)" ++ Example.nl
         ++ "Caused by: java.io.IOException")%string;
        "INFO next"].
Proof.
  assert (H1 : merged_chain merge_as_coded
                 (list_byte_of_string "java.lang.IllegalStateException: boom")
                 [list_byte_of_string
                    (String (Go.byte_of 9) "at a.B.c(B.java:1)");
                  list_byte_of_string "Caused by: java.io.IOException"]).
  { cbn [merged_chain].
    split; [apply JavaStackMatcher_merges_iff; reflexivity|].
    split; [apply JavaStackMatcher_merges_iff; reflexivity | exact I]. }
  assert (H2 : chain_ends merge_as_coded
                 (List.last
                    [list_byte_of_string
                       (String (Go.byte_of 9) "at a.B.c(B.java:1)");
                     list_byte_of_string "Caused by: java.io.IOException"]
                    (list_byte_of_string
                       "java.lang.IllegalStateException: boom"))
                 [list_byte_of_string "INFO next"]).
  { cbn [chain_ends List.last]. intros H.
    apply JavaStackMatcher_merges_iff in H. discriminate H. }
  split; [reflexivity|]. split; [exact H1|]. split; [exact H2|].
  split; [reflexivity|]. split; [vm_compute; reflexivity|].
  rewrite (stack_trace_is_one_record Example.clock Example.trace_reads
             "pod" "app" "default"
             (Example.streamer (Some matcher.NewJavaStackMatcher) 0 0)
             (list_byte_of_string "java.lang.IllegalStateException: boom")
             [list_byte_of_string
                (String (Go.byte_of 9) "at a.B.c(B.java:1)");
              list_byte_of_string "Caused by: java.io.IOException"]
             [list_byte_of_string "INFO next"]
             eq_refl H1 H2 eq_refl);
    [reflexivity | vm_compute; reflexivity].
Defined.
